(** * Task scheduling and hierarchy-consistency engine

    A shallow embedding of the scheduling core of the project planner
    ([lib/dateUtils.ts], [lib/taskUtils.ts], the holiday store and the
    task store that [services/ganttService.ts] holds) together with
    the properties of its specification.

    Modelling conventions.
    - A JavaScript [Date] is a day number ([Z], days since 1970-01-01):
      every date handled by the engine is a calendar day, [addDays d n]
      is [d + n], comparison of dates is comparison of day numbers and
      the millisecond difference of two dates divided by the length of
      a day is the difference of the day numbers.
    - Integral JavaScript numbers (ordinals, levels, durations) are [Z];
      the progress percentage is a rational ([Q]), [Math.round x] being
      [Qfloor (x + 1/2)].
    - [null] and [undefined] are both [None].
    - Strings are [string]; white space is the ASCII white space.
    - Fields of [Task] that the engine never reads (remarks, view,
      timestamps, flags of the Gantt view) are left out of the record. *)

From Stdlib Require Import ZArith QArith Qround Qminmax Lia Bool Ascii String DecimalString.
From Stdlib Require Import Sorting.Sorted.
From stdpp Require Import base option list gmap strings.

#[local] Set Warnings "-clear-no-such-hyp".

Local Close Scope Q_scope.
Local Open Scope string_scope.
Local Open Scope list_scope.
Local Open Scope Z_scope.

(** ** JavaScript primitives used by the engine *)

Module JS.

(** [String.prototype.trim]'s white space, restricted to ASCII. *)
Definition isWhiteSpace (c : ascii) : bool :=
  let n := nat_of_ascii c in
  ((n =? 32) || (n =? 9) || (n =? 10) || (n =? 11) || (n =? 12) || (n =? 13))%nat.

Fixpoint trimStart (s : string) : string :=
  match s with
  | String c r => if isWhiteSpace c then trimStart r else s
  | EmptyString => EmptyString
  end.

Fixpoint trimEnd (s : string) : string :=
  match s with
  | EmptyString => EmptyString
  | String c r =>
      match trimEnd r with
      | EmptyString => if isWhiteSpace c then EmptyString else String c EmptyString
      | r' => String c r'
      end
  end.

Definition trim (s : string) : string := trimEnd (trimStart s).

(** Truthiness of a string: the empty string is falsy. *)
Definition truthy (s : string) : bool :=
  match s with EmptyString => false | _ => true end.

(** [s.split(',')]: never empty, the empty string gives one empty piece. *)
Fixpoint split (s : string) : list string :=
  match s with
  | EmptyString => [EmptyString]
  | String c r =>
      if Ascii.eqb c ","%char then EmptyString :: split r
      else match split r with
           | h :: t => String c h :: t
           | [] => [String c EmptyString]
           end
  end.

(** [a.join(sep)]. *)
Fixpoint join (sep : string) (l : list string) : string :=
  match l with
  | [] => EmptyString
  | [x] => x
  | x :: r => x +:+ sep +:+ join sep r
  end.

Definition digitValue (c : ascii) : option Z :=
  let n := Z.of_nat (nat_of_ascii c) in
  if (48 <=? n) && (n <=? 57) then Some (n - 48) else None.

Definition hexDigitValue (c : ascii) : option Z :=
  let n := Z.of_nat (nat_of_ascii c) in
  if (48 <=? n) && (n <=? 57) then Some (n - 48)
  else if (97 <=? n) && (n <=? 102) then Some (n - 87)
  else if (65 <=? n) && (n <=? 70) then Some (n - 55)
  else None.

(** The longest prefix of digits, read in the given radix; [acc] is
    [None] until a digit has been read. *)
Fixpoint parseDigits (radix : Z) (digit : ascii -> option Z) (s : string)
         (acc : option Z) : option Z :=
  match s with
  | String c r =>
      match digit c with
      | Some v => parseDigits radix digit r (Some (radix * default 0 acc + v))
      | None => acc
      end
  | EmptyString => acc
  end.

(** [parseInt(s)] without a radix argument; [None] is [NaN]. *)
Definition parseInt (s : string) : option Z :=
  let s := trimStart s in
  let '(sign, s) :=
    match s with
    | String c r =>
        if Ascii.eqb c "-"%char then (-1, r)
        else if Ascii.eqb c "+"%char then (1, r)
        else (1, s)
    | EmptyString => (1, s)
    end in
  let '(hex, s) :=
    match s with
    | String c0 (String c1 r) =>
        if Ascii.eqb c0 "0"%char && (Ascii.eqb c1 "x"%char || Ascii.eqb c1 "X"%char)
        then (true, r) else (false, s)
    | _ => (false, s)
    end in
  Z.mul sign <$>
    (if hex : bool then parseDigits 16 hexDigitValue s None
     else parseDigits 10 digitValue s None).

(** [String(n)] for an integral number. *)
Definition String_ (n : Z) : string := NilZero.string_of_int (Z.to_int n).

(** [s.startsWith(p)]. *)
Definition startsWith (s p : string) : bool := String.prefix p s.

Section Arrays.
Context {A : Type}.

(** [a.findIndex(p)]; [None] is [-1]. *)
Fixpoint findIndex (p : A -> bool) (l : list A) : option nat :=
  match l with
  | [] => None
  | x :: r => if p x then Some O else S <$> findIndex p r
  end.

(** The number a [findIndex] returns. *)
Definition indexZ (i : option nat) : Z :=
  match i with Some n => Z.of_nat n | None => -1 end.

(** [a[i]] for a number [i]: out of range is [undefined]. *)
Definition at_ (l : list A) (i : Z) : option A :=
  if i <? 0 then None else l !! Z.to_nat i.

(** [a.slice(start, end)] and [a.slice(start)]: a negative index
    counts from the end. *)
Definition normIndex (len i : Z) : Z :=
  if i <? 0 then Z.max 0 (len + i) else Z.min i len.

Definition slice (start end_ : Z) (l : list A) : list A :=
  let len := Z.of_nat (length l) in
  let s := normIndex len start in
  let e := normIndex len end_ in
  take (Z.to_nat (e - s)) (drop (Z.to_nat s) l).

Definition sliceFrom (start : Z) (l : list A) : list A :=
  slice start (Z.of_nat (length l)) l.

(** [a.sort(cmp)]: the sort is stable; [cmp x y <= 0] keeps [x] before [y]. *)
Fixpoint insertBy (cmp : A -> A -> Z) (x : A) (l : list A) : list A :=
  match l with
  | [] => [x]
  | y :: r => if cmp x y <=? 0 then x :: y :: r else y :: insertBy cmp x r
  end.

Fixpoint sort (cmp : A -> A -> Z) (l : list A) : list A :=
  match l with
  | [] => []
  | x :: r => insertBy cmp x (sort cmp r)
  end.
End Arrays.

(** [a.includes(n)] on numbers. *)
Definition includes (n : Z) (l : list Z) : bool := existsb (Z.eqb n) l.

(** [ids.split(',').map(id => parseInt(id.trim())).filter(id => !isNaN(id))]. *)
Definition parseSiNos (ids : string) : list Z :=
  omap (fun id => parseInt (trim id)) (split ids).

(** [Math.round] on a rational. *)
Definition round (x : Q) : Z := Qfloor (x + (1 # 2))%Q.

(** [Math.ceil] on a rational. *)
Definition ceil (x : Q) : Z := Qceiling x.

End JS.

(** ** The work calendar ([store/holidayStore.ts]) *)

Module HolidayStore.

(** Civil calendar of a day number (proleptic Gregorian). *)
Definition civil (date : Z) : Z * Z * Z :=
  let z := date + 719468 in
  let era := z / 146097 in
  let doe := z - era * 146097 in
  let yoe := (doe - doe / 1460 + doe / 36524 - doe / 146096) / 365 in
  let doy := doe - (365 * yoe + yoe / 4 - yoe / 100) in
  let mp := (5 * doy + 2) / 153 in
  let d := doy - (153 * mp + 2) / 5 + 1 in
  let m := if mp <? 10 then mp + 3 else mp - 9 in
  let y := yoe + era * 400 + (if m <=? 2 then 1 else 0) in
  (y, m, d).

(** Day number of a civil date. *)
Definition ymd (y m d : Z) : Z :=
  let y := if m <=? 2 then y - 1 else y in
  let era := y / 400 in
  let yoe := y - era * 400 in
  let doy := (153 * (if 2 <? m then m - 3 else m + 9) + 2) / 5 + d - 1 in
  let doe := yoe * 365 + yoe / 4 - yoe / 100 + doy in
  era * 146097 + doe - 719468.

(** [date.getDay()]: 0 is Sunday, 6 is Saturday. *)
Definition getDay (date : Z) : Z := (date + 4) mod 7.

(** [date.getDate()]: the day of the month. *)
Definition getDate (date : Z) : Z := snd (civil date).

Record AutoplantHoliday := {
  date : Z;
  optional : bool
}.

Record HolidayState := {
  excludeSundays : bool;
  excludeAllSaturdays : bool;
  excludeEvenSaturdays : bool;
  excludeAutoplantHolidays : bool;
  excludeOptionalHolidays : bool;
  autoplantHolidays : list AutoplantHoliday
}.

Definition mandatory (d : Z) : AutoplantHoliday := {| date := d; optional := false |}.

(** The state the store is created with. *)
Definition initialState : HolidayState := {|
  excludeSundays := true;
  excludeAllSaturdays := false;
  excludeEvenSaturdays := false;
  excludeAutoplantHolidays := true;
  excludeOptionalHolidays := true;
  autoplantHolidays :=
    [ mandatory (ymd 2025 1 1); mandatory (ymd 2025 2 26); mandatory (ymd 2025 3 14);
      mandatory (ymd 2025 4 18); mandatory (ymd 2025 5 1); mandatory (ymd 2025 8 15);
      mandatory (ymd 2025 8 27); mandatory (ymd 2025 10 2); mandatory (ymd 2025 10 21);
      mandatory (ymd 2025 10 22); mandatory (ymd 2025 12 25);
      {| date := ymd 2025 3 31; optional := true |};
      mandatory (ymd 2025 11 5) ]
|}.

(** A calendar that excludes the weekends only. *)
Definition weekends : HolidayState := {|
  excludeSundays := true;
  excludeAllSaturdays := true;
  excludeEvenSaturdays := false;
  excludeAutoplantHolidays := false;
  excludeOptionalHolidays := false;
  autoplantHolidays := []
|}.

Definition isHoliday (st : HolidayState) (d : Z) : bool :=
  if excludeSundays st && (getDay d =? 0) then true
  else if excludeAllSaturdays st && (getDay d =? 6) then true
  else if excludeEvenSaturdays st && (getDay d =? 6) && (getDate d mod 2 =? 0) then true
  else if excludeAutoplantHolidays st then
    match find (fun h => date h =? d) (autoplantHolidays st) with
    | Some holiday => if optional holiday then excludeOptionalHolidays st else true
    | None => false
    end
  else false.

End HolidayStore.

(** ** Date arithmetic ([lib/dateUtils.ts]) *)

Section DateArithmetic.

Variable isHoliday : Z -> bool.

(** The loop of [calculateEndDate]; it runs until [daysToAdd] working
    days have been passed, so it is given fuel. *)
Fixpoint endDateLoop (fuel : nat) (result daysAdded daysToAdd : Z) : option Z :=
  if daysAdded <? daysToAdd then
    match fuel with
    | O => None
    | S fuel =>
        let result := result + 1 in
        endDateLoop fuel result
          (if isHoliday result then daysAdded else daysAdded + 1) daysToAdd
    end
  else Some result.

Definition calculateEndDate (fuel : nat) (startDate duration : Z)
           (excludeHolidays : bool) : option Z :=
  if duration =? 1 then Some startDate
  else if negb excludeHolidays then Some (startDate + (duration - 1))
  else endDateLoop fuel startDate 0 (duration - 1).

(** The loop of [calculateDuration]; it stops when [currentDate]
    passes [endDate]. *)
Fixpoint durationLoop (fuel : nat) (currentDate endDate count : Z) : Z :=
  match fuel with
  | O => count
  | S fuel =>
      if currentDate <=? endDate then
        durationLoop fuel (currentDate + 1) endDate
          (if isHoliday currentDate then count else count + 1)
      else count
  end.

Definition calculateDuration (startDate endDate : Z) (excludeHolidays : bool) : Z :=
  if startDate =? endDate then 1
  else if negb excludeHolidays then endDate - startDate + 1
  else durationLoop (Z.to_nat (endDate - startDate + 1)) startDate endDate 0.

End DateArithmetic.

(** ** Tasks ([types/task.ts]) *)

Record Task := mkTask {
  id : string;
  siNo : Z;
  wbsNo : string;
  taskName : string;
  predecessorIds : option string;
  level : Z;
  startDate : option Z;
  endDate : option Z;
  duration : option Z;
  actualStartDate : option Z;
  actualEndDate : option Z;
  actualDuration : option Z;
  progress : Q;
  isDeleted : bool;
  isParent : bool
}.

(** Object spread with one field replaced, [{...t, f: v}]. *)
Definition set_siNo (v : Z) (t : Task) : Task :=
  mkTask (id t) v (wbsNo t) (taskName t) (predecessorIds t) (level t) (startDate t)
    (endDate t) (duration t) (actualStartDate t) (actualEndDate t) (actualDuration t)
    (progress t) (isDeleted t) (isParent t).
Definition set_wbsNo (v : string) (t : Task) : Task :=
  mkTask (id t) (siNo t) v (taskName t) (predecessorIds t) (level t) (startDate t)
    (endDate t) (duration t) (actualStartDate t) (actualEndDate t) (actualDuration t)
    (progress t) (isDeleted t) (isParent t).
Definition set_predecessorIds (v : option string) (t : Task) : Task :=
  mkTask (id t) (siNo t) (wbsNo t) (taskName t) v (level t) (startDate t)
    (endDate t) (duration t) (actualStartDate t) (actualEndDate t) (actualDuration t)
    (progress t) (isDeleted t) (isParent t).
Definition set_level (v : Z) (t : Task) : Task :=
  mkTask (id t) (siNo t) (wbsNo t) (taskName t) (predecessorIds t) v (startDate t)
    (endDate t) (duration t) (actualStartDate t) (actualEndDate t) (actualDuration t)
    (progress t) (isDeleted t) (isParent t).
Definition set_startDate (v : option Z) (t : Task) : Task :=
  mkTask (id t) (siNo t) (wbsNo t) (taskName t) (predecessorIds t) (level t) v
    (endDate t) (duration t) (actualStartDate t) (actualEndDate t) (actualDuration t)
    (progress t) (isDeleted t) (isParent t).
Definition set_endDate (v : option Z) (t : Task) : Task :=
  mkTask (id t) (siNo t) (wbsNo t) (taskName t) (predecessorIds t) (level t) (startDate t)
    v (duration t) (actualStartDate t) (actualEndDate t) (actualDuration t)
    (progress t) (isDeleted t) (isParent t).
Definition set_duration (v : option Z) (t : Task) : Task :=
  mkTask (id t) (siNo t) (wbsNo t) (taskName t) (predecessorIds t) (level t) (startDate t)
    (endDate t) v (actualStartDate t) (actualEndDate t) (actualDuration t)
    (progress t) (isDeleted t) (isParent t).
Definition set_actualStartDate (v : option Z) (t : Task) : Task :=
  mkTask (id t) (siNo t) (wbsNo t) (taskName t) (predecessorIds t) (level t) (startDate t)
    (endDate t) (duration t) v (actualEndDate t) (actualDuration t)
    (progress t) (isDeleted t) (isParent t).
Definition set_actualEndDate (v : option Z) (t : Task) : Task :=
  mkTask (id t) (siNo t) (wbsNo t) (taskName t) (predecessorIds t) (level t) (startDate t)
    (endDate t) (duration t) (actualStartDate t) v (actualDuration t)
    (progress t) (isDeleted t) (isParent t).
Definition set_actualDuration (v : option Z) (t : Task) : Task :=
  mkTask (id t) (siNo t) (wbsNo t) (taskName t) (predecessorIds t) (level t) (startDate t)
    (endDate t) (duration t) (actualStartDate t) (actualEndDate t) v
    (progress t) (isDeleted t) (isParent t).
Definition set_progress (v : Q) (t : Task) : Task :=
  mkTask (id t) (siNo t) (wbsNo t) (taskName t) (predecessorIds t) (level t) (startDate t)
    (endDate t) (duration t) (actualStartDate t) (actualEndDate t) (actualDuration t)
    v (isDeleted t) (isParent t).
Definition set_isDeleted (v : bool) (t : Task) : Task :=
  mkTask (id t) (siNo t) (wbsNo t) (taskName t) (predecessorIds t) (level t) (startDate t)
    (endDate t) (duration t) (actualStartDate t) (actualEndDate t) (actualDuration t)
    (progress t) v (isParent t).
Definition set_isParent (v : bool) (t : Task) : Task :=
  mkTask (id t) (siNo t) (wbsNo t) (taskName t) (predecessorIds t) (level t) (startDate t)
    (endDate t) (duration t) (actualStartDate t) (actualEndDate t) (actualDuration t)
    (progress t) (isDeleted t) v.

(** Truthiness of a numeric field: [null], [undefined] and [0] are falsy. *)
Definition truthyNum (n : option Z) : bool :=
  match n with Some v => negb (v =? 0) | None => false end.

(** [!ids?.trim()] on a nullable string. *)
Definition blank (ids : option string) : bool :=
  match ids with Some s => negb (JS.truthy (JS.trim s)) | None => true end.

(** [t => t.id === i]. *)
Definition hasId (i : string) (t : Task) : bool := String.eqb (id t) i.

(** ** Date adjustment ([lib/dateUtils.ts], continued) *)

Section DateAdjustment.

Variable isHoliday : Z -> bool.

(** The block of [adjustDates] on the planned dates. *)
Definition adjustPlanned (fuel : nat) (task : Task) : option Task :=
  match startDate task with
  | Some start =>
      if truthyNum (duration task) && negb (bool_decide (is_Some (endDate task))) then
        e ← calculateEndDate isHoliday fuel start (default 0 (duration task)) true;
        Some (set_endDate (Some e) task)
      else
        match endDate task with
        | Some e =>
            if negb (truthyNum (duration task)) then
              Some (set_duration (Some (calculateDuration isHoliday start e true)) task)
            else
              e' ← calculateEndDate isHoliday fuel start (default 0 (duration task)) true;
              Some (set_endDate (Some e') task)
        | None => Some task
        end
  | None => Some task
  end.

(** The block of [adjustDates] on the actual dates. *)
Definition adjustActual (fuel : nat) (task : Task) : option Task :=
  match actualStartDate task with
  | Some start =>
      if truthyNum (actualDuration task)
         && negb (bool_decide (is_Some (actualEndDate task))) then
        e ← calculateEndDate isHoliday fuel start (default 0 (actualDuration task)) true;
        Some (set_actualEndDate (Some e) task)
      else
        match actualEndDate task with
        | Some e =>
            Some (set_actualDuration (Some (calculateDuration isHoliday start e true)) task)
        | None => Some task
        end
  | None => Some task
  end.

(** [adjustDates]: the result is a copy of the argument. *)
Definition adjustDates (fuel : nat) (task : Task) : option Task :=
  task ← adjustPlanned fuel task;
  adjustActual fuel task.

End DateAdjustment.

(** ** Predecessor propagation ([lib/taskUtils.ts]) *)

(** [Math.max(...l)] and [Math.min(...l)] of a non-empty list. *)
Definition maxList (d : Z) (l : list Z) : Z := foldr Z.max d l.
Definition minList (d : Z) (l : list Z) : Z := foldr Z.min d l.

Definition getMaxPredecessorEndDate (tasks : list Task) (predecessorIds : string) : option Z :=
  if negb (JS.truthy (JS.trim predecessorIds)) then None
  else
    let siNos := JS.parseSiNos predecessorIds in
    match siNos with
    | [] => None
    | _ =>
        let predecessors :=
          List.filter (fun t => negb (isDeleted t) && JS.includes (siNo t) siNos
                                && bool_decide (is_Some (endDate t))) tasks in
        match omap endDate predecessors with
        | [] => None
        | d :: ds => Some (maxList d ds)
        end
    end.

(** The guard of [adjustTaskDatesWithPredecessors]: the task has a
    predecessor text that is neither blank nor the sentinel. *)
Definition hasPredecessorText (task : Task) : bool :=
  negb (blank (predecessorIds task)
        || bool_decide (predecessorIds task = Some "0")).

(** [getTime] of a date, in milliseconds. *)
Definition msPerDay : Z := 1000 * 60 * 60 * 24.
Definition getTime (date : Z) : Z := date * msPerDay.

(** The duration the rule gives a task that has an end date and no
    duration: the difference of the two dates in days, rounded up, plus 1
    "to include both start and end date", and at least 1. *)
Definition durationUntil (newStartDate endDate : Z) : Z :=
  let differenceInMilliseconds := getTime endDate - getTime newStartDate in
  let differenceInDays :=
    JS.ceil (inject_Z differenceInMilliseconds / inject_Z msPerDay)%Q in
  Z.max 1 (differenceInDays + 1).

Section PredecessorRule.

Variable isHoliday : Z -> bool.

(** The assignments to the planned fields when the start is pushed
    behind the latest predecessor. *)
Definition pushStart (fuel : nat) (task : Task) (maxPredEndDate : Z) : option Task :=
  let newStartDate := maxPredEndDate + 1 in
  let originalDuration := duration task in
  let task := set_startDate (Some newStartDate) task in
  match originalDuration with
  | Some d =>
      if 0 <? d then
        e ← calculateEndDate isHoliday fuel newStartDate d true;
        Some (set_duration originalDuration (set_endDate (Some e) task))
      else
        match endDate task with
        | Some e => Some (set_duration (Some (durationUntil newStartDate e)) task)
        | None => Some (set_endDate (Some newStartDate) (set_duration (Some 1) task))
        end
  | None =>
      match endDate task with
      | Some e => Some (set_duration (Some (durationUntil newStartDate e)) task)
      | None => Some (set_endDate (Some newStartDate) (set_duration (Some 1) task))
      end
  end.

(** Whether the predecessor rule applies: a latest predecessor end
    exists and the start is unset or not later than it. *)
Definition ruleApplies (task : Task) (allTasks : list Task) : option Z :=
  match getMaxPredecessorEndDate allTasks (default "" (predecessorIds task)) with
  | Some maxPredEndDate =>
      match startDate task with
      | Some s => if s <=? maxPredEndDate then Some maxPredEndDate else None
      | None => Some maxPredEndDate
      end
  | None => None
  end.

(** The block "handle actual duration and progress". *)
Definition settleActual (task : Task) : Task :=
  let task :=
    match actualStartDate task, actualEndDate task with
    | Some s, Some e =>
        set_actualDuration (Some (calculateDuration isHoliday s e true)) task
    | _, _ => set_actualDuration None task
    end in
  if bool_decide (is_Some (actualEndDate task)) then set_progress 100%Q task else task.

(** The state of the argument object when
    [adjustTaskDatesWithPredecessors] returns: the function assigns to
    the fields of its argument before it copies it. *)
Definition mutateWithPredecessors (fuel : nat) (task : Task) (allTasks : list Task)
  : option Task :=
  if negb (hasPredecessorText task) then Some task
  else
    task ←
      match ruleApplies task allTasks with
      | Some maxPredEndDate => pushStart fuel task maxPredEndDate
      | None => Some task
      end;
    Some (settleActual task).

(** The object [adjustTaskDatesWithPredecessors] returns. *)
Definition adjustTaskDatesWithPredecessors (fuel : nat) (task : Task)
           (allTasks : list Task) : option Task :=
  task ← mutateWithPredecessors fuel task allTasks;
  adjustDates isHoliday fuel task.

End PredecessorRule.

(** ** Hierarchy and dependency checks ([lib/taskUtils.ts]) *)



(** The predecessor ordinals [hasCycle] follows from an ordinal: those
    of the first non-deleted task that carries it. *)
Definition storedPredecessors (tasks : list Task) (currentSiNo : Z) : list Z :=
  match find (fun t => negb (isDeleted t) && (siNo t =? currentSiNo)) tasks with
  | Some currentTask =>
      match predecessorIds currentTask with
      | Some ids =>
          if negb (JS.truthy ids) || String.eqb ids "0" then []
          else JS.parseSiNos ids
      | None => []
      end
  | None => []
  end.






(** ** Hierarchical labels ([updateWbsNumbers]) *)

(** [processChildren], as a scan of the tasks after the parent: a
    direct child is labelled, then its own children are (the recursive
    call scans the tasks after the child), then the scan goes on. *)
Fixpoint processChildren (rest : list Task) (parentLevel : Z) (parentWbs : string)
         (childCounter : Z) (wbsMap : gmap string string) : gmap string string :=
  match rest with
  | [] => wbsMap
  | currentTask :: rest =>
      if level currentTask <=? parentLevel then wbsMap
      else if level currentTask =? parentLevel + 1 then
        let childWbs := parentWbs +:+ "." +:+ JS.String_ childCounter in
        let wbsMap := <[id currentTask := childWbs]> wbsMap in
        let wbsMap := processChildren rest (level currentTask) childWbs 1 wbsMap in
        processChildren rest parentLevel parentWbs (childCounter + 1) wbsMap
      else processChildren rest parentLevel parentWbs childCounter wbsMap
  end.

(** The first pass: level 0 tasks are numbered in order. *)
Fixpoint numberLevel0 (activeTasks : list Task) (level0Counter : Z)
         (wbsMap : gmap string string) : gmap string string :=
  match activeTasks with
  | [] => wbsMap
  | task :: rest =>
      if level task =? 0 then
        numberLevel0 rest (level0Counter + 1) (<[id task := JS.String_ level0Counter]> wbsMap)
      else numberLevel0 rest level0Counter wbsMap
  end.

(** The inner loop of the second pass, over the tasks after a level 0
    task, up to the next level 0 task. *)
Fixpoint level0Children (rest : list Task) (taskLevel : Z) (parentWbs : string)
         (childCounter : Z) (wbsMap : gmap string string) : gmap string string :=
  match rest with
  | [] => wbsMap
  | nextTask :: rest =>
      if level nextTask =? 0 then wbsMap
      else if level nextTask =? taskLevel + 1 then
        let childWbs := parentWbs +:+ "." +:+ JS.String_ childCounter in
        let wbsMap := <[id nextTask := childWbs]> wbsMap in
        let wbsMap := processChildren rest (level nextTask) childWbs 1 wbsMap in
        level0Children rest taskLevel parentWbs (childCounter + 1) wbsMap
      else level0Children rest taskLevel parentWbs childCounter wbsMap
  end.

(** The second pass.  [wbsMap.get(task.id)!] of a level 0 task is
    always defined after the first pass. *)
Fixpoint labelChildren (activeTasks : list Task) (wbsMap : gmap string string)
  : gmap string string :=
  match activeTasks with
  | [] => wbsMap
  | task :: rest =>
      if level task =? 0 then
        let parentWbs := default "undefined" (wbsMap !! id task) in
        labelChildren rest (level0Children rest (level task) parentWbs 1 wbsMap)
      else labelChildren rest wbsMap
  end.

Definition updateWbsNumbers (tasks : list Task) : list Task :=
  let activeTasks := List.filter (fun t => negb (isDeleted t)) tasks in
  let wbsMap := labelChildren activeTasks (numberLevel0 activeTasks 1 ∅) in
  (fun task =>
     if isDeleted task then task
     else match wbsMap !! id task with
          | Some w => if JS.truthy w then set_wbsNo w task else task
          | None => task
          end) <$> tasks.

(** ** Indent and outdent *)

Inductive Result (A : Type) : Type :=
| Return (value : A)
| Throw (message : string).
Arguments Return {A} value.
Arguments Throw {A} message.

(** The contiguity check on the sorted indices. *)
Fixpoint contiguous (selectedIndices : list Z) : bool :=
  match selectedIndices with
  | i :: (j :: _) as rest => (j =? i + 1) && contiguous rest
  | _ => true
  end.

Definition selectedIndicesOf (visibleTasks selectedTasks : list Task) : list Z :=
  JS.sort (fun a b => a - b)
    ((fun task => JS.indexZ (JS.findIndex (hasId (id task)) visibleTasks)) <$> selectedTasks).

(** [newTasks[i] = {...newTasks[i], level: f(newTasks[i].level)}] for
    each selected task, [i] being the index of the first task with its id. *)
Definition relevel (f : Z -> Z) (newTasks : list Task) (task : Task) : list Task :=
  match JS.findIndex (hasId (id task)) newTasks with
  | Some taskIndex =>
      match newTasks !! taskIndex with
      | Some t => <[taskIndex := set_level (f (level t)) t]> newTasks
      | None => newTasks
      end
  | None => newTasks
  end.

Definition updateTaskLevelsForIndent (tasks : list Task) (selectedIds : gset string)
  : Result (list Task) :=
  if decide (size selectedIds = 0%nat) then Return tasks
  else
    let visibleTasks := List.filter (fun t => negb (isDeleted t)) tasks in
    let selectedTasks := List.filter (fun t => bool_decide (id t ∈ selectedIds)) visibleTasks in
    let selectedIndices := selectedIndicesOf visibleTasks selectedTasks in
    if JS.includes 0 selectedIndices then
      Throw "Cannot indent the first task (no parent available)"
    else if negb (contiguous selectedIndices) then
      Throw "Selected tasks must be contiguous for indent operations"
    else
      let parentTask := i ← head selectedIndices; JS.at_ visibleTasks (i - 1) in
      match selectedTasks, parentTask with
      | [], _ => Return (updateWbsNumbers tasks)
      | _, None => Throw "TypeError: parentTask is undefined"
      | _, Some parentTask =>
          let maxAllowedLevel := level parentTask + 1 in
          Return (updateWbsNumbers
                    (foldl (relevel (fun l => Z.min (l + 1) maxAllowedLevel)) tasks selectedTasks))
      end.

Definition updateTaskLevelsForOutdent (tasks : list Task) (selectedIds : gset string)
  : Result (list Task) :=
  if decide (size selectedIds = 0%nat) then Return tasks
  else
    let visibleTasks := List.filter (fun t => negb (isDeleted t)) tasks in
    let selectedTasks := List.filter (fun t => bool_decide (id t ∈ selectedIds)) visibleTasks in
    let selectedIndices := selectedIndicesOf visibleTasks selectedTasks in
    let minLevelIs0 :=
      match level <$> selectedTasks with
      | [] => false
      | l :: ls => minList l ls =? 0
      end in
    if minLevelIs0 then Throw "Cannot outdent tasks at root level"
    else if negb (contiguous selectedIndices) then
      Throw "Selected tasks must be contiguous for outdent operations"
    else
      Return (updateWbsNumbers
                (foldl (relevel (fun l => Z.max 0 (l - 1))) tasks selectedTasks)).

(** ** Renumbering after deletion *)

(** The new text of one predecessor reference; the empty string drops it. *)
Definition renumberReference (sortedTasks : list Task) (deletedSiNos : list Z)
           (reference : string) : string :=
  match JS.parseInt (JS.trim reference) with
  | None => ""
  | Some predSiNo =>
      if JS.includes predSiNo deletedSiNos then ""
      else
        match find (fun t => siNo t =? predSiNo) sortedTasks with
        | None => ""
        | Some predTask =>
            if isDeleted predTask then ""
            else
              let predIndex := JS.indexZ (JS.findIndex (fun t => siNo t =? predSiNo) sortedTasks) in
              let deletedBefore :=
                Z.of_nat (length (List.filter (fun n => n <? predSiNo) deletedSiNos)) in
              JS.String_ (predIndex + 1 - deletedBefore)
        end
  end.

Definition renumberPredecessors (sortedTasks : list Task) (deletedSiNos : list Z)
           (predecessorIds : option string) : option string :=
  match predecessorIds with
  | Some ids =>
      if JS.truthy ids then
        let updatedPredecessors :=
          JS.join "," (List.filter JS.truthy
                         (renumberReference sortedTasks deletedSiNos <$> JS.split ids)) in
        if JS.truthy updatedPredecessors then Some updatedPredecessors else None
      else predecessorIds
  | None => None
  end.

(** The [map] over the sorted tasks, with its counter [nextSiNo]. *)
Fixpoint renumberLoop (sortedTasks : list Task) (deletedSiNos : list Z)
         (todo : list Task) (nextSiNo : Z) : list Task :=
  match todo with
  | [] => []
  | task :: rest =>
      if isDeleted task || JS.includes (siNo task) deletedSiNos then
        task :: renumberLoop sortedTasks deletedSiNos rest nextSiNo
      else
        let newTask := set_siNo nextSiNo task in
        let newTask :=
          set_predecessorIds
            (renumberPredecessors sortedTasks deletedSiNos (predecessorIds newTask)) newTask in
        newTask :: renumberLoop sortedTasks deletedSiNos rest (nextSiNo + 1)
  end.

Definition updateSiNumbersAfterDeletion (tasks : list Task) (deletedSiNos : list Z)
  : list Task :=
  let sortedTasks := JS.sort (fun a b => siNo a - siNo b) tasks in
  renumberLoop sortedTasks deletedSiNos sortedTasks 1.

(** ** Moving a task among its siblings *)

(** The tasks after a task up to the first one that is not deeper. *)
Fixpoint takeDeeper (taskLevel : Z) (rest : list Task) : list Task :=
  match rest with
  | [] => []
  | currentTask :: rest =>
      if level currentTask <=? taskLevel then []
      else currentTask :: takeDeeper taskLevel rest
  end.

Definition findAllChildTasks (tasks : list Task) (task : Task) : list Task :=
  match JS.findIndex (hasId (id task)) tasks with
  | None => []
  | Some taskIndex =>
      List.filter (fun t => negb (isDeleted t))
        (takeDeeper (level task) (drop (S taskIndex) tasks))
  end.

Definition findSiblingTasks (tasks : list Task) (task : Task) : list Task :=
  if level task =? 0 then
    List.filter (fun t => (level t =? 0) && negb (isDeleted t)) tasks
  else
    let before :=
      match JS.findIndex (hasId (id task)) tasks with
      | Some taskIndex => reverse (take taskIndex tasks)
      | None => []
      end in
    match find (fun t => level t =? level task - 1) before with
    | None => [task]
    | Some parentTask =>
        match JS.findIndex (hasId (id parentTask)) tasks with
        | None => []
        | Some start =>
            List.filter (fun t => negb (isDeleted t))
              (List.filter (fun t => level t =? level task)
                 (takeDeeper (level parentTask) (drop (S start) tasks)))
        end
    end.

(** A JavaScript [Map] from ids to ordinals: setting an existing key
    keeps its place in the iteration order. *)
Fixpoint mapSet (k : string) (v : Z) (m : list (string * Z)) : list (string * Z) :=
  match m with
  | [] => [(k, v)]
  | (k', v') :: r => if String.eqb k' k then (k', v) :: r else (k', v') :: mapSet k v r
  end.

Definition originalSiMapOf (tasks : list Task) : list (string * Z) :=
  foldl (fun m t => mapSet (id t) (siNo t) m) [] tasks.

Definition movedReference (tasks : list Task) (originalSiMap : list (string * Z))
           (siStr : string) : string :=
  match JS.parseInt (JS.trim siStr) with
  | None => siStr
  | Some n =>
      match find (fun entry => snd entry =? n) originalSiMap with
      | None => siStr
      | Some (taskId, _) =>
          match find (hasId taskId) tasks with
          | Some newTask => JS.String_ (siNo newTask)
          | None => siStr
          end
      end
  end.

Definition updatePredecessorsAfterMove (tasks : list Task)
           (originalSiMap : list (string * Z)) : list Task :=
  (fun task =>
     match predecessorIds task with
     | Some ids =>
         if JS.truthy ids then
           set_predecessorIds
             (Some (JS.join "," (movedReference tasks originalSiMap <$> JS.split ids))) task
         else task
     | None => task
     end) <$> tasks.

(** [t => !group.some(mt => mt.id === t.id)]. *)
Definition notIn (group : list Task) (t : Task) : bool :=
  negb (existsb (fun mt => String.eqb (id mt) (id t)) group).

(** The common end of both moves: the two blocks are taken out and put
    back at [insertIndex], [first] before [second]; every task of the
    list is then numbered by its position. *)
Definition swapBlocks (tasks first second : list Task) (insertIndex : Z) : list Task :=
  let originalSiMap := originalSiMapOf tasks in
  let newTasks := List.filter (fun t => notIn first t && notIn second t) tasks in
  let newTasks :=
    JS.slice 0 insertIndex newTasks ++ first ++ second ++ JS.sliceFrom insertIndex newTasks in
  let newTasks := imap (fun i t => set_siNo (Z.of_nat i + 1) t) newTasks in
  let newTasks := updatePredecessorsAfterMove newTasks originalSiMap in
  updateWbsNumbers newTasks.

Definition moveTaskUp (tasks : list Task) (taskId : string) : list Task :=
  match JS.findIndex (fun t => String.eqb (id t) taskId && negb (isDeleted t)) tasks with
  | None | Some O => tasks
  | Some taskIndex =>
      match tasks !! taskIndex with
      | None => tasks
      | Some task =>
          let siblings := findSiblingTasks tasks task in
          let siblingIndex := JS.indexZ (JS.findIndex (hasId taskId) siblings) in
          if siblingIndex <=? 0 then tasks
          else
            match JS.at_ siblings (siblingIndex - 1) with
            | None => tasks
            | Some previousSibling =>
                let previousSiblingIndex :=
                  JS.indexZ (JS.findIndex (hasId (id previousSibling)) tasks) in
                let taskGroup := task :: findAllChildTasks tasks task in
                let prevTaskGroup := previousSibling :: findAllChildTasks tasks previousSibling in
                swapBlocks tasks taskGroup prevTaskGroup previousSiblingIndex
            end
      end
  end.

Definition moveTaskDown (tasks : list Task) (taskId : string) : list Task :=
  match JS.findIndex (fun t => String.eqb (id t) taskId && negb (isDeleted t)) tasks with
  | None => tasks
  | Some taskIndex =>
      if Z.of_nat taskIndex >=? Z.of_nat (length tasks) - 1 then tasks
      else
        match tasks !! taskIndex with
        | None => tasks
        | Some task =>
            let siblings := findSiblingTasks tasks task in
            let siblingIndex := JS.indexZ (JS.findIndex (hasId taskId) siblings) in
            if siblingIndex >=? Z.of_nat (length siblings) - 1 then tasks
            else
              match JS.at_ siblings (siblingIndex + 1) with
              | None => tasks
              | Some nextSibling =>
                  let taskGroup := task :: findAllChildTasks tasks task in
                  let nextTaskGroup := nextSibling :: findAllChildTasks tasks nextSibling in
                  swapBlocks tasks nextTaskGroup taskGroup (Z.of_nat taskIndex)
              end
        end
  end.

(** ** Parent flags *)

(** The forward scan of [updateParentStatus] after a task. *)
Fixpoint hasDirectChildren (taskLevel : Z) (rest : list Task) : bool :=
  match rest with
  | [] => false
  | nextTask :: rest =>
      if level nextTask <=? taskLevel then false
      else if (level nextTask =? taskLevel + 1) && negb (isDeleted nextTask) then true
      else hasDirectChildren taskLevel rest
  end.

Definition updateParentStatus (tasks : list Task) : list Task :=
  (fun task =>
     match JS.findIndex (hasId (id task)) tasks with
     | None => task
     | Some taskIndex =>
         set_isParent (hasDirectChildren (level task) (drop (S taskIndex) tasks)) task
     end) <$> tasks.

(** ** The task store (in [services/ganttService.ts]) *)

(** [TaskUpdate = Partial<Task>]: [None] is an absent key. *)
Record TaskUpdate := mkTaskUpdate {
  u_id : option string;
  u_siNo : option Z;
  u_wbsNo : option string;
  u_taskName : option string;
  u_predecessorIds : option (option string);
  u_level : option Z;
  u_startDate : option (option Z);
  u_endDate : option (option Z);
  u_duration : option (option Z);
  u_actualStartDate : option (option Z);
  u_actualEndDate : option (option Z);
  u_actualDuration : option (option Z);
  u_progress : option Q;
  u_isDeleted : option bool;
  u_isParent : option bool
}.

(** [{...task, ...update}]. *)
Definition spread (task : Task) (update : TaskUpdate) : Task :=
  mkTask (default (id task) (u_id update))
    (default (siNo task) (u_siNo update))
    (default (wbsNo task) (u_wbsNo update))
    (default (taskName task) (u_taskName update))
    (default (predecessorIds task) (u_predecessorIds update))
    (default (level task) (u_level update))
    (default (startDate task) (u_startDate update))
    (default (endDate task) (u_endDate update))
    (default (duration task) (u_duration update))
    (default (actualStartDate task) (u_actualStartDate update))
    (default (actualEndDate task) (u_actualEndDate update))
    (default (actualDuration task) (u_actualDuration update))
    (default (progress task) (u_progress update))
    (default (isDeleted task) (u_isDeleted update))
    (default (isParent task) (u_isParent update)).

(** The update of a parent task: dates, duration and progress are deleted. *)
Definition filterParentUpdate (update : TaskUpdate) : TaskUpdate :=
  mkTaskUpdate (u_id update) (u_siNo update) (u_wbsNo update) (u_taskName update)
    (u_predecessorIds update) (u_level update) None None None None None None None
    (u_isDeleted update) (u_isParent update).

(** [Object.keys(update).length === 0]. *)
Definition emptyUpdate (update : TaskUpdate) : bool :=
  bool_decide (u_id update = None) && bool_decide (u_siNo update = None)
  && bool_decide (u_wbsNo update = None) && bool_decide (u_taskName update = None)
  && bool_decide (u_predecessorIds update = None) && bool_decide (u_level update = None)
  && bool_decide (u_startDate update = None) && bool_decide (u_endDate update = None)
  && bool_decide (u_duration update = None) && bool_decide (u_actualStartDate update = None)
  && bool_decide (u_actualEndDate update = None) && bool_decide (u_actualDuration update = None)
  && match u_progress update with None => true | Some _ => false end
  && bool_decide (u_isDeleted update = None) && bool_decide (u_isParent update = None).

Definition with_progress (v : Q) (update : TaskUpdate) : TaskUpdate :=
  mkTaskUpdate (u_id update) (u_siNo update) (u_wbsNo update) (u_taskName update)
    (u_predecessorIds update) (u_level update) (u_startDate update) (u_endDate update)
    (u_duration update) (u_actualStartDate update) (u_actualEndDate update)
    (u_actualDuration update) (Some v) (u_isDeleted update) (u_isParent update).
Definition with_predecessorIds (v : option string) (update : TaskUpdate) : TaskUpdate :=
  mkTaskUpdate (u_id update) (u_siNo update) (u_wbsNo update) (u_taskName update)
    (Some v) (u_level update) (u_startDate update) (u_endDate update)
    (u_duration update) (u_actualStartDate update) (u_actualEndDate update)
    (u_actualDuration update) (u_progress update) (u_isDeleted update) (u_isParent update).
Definition with_actualDuration (v : option Z) (update : TaskUpdate) : TaskUpdate :=
  mkTaskUpdate (u_id update) (u_siNo update) (u_wbsNo update) (u_taskName update)
    (u_predecessorIds update) (u_level update) (u_startDate update) (u_endDate update)
    (u_duration update) (u_actualStartDate update) (u_actualEndDate update)
    (Some v) (u_progress update) (u_isDeleted update) (u_isParent update).

(** Truthiness of an optional date key and of the progress key. *)
Definition setDate (d : option (option Z)) : option Z := mjoin d.
Definition noProgress (update : TaskUpdate) : bool :=
  match u_progress update with
  | None => true
  | Some p => Qeq_bool p 0
  end.

(** [findDirectChildren] of the aggregation passes. *)
Definition findDirectChildren (parentTask : Task) (allTasks : list Task) : list Task :=
  List.filter (fun t => negb (isDeleted t) && (level t =? level parentTask + 1)
                        && JS.startsWith (wbsNo t) (wbsNo parentTask +:+ ".")) allTasks.

(** [updatedTasks[i] = f(updatedTasks[i])] at the first task with the id. *)
Definition updateById (taskId : string) (f : Task -> Task) (updatedTasks : list Task)
  : list Task :=
  match JS.findIndex (hasId taskId) updatedTasks with
  | Some parentIndex =>
      match updatedTasks !! parentIndex with
      | Some t => <[parentIndex := f t]> updatedTasks
      | None => updatedTasks
      end
  | None => updatedTasks
  end.

Definition sumQ (l : list Q) : Q := foldl Qplus 0%Q l.

(** The progress a parent gets from its children. *)
Definition averageProgress (children : list Task) : Q :=
  let totalProgress := sumQ (progress <$> children) in
  let avgProgress :=
    (inject_Z (JS.round ((totalProgress / inject_Z (Z.of_nat (length children))) * 10))
     / 10)%Q in
  Qmin (Qmax avgProgress 0) 100.

(** [findDirectChildren(task, updatedTasks).filter(t => !t.isDeleted)]. *)
Definition liveChildren (parentTask : Task) (updatedTasks : list Task) : list Task :=
  List.filter (fun t => negb (isDeleted t)) (findDirectChildren parentTask updatedTasks).

(** The body both aggregation loops share: a parent with children is
    replaced by what [derive] makes of it and of its children. *)
Definition aggregate (derive : list Task -> Task -> Task) (updatedTasks : list Task)
           (task : Task) : list Task :=
  match liveChildren task updatedTasks with
  | [] => updatedTasks
  | children => updateById (id task) (derive children) updatedTasks
  end.

Definition progressStep (updatedTasks : list Task) (task : Task) : list Task :=
  aggregate (fun children => set_progress (averageProgress children)) updatedTasks task.

Definition updateParentProgress (tasks : list Task) : list Task :=
  let tasksByLevel :=
    JS.sort (fun a b => level b - level a)
      (List.filter (fun t => negb (isDeleted t) && isParent t) tasks) in
  foldl progressStep tasks tasksByLevel.

Section ParentDates.

Variable isHoliday : Z -> bool.

(** [Math.min]/[Math.max] over the dates that are set; [null] if none is. *)
Definition minDate (dates : list Z) : option Z :=
  match dates with [] => None | d :: ds => Some (minList d ds) end.
Definition maxDate (dates : list Z) : option Z :=
  match dates with [] => None | d :: ds => Some (maxList d ds) end.

Definition derivedDuration (newStart newEnd : option Z) (old : option Z) : option Z :=
  match newStart, newEnd with
  | Some s, Some e => Some (calculateDuration isHoliday s e true)
  | _, _ => old
  end.

Definition deriveDates (children : list Task) (parent : Task) : Task :=
  let newStartDate := minDate (omap startDate children) in
  let newEndDate := maxDate (omap endDate children) in
  let newActualStartDate := minDate (omap actualStartDate children) in
  let newActualEndDate := maxDate (omap actualEndDate children) in
  set_actualDuration (derivedDuration newActualStartDate newActualEndDate (actualDuration parent))
    (set_actualEndDate newActualEndDate
       (set_actualStartDate newActualStartDate
          (set_duration (derivedDuration newStartDate newEndDate (duration parent))
             (set_endDate newEndDate (set_startDate newStartDate parent))))).

Definition datesStep (updatedTasks : list Task) (task : Task) : list Task :=
  if isParent task then aggregate deriveDates updatedTasks task else updatedTasks.

Definition updateParentDates (tasks : list Task) : list Task :=
  let tasksByLevel :=
    JS.sort (fun a b => level b - level a)
      (List.filter (fun t => negb (isDeleted t)) tasks) in
  foldl datesStep tasks tasksByLevel.

(** The passes every mutation of the store ends with. *)
Definition recompute (tasks : list Task) : list Task :=
  updateWbsNumbers (updateParentProgress (updateParentDates (updateParentStatus tasks))).

End ParentDates.

(** ** Propagation to dependent tasks ([updateDependentTasks])

    [adjustTaskDatesWithPredecessors] assigns to the fields of the task
    object it is given, and the loop of [updateDependents] holds on to
    the objects it filtered while recursive calls replace the entries of
    [updatedTasks]; the objects are therefore kept in a store and the
    arrays hold references into it. *)

Record Propagation := mkPropagation {
  objects : list Task;
  updatedTasks : list nat;
  processedTasks : gset string
}.

(** The tasks an array of references denotes. *)
Definition deref (objects : list Task) (refs : list nat) : list Task :=
  omap (fun r => objects !! r) refs.

(** [t => !t.isDeleted && t.predecessorIds?....includes(key)]. *)
Definition dependsOn (key : Z) (t : Task) : bool :=
  negb (isDeleted t)
  && match predecessorIds t with
     | Some ids => JS.includes key (JS.parseSiNos ids)
     | None => false
     end.

(** [updatedTasks.find(ut => ut.id === taskId)?.siNo || -1]. *)
Definition siNoOr (tasks : list Task) (taskId : string) : Z :=
  match siNo <$> find (hasId taskId) tasks with
  | Some n => if n =? 0 then -1 else n
  | None => -1
  end.

Section Propagation.

Variable isHoliday : Z -> bool.

(** The loop over the dependent tasks; [recur] is the recursive call of
    [updateDependents]. *)
Fixpoint eachDependent (recur : string -> Propagation -> option Propagation) (fuel : nat)
         (dependentTasks : list nat) (st : Propagation) : option Propagation :=
  match dependentTasks with
  | [] => Some st
  | r :: rest =>
      match objects st !! r with
      | None => eachDependent recur fuel rest st
      | Some dependent =>
          let current := deref (objects st) (updatedTasks st) in
          match JS.findIndex (hasId (id dependent)) current with
          | None => eachDependent recur fuel rest st
          | Some idx =>
              mutated ← mutateWithPredecessors isHoliday fuel dependent current;
              adjustedTask ← adjustDates isHoliday fuel mutated;
              let fresh := length (objects st) in
              let st :=
                mkPropagation (<[r := mutated]> (objects st) ++ [adjustedTask])
                              (<[idx := fresh]> (updatedTasks st))
                              (processedTasks st) in
              st ←
                (if bool_decide (startDate dependent = startDate adjustedTask
                                 ∧ endDate dependent = endDate adjustedTask)
                 then Some st
                 else recur (id dependent) st);
              eachDependent recur fuel rest st
          end
      end
  end.

(** The tasks that depend on the task [taskId], as references. *)
Definition dependentsOf (taskId : string) (st : Propagation) : list nat :=
  let key := siNoOr (deref (objects st) (updatedTasks st)) taskId in
  List.filter (fun r => from_option (dependsOn key) false (objects st !! r))
              (updatedTasks st).

Definition markProcessed (taskId : string) (st : Propagation) : Propagation :=
  mkPropagation (objects st) (updatedTasks st) ({[taskId]} ∪ processedTasks st).

Fixpoint updateDependents (fuel : nat) (taskId : string) (st : Propagation)
  : option Propagation :=
  match fuel with
  | O => None
  | S fuel =>
      if decide (taskId ∈ processedTasks st) then Some st
      else
        let st := markProcessed taskId st in
        eachDependent (updateDependents fuel) fuel (dependentsOf taskId st) st
  end.

Definition updateDependentTasks (fuel : nat) (tasks : list Task) (updatedTask : Task)
  : option (list Task) :=
  match JS.findIndex (hasId (id updatedTask)) tasks with
  | None => Some tasks
  | Some taskIdx =>
      let st :=
        mkPropagation (tasks ++ [updatedTask])
                      (<[taskIdx := length tasks]> (seq 0 (length tasks))) ∅ in
      st ← updateDependents fuel (id updatedTask) st;
      Some (deref (objects st) (updatedTasks st))
  end.

(** The update [updateTask] applies to a task that is not a parent. *)
Definition processUpdate (task : Task) (update : TaskUpdate) : TaskUpdate :=
  let processedUpdate := update in
  let processedUpdate :=
    if bool_decide (u_predecessorIds processedUpdate = Some (Some ""))
    then with_predecessorIds (Some "0") processedUpdate else processedUpdate in
  let processedUpdate :=
    if bool_decide (is_Some (setDate (u_actualEndDate update))) && noProgress update
    then with_progress 100%Q processedUpdate else processedUpdate in
  let processedUpdate :=
    if bool_decide (is_Some (setDate (u_actualStartDate update)))
       && Qeq_bool (progress task) 0 && noProgress update
    then with_progress 50%Q processedUpdate else processedUpdate in
  let startDate :=
    match setDate (u_actualStartDate update) with
    | Some d => Some d
    | None => actualStartDate task
    end in
  let endDate :=
    match setDate (u_actualEndDate update) with
    | Some d => Some d
    | None => actualEndDate task
    end in
  match startDate, endDate with
  | Some s, Some e =>
      with_actualDuration (Some (calculateDuration isHoliday s e true)) processedUpdate
  | _, _ => processedUpdate
  end.

(** [updateTask]: the new task list of the store. *)
Definition updateTask (fuel : nat) (tasks : list Task) (taskId : string)
           (update : TaskUpdate) : option (list Task) :=
  match JS.findIndex (hasId taskId) tasks with
  | None => Some tasks
  | Some taskIndex =>
      match tasks !! taskIndex with
      | None => Some tasks
      | Some task =>
          if isParent task then
            let filteredUpdate := filterParentUpdate update in
            if emptyUpdate filteredUpdate then Some tasks
            else
              let updatedTask := spread task filteredUpdate in
              Some (recompute isHoliday (<[taskIndex := updatedTask]> tasks))
          else
            let updatedTask := spread task (processUpdate task update) in
            newTasks ← updateDependentTasks fuel tasks updatedTask;
            Some (recompute isHoliday newTasks)
      end
  end.

(** [tasks[i] = {...tasks[i], isDeleted: true}] at the first task with the id. *)
Definition markDeleted (newTasks : list Task) (taskId : string) : list Task :=
  updateById taskId (set_isDeleted true) newTasks.

Definition deleteTask (tasks : list Task) (taskId : string) : list Task :=
  match find (hasId taskId) tasks with
  | None => tasks
  | Some taskToDelete =>
      let newTasks := markDeleted tasks taskId in
      let childTasks := findAllChildTasks newTasks taskToDelete in
      let newTasks := foldl (fun l child => markDeleted l (id child)) newTasks childTasks in
      let deletedSiNos := siNo taskToDelete :: (siNo <$> childTasks) in
      recompute isHoliday (updateSiNumbersAfterDeletion newTasks deletedSiNos)
  end.

(** The task [addTaskAfter] creates; [newId] is the fresh identifier. *)
Definition newTaskAfter (newId : string) (afterTask : Task) : Task :=
  let newSiNo := siNo afterTask + 1 in
  mkTask newId newSiNo (JS.String_ newSiNo) ("<task" +:+ JS.String_ newSiNo +:+ ">")
    (Some "0") (level afterTask) None None (Some 0) None None None 0%Q false false.

(** The shift of a later task's references in [addTaskAfter]. *)
Definition shiftReference (newSiNo : Z) (reference : string) : string :=
  match JS.parseInt (JS.trim reference) with
  | Some predSiNo => if predSiNo >=? newSiNo then JS.String_ (predSiNo + 1) else reference
  | None => reference
  end.

Definition shiftAfterInsert (newSiNo : Z) (task : Task) : Task :=
  set_predecessorIds
    (match predecessorIds task with
     | Some ids =>
         if JS.truthy ids then
           if String.eqb ids "0" then Some "0"
           else Some (JS.join "," (shiftReference newSiNo <$> JS.split ids))
         else Some "0"
     | None => Some "0"
     end)
    (set_siNo (siNo task + 1) task).

Definition addTaskAfter (tasks : list Task) (afterTaskId newId : string) : list Task :=
  match JS.findIndex (hasId afterTaskId) tasks with
  | None => tasks
  | Some afterTaskIndex =>
      match tasks !! afterTaskIndex with
      | None => tasks
      | Some afterTask =>
          let newTask := newTaskAfter newId afterTask in
          let updatedTasksAfter :=
            shiftAfterInsert (siNo newTask) <$> drop (S afterTaskIndex) tasks in
          recompute isHoliday
            (take (S afterTaskIndex) tasks ++ [newTask] ++ updatedTasksAfter)
      end
  end.

Definition moveUp (tasks : list Task) (taskId : string) : list Task :=
  updateParentStatus (moveTaskUp tasks taskId).

Definition moveDown (tasks : list Task) (taskId : string) : list Task :=
  updateParentStatus (moveTaskDown tasks taskId).

End Propagation.

(** ** Sample tasks for the scenarios *)

(** A task with no dates, named after its id. *)
Definition sampleTask (i : string) (n : Z) (preds : option string) (lvl : Z) : Task :=
  mkTask i n (JS.String_ n) i preds lvl None None None None None None 0%Q false false.

(** A parent and its only child as the store holds them: the child runs
    from Monday 2025-01-06 to Friday 2025-01-10 at progress 40, and the
    parent carries what the passes derive from it (the progress pass
    writes 40 as 400 / 10). *)
Definition plannedChild : Task :=
  mkTask "c1" 2 "1.1" "c1" (Some "0") 1
         (Some (HolidayStore.ymd 2025 1 6)) (Some (HolidayStore.ymd 2025 1 10)) (Some 5)
         None None None 40%Q false false.
Definition plannedParent : Task :=
  mkTask "c" 1 "1" "c" (Some "0") 0
         (Some (HolidayStore.ymd 2025 1 6)) (Some (HolidayStore.ymd 2025 1 10)) (Some 5)
         None None None (400 # 10)%Q false true.

(** ** Notions of the specification *)

Section Calendar.

Variable isHoliday : Z -> bool.

(** The number of working days of the closed interval [lo .. hi]. *)
Definition workingDays (lo hi : Z) : Z :=
  durationLoop isHoliday (Z.to_nat (hi - lo + 1)) lo hi 0.

Definition working (d : Z) : Z := if isHoliday d then 0 else 1.

(** The calendar has working days arbitrarily late. *)
Definition workingDaysUnbounded : Prop :=
  forall x, exists y, x < y /\ isHoliday y = false.



End Calendar.

(** The ordinals of the tasks that are not deleted, in list order. *)
Definition liveSiNos (tasks : list Task) : list Z :=
  siNo <$> List.filter (fun t => negb (isDeleted t)) tasks.

(** The selected tasks are not a contiguous run of the visible tasks:
    a task that is not selected lies between two that are. *)
Definition selectionGap (visibleTasks : list Task) (selectedIds : gset string) : Prop :=
  exists (i j k : nat) (ti tj tk : Task),
    (i < j)%nat /\ (j < k)%nat
    /\ visibleTasks !! i = Some ti /\ visibleTasks !! j = Some tj
    /\ visibleTasks !! k = Some tk
    /\ id ti ∈ selectedIds /\ (id tj ∉ selectedIds) /\ id tk ∈ selectedIds.

(** The fields an aggregation pass never changes. *)
Definition shape (t : Task) : string * Z * string * bool * bool :=
  (id t, level t, wbsNo t, isDeleted t, isParent t).

(** What an aggregation pass makes of a task, given the final list. *)
Definition aggregated (guard : Task -> bool) (derive : list Task -> Task -> Task)
           (final : list Task) (p : Task) : Task :=
  if guard p then
    match liveChildren p final with
    | [] => p
    | children => derive children p
    end
  else p.

(** The fields the propagation to dependent tasks never changes. *)
Definition skeleton (t : Task) : string * Z * bool := (id t, level t, isDeleted t).

(** The task is complete: it has an actual end date and progress 100. *)
Definition completed (t : Task) : Prop :=
  progress t = 100%Q /\ is_Some (actualEndDate t).

(** The state of the propagation agrees with the list [base] it started
    from: every entry of [updatedTasks] refers to an object that has the
    skeleton of the task of [base] at that place, the object [stale] (the
    one the updated task replaced) is referred to no more, and every
    other object that has the id [target] is complete. *)
Definition propagationInv (base : list Task) (stale : nat) (target : string)
           (st : Propagation) : Prop :=
  length (updatedTasks st) = length base
  /\ (stale < length (objects st))%nat
  /\ (forall j r, updatedTasks st !! j = Some r ->
        r <> stale
        /\ exists o b, objects st !! r = Some o /\ base !! j = Some b
                       /\ skeleton o = skeleton b)
  /\ (forall r o, objects st !! r = Some o -> r <> stale ->
        (exists b, In b base /\ skeleton o = skeleton b)
        /\ (id o = target -> completed o)).



(** The search of [hasCycle] without its set [visited]. *)
Inductive cyclic (tasks : list Task) (taskSiNo : Z) : gset Z -> Z -> Prop :=
| cyclic_path path n : n ∈ path -> cyclic tasks taskSiNo path n
| cyclic_task path n : n = taskSiNo -> cyclic tasks taskSiNo path n
| cyclic_step path n p :
    n ∉ path -> n <> taskSiNo -> In p (storedPredecessors tasks n) ->
    cyclic tasks taskSiNo ({[n]} ∪ path) p -> cyclic tasks taskSiNo path n.

(** The ordinals the search has finished with start no search that
    finds a cycle, whatever the path (that avoids them). *)
Definition finished (tasks : list Task) (taskSiNo : Z) (fin : gset Z) : Prop :=
  forall m path, m ∈ fin -> path ## fin -> ~ cyclic tasks taskSiNo path m.






(** [p] is a predecessor named by the references: it is not deleted
    and its ordinal is one of them. *)
Definition isPredecessor (refs : list Z) (p : Task) : Prop :=
  isDeleted p = false /\ In (siNo p) refs.

(** [m] is the latest end date of the predecessors that have one. *)
Definition latestPredecessorEnd (tasks : list Task) (refs : list Z) (m : Z) : Prop :=
  (exists p, In p tasks /\ isPredecessor refs p /\ endDate p = Some m)
  /\ (forall p e, In p tasks -> isPredecessor refs p -> endDate p = Some e -> e <= m).

(** ** Validation of dates ([validateTaskDates], [lib/taskUtils.ts]) *)

Definition validateTaskDates (task : Task) (allTasks : list Task) : list string :=
  let errors :=
    match startDate task, endDate task with
    | Some s, Some e => if s >=? e then ["Start date must be before end date"] else []
    | _, _ => []
    end in
  if negb (blank (predecessorIds task)) then
    match startDate task with
    | Some s =>
        match getMaxPredecessorEndDate allTasks (default "" (predecessorIds task)) with
        | Some maxPredEndDate =>
            if s <=? maxPredEndDate
            then errors ++ ["Start date must be after all predecessor end dates"]
            else errors
        | None => errors
        end
    | None => errors
    end
  else errors.

(** ** Overlaps ([detectOverlaps], [lib/dateUtils.ts]) *)

(** [levelGroups], a [Map] from levels to arrays of tasks, in the order
    the levels were first met: the task is pushed on the array of its
    level. *)
Fixpoint pushToLevel (task : Task) (levelGroups : list (Z * list Task))
  : list (Z * list Task) :=
  match levelGroups with
  | [] => [(level task, [task])]
  | (l, group) :: rest =>
      if l =? level task then (l, group ++ [task]) :: rest
      else (l, group) :: pushToLevel task rest
  end.

Definition levelGroupsOf (tasks : list Task) : list (Z * list Task) :=
  foldl (fun levelGroups task => pushToLevel task levelGroups) [] tasks.

(** The test on a pair of tasks of a group. *)
Definition overlap (taskA taskB : Task) : bool :=
  match startDate taskA, endDate taskA, startDate taskB, endDate taskB with
  | Some sA, Some eA, Some sB, Some eB => (sA <? eB) && (sB <? eA)
  | _, _, _, _ => false
  end.

(** The errors of one group: each task against the tasks after it. *)
Fixpoint groupOverlaps (group : list Task) : list string :=
  match group with
  | [] => []
  | taskA :: rest =>
      ((fun taskB => "Overlap detected between " +:+ taskName taskA +:+ " and "
                     +:+ taskName taskB)
         <$> List.filter (overlap taskA) rest)
      ++ groupOverlaps rest
  end.

Definition detectOverlaps (tasks : list Task) : list string :=
  flat_map (fun entry => groupOverlaps (snd entry)) (levelGroupsOf tasks).

(** ** Schedule percentage ([calculateSchedulePercentage], [lib/taskUtils.ts])

    [today] is the current day; [None] is [NaN], which the division of
    zero by zero gives. *)
Definition calculateSchedulePercentage (today : Z) (startDate endDate : option Z)
  : option Z :=
  match startDate, endDate with
  | Some start, Some end_ =>
      if today <? start then Some 0
      else if end_ <? today then Some 100
      else
        let totalDuration := end_ - start in
        let elapsedDuration := today - start in
        if totalDuration =? 0 then None
        else Some (JS.round (inject_Z elapsedDuration / inject_Z totalDuration * 100)%Q)
  | _, _ => Some 0
  end.

(** ** The options of the work calendar ([store/holidayStore.ts]) *)

Module HolidayActions.
Import HolidayStore.

Definition toggleSundays (state : HolidayState) : HolidayState := {|
  excludeSundays := negb (excludeSundays state);
  excludeAllSaturdays := excludeAllSaturdays state;
  excludeEvenSaturdays := excludeEvenSaturdays state;
  excludeAutoplantHolidays := excludeAutoplantHolidays state;
  excludeOptionalHolidays := excludeOptionalHolidays state;
  autoplantHolidays := autoplantHolidays state
|}.

Definition toggleAllSaturdays (state : HolidayState) : HolidayState := {|
  excludeSundays := excludeSundays state;
  excludeAllSaturdays := negb (excludeAllSaturdays state);
  excludeEvenSaturdays :=
    if negb (excludeAllSaturdays state) then false else excludeEvenSaturdays state;
  excludeAutoplantHolidays := excludeAutoplantHolidays state;
  excludeOptionalHolidays := excludeOptionalHolidays state;
  autoplantHolidays := autoplantHolidays state
|}.

Definition toggleEvenSaturdays (state : HolidayState) : HolidayState := {|
  excludeSundays := excludeSundays state;
  excludeAllSaturdays :=
    if negb (excludeEvenSaturdays state) then false else excludeAllSaturdays state;
  excludeEvenSaturdays := negb (excludeEvenSaturdays state);
  excludeAutoplantHolidays := excludeAutoplantHolidays state;
  excludeOptionalHolidays := excludeOptionalHolidays state;
  autoplantHolidays := autoplantHolidays state
|}.

Definition toggleAutoplantHolidays (state : HolidayState) : HolidayState := {|
  excludeSundays := excludeSundays state;
  excludeAllSaturdays := excludeAllSaturdays state;
  excludeEvenSaturdays := excludeEvenSaturdays state;
  excludeAutoplantHolidays := negb (excludeAutoplantHolidays state);
  excludeOptionalHolidays :=
    if negb (excludeAutoplantHolidays state) then false else excludeOptionalHolidays state;
  autoplantHolidays := autoplantHolidays state
|}.

Definition toggleOptionalHolidays (state : HolidayState) : HolidayState := {|
  excludeSundays := excludeSundays state;
  excludeAllSaturdays := excludeAllSaturdays state;
  excludeEvenSaturdays := excludeEvenSaturdays state;
  excludeAutoplantHolidays := excludeAutoplantHolidays state;
  excludeOptionalHolidays := negb (excludeOptionalHolidays state);
  autoplantHolidays := autoplantHolidays state
|}.

Definition setHolidays (holidays : list AutoplantHoliday) (state : HolidayState)
  : HolidayState := {|
  excludeSundays := excludeSundays state;
  excludeAllSaturdays := excludeAllSaturdays state;
  excludeEvenSaturdays := excludeEvenSaturdays state;
  excludeAutoplantHolidays := excludeAutoplantHolidays state;
  excludeOptionalHolidays := excludeOptionalHolidays state;
  autoplantHolidays := holidays
|}.

(** The actions of the store that change the options or replace the
    list of holidays. *)
Inductive Action :=
| ToggleSundays
| ToggleAllSaturdays
| ToggleEvenSaturdays
| ToggleAutoplantHolidays
| ToggleOptionalHolidays
| SetHolidays (holidays : list AutoplantHoliday).

Definition run (state : HolidayState) (action : Action) : HolidayState :=
  match action with
  | ToggleSundays => toggleSundays state
  | ToggleAllSaturdays => toggleAllSaturdays state
  | ToggleEvenSaturdays => toggleEvenSaturdays state
  | ToggleAutoplantHolidays => toggleAutoplantHolidays state
  | ToggleOptionalHolidays => toggleOptionalHolidays state
  | SetHolidays holidays => setHolidays holidays state
  end.

End HolidayActions.

(** ** The state of the task store: history ([undo], [redo]) *)

Module Store.

Record TaskState := mkTaskState {
  tasks : list Task;
  selectedIds : gset string;
  isSelecting : bool;
  undoStack : list (list Task);
  redoStack : list (list Task);
  activeTaskId : option string
}.

(** [set({tasks: newTasks, undoStack: [...undoStack, tasks], redoStack: []})]. *)
Definition commit (newTasks : list Task) (state : TaskState) : TaskState :=
  mkTaskState newTasks (selectedIds state) (isSelecting state)
    (undoStack state ++ [tasks state]) [] (activeTaskId state).

Definition moveUp (state : TaskState) (taskId : string) : TaskState :=
  commit (moveUp (tasks state) taskId) state.

Definition moveDown (state : TaskState) (taskId : string) : TaskState :=
  commit (moveDown (tasks state) taskId) state.

Definition undo (state : TaskState) : TaskState :=
  match last (undoStack state) with
  | None => state
  | Some prevState =>
      mkTaskState prevState (selectedIds state) (isSelecting state)
        (JS.slice 0 (Z.of_nat (length (undoStack state)) - 1) (undoStack state))
        (tasks state :: redoStack state) (activeTaskId state)
  end.

Definition redo (state : TaskState) : TaskState :=
  match redoStack state with
  | [] => state
  | nextState :: _ =>
      mkTaskState nextState (selectedIds state) (isSelecting state)
        (undoStack state ++ [tasks state])
        (JS.sliceFrom 1 (redoStack state)) (activeTaskId state)
  end.

End Store.

(** [levelGroups.get(l)], the empty array standing for a level that has
    no entry. *)
Definition groupAt (l : Z) (levelGroups : list (Z * list Task)) : list Task :=
  default [] (snd <$> find (fun entry => fst entry =? l) levelGroups).

(** ** The critical path ([GanttService.calculateCriticalPath],
    [services/ganttService.ts]) *)

(** The step of the [reduce] that finds the predecessor ending latest;
    a missing end date counts as [new Date(0)]. *)
Definition laterOf (latest current : Task) : Task :=
  let latestDate := default 0 (endDate latest) in
  let currentDate := default 0 (endDate current) in
  if latestDate <? currentDate then current else latest.

(** The loop that traces back through the predecessors; it goes on as
    long as the current task has predecessors with an end date, so it is
    given fuel. *)
Fixpoint traceBack (fuel : nat) (tasks : list Task) (currentTask : Task)
         (criticalPath : list string) : option (list string) :=
  match fuel with
  | O => None
  | S fuel =>
      if negb (from_option JS.truthy false (predecessorIds currentTask))
      then Some criticalPath
      else
        let predecessorSiNos := JS.parseSiNos (default "" (predecessorIds currentTask)) in
        match predecessorSiNos with
        | [] => Some criticalPath
        | _ =>
            let predecessors :=
              List.filter (fun t => JS.includes (siNo t) predecessorSiNos
                                    && bool_decide (is_Some (endDate t))) tasks in
            match predecessors with
            | [] => Some criticalPath
            | first :: _ =>
                let latestPredecessor := foldl laterOf first predecessors in
                traceBack fuel tasks latestPredecessor
                          (criticalPath ++ [id latestPredecessor])
            end
        end
  end.

(** [now] is the day the comparison of the sort falls back on for a
    task without an end date. *)
Definition calculateCriticalPath (now : Z) (fuel : nat) (tasks : list Task)
  : option (list string) :=
  let sortedTasks :=
    JS.sort (fun a b => default now (endDate b) - default now (endDate a))
            (List.filter (fun t => bool_decide (is_Some (endDate t))) tasks) in
  match sortedTasks with
  | [] => Some []
  | first :: _ => traceBack fuel tasks first [id first]
  end.

(** Every task ends after the predecessors it names. *)
Definition endsAfterPredecessors (tasks : list Task) : Prop :=
  forall t p ids e e',
    In t tasks -> In p tasks ->
    predecessorIds t = Some ids -> In (siNo p) (JS.parseSiNos ids) ->
    endDate t = Some e -> endDate p = Some e' -> e' < e.

(** ** Running with enough fuel *)

(** [f] returns [a] whenever it is given enough fuel. *)
Definition converges {A : Type} (f : nat -> option A) (a : A) : Prop :=
  exists fuel, forall fuel', (fuel <= fuel')%nat -> f fuel' = Some a.

(** * Properties *)

Lemma converges_ret {A : Type} (a : A) : converges (fun _ => Some a) a.
Proof. by exists O. Qed.

Lemma converges_bind {A B : Type} (f : nat -> option A) (g : A -> nat -> option B) a b :
  converges f a -> converges (g a) b ->
  converges (fun fuel => x ← f fuel; g x fuel) b.
Proof.
  intros [n1 H1] [n2 H2]. exists (n1 `max` n2)%nat. intros fuel Hle.
  rewrite H1 by lia. simpl. apply H2. lia.
Qed.

Lemma converges_unique {A : Type} (f : nat -> option A) a b :
  converges f a -> converges f b -> a = b.
Proof.
  intros [n1 H1] [n2 H2].
  specialize (H1 (n1 `max` n2)%nat). specialize (H2 (n1 `max` n2)%nat).
  rewrite H1 in H2 by lia. by injection H2; [|lia].
Qed.

Lemma converges_ext {A : Type} (f g : nat -> option A) a :
  (forall fuel, f fuel = g fuel) -> converges f a -> converges g a.
Proof. intros Heq [n H]. exists n. intros fuel Hle. rewrite <- Heq. by apply H. Qed.

(** ** Date arithmetic *)

Section DateFacts.

Variable isHoliday : Z -> bool.

Local Abbreviation workingDays := (workingDays isHoliday).
Local Abbreviation working := (working isHoliday).
Local Abbreviation workingDaysUnbounded := (workingDaysUnbounded isHoliday).

Lemma durationLoop_acc fuel : forall cur e c,
  durationLoop isHoliday fuel cur e c = c + durationLoop isHoliday fuel cur e 0.
Proof.
  induction fuel as [|fuel IH]; intros cur e c; simpl; [lia|].
  destruct (cur <=? e); [|lia].
  rewrite IH, (IH _ _ (if isHoliday cur then 0 else 0 + 1)).
  destruct (isHoliday cur); lia.
Qed.

Lemma workingDays_empty lo hi : hi < lo -> workingDays lo hi = 0.
Proof.
  intros H. unfold workingDays.
  replace (Z.to_nat (hi - lo + 1)) with O by lia. reflexivity.
Qed.

Lemma workingDays_first lo hi :
  lo <= hi -> workingDays lo hi = working lo + workingDays (lo + 1) hi.
Proof.
  intros H. unfold workingDays, working.
  replace (Z.to_nat (hi - lo + 1)) with (S (Z.to_nat (hi - (lo + 1) + 1))) by lia.
  simpl. destruct (Z.leb_spec lo hi); [|lia].
  rewrite durationLoop_acc. destruct (isHoliday lo); lia.
Qed.

Lemma workingDays_last_aux (n : nat) : forall lo hi,
  Z.to_nat (hi + 1 - lo) = n -> lo <= hi + 1 ->
  workingDays lo (hi + 1) = workingDays lo hi + working (hi + 1).
Proof.
  induction n as [|n IH]; intros lo hi Hn Hle.
  - assert (lo = hi + 1) as -> by lia.
    rewrite workingDays_first by lia.
    rewrite !workingDays_empty by lia. lia.
  - rewrite (workingDays_first lo (hi + 1)) by lia.
    rewrite (workingDays_first lo hi) by lia.
    rewrite (IH (lo + 1) hi) by lia. lia.
Qed.

Lemma workingDays_last lo hi :
  lo <= hi + 1 -> workingDays lo (hi + 1) = workingDays lo hi + working (hi + 1).
Proof. intros H. by apply (workingDays_last_aux (Z.to_nat (hi + 1 - lo))). Qed.

Lemma endDateLoop_done fuel r a n : n <= a -> endDateLoop isHoliday fuel r a n = Some r.
Proof.
  intros H. destruct fuel; simpl; destruct (Z.ltb_spec a n); try lia; reflexivity.
Qed.

(** The loop of [calculateEndDate] keeps [daysAdded] equal to the number
    of working days passed since the start. *)
Lemma endDateLoop_spec fuel : forall s r a n e,
  s <= r -> a = workingDays (s + 1) r -> a <= n ->
  endDateLoop isHoliday fuel r a n = Some e ->
  r <= e /\ workingDays (s + 1) e = n.
Proof.
  induction fuel as [|fuel IH]; intros s r a n e Hsr Ha Han; simpl.
  - destruct (Z.ltb_spec a n); [discriminate|].
    intros [= <-]. split; lia.
  - destruct (Z.ltb_spec a n).
    + intros Hloop. apply (IH s) in Hloop.
      * split; [lia|]. tauto.
      * lia.
      * rewrite workingDays_last by lia. unfold working.
        destruct (isHoliday (r + 1)); lia.
      * destruct (isHoliday (r + 1)); lia.
    + intros [= <-]. split; lia.
Qed.

(** What [calculateDuration] gives on the result of [calculateEndDate]. *)
Lemma calculateDuration_calculateEndDate fuel s d e :
  2 <= d ->
  calculateEndDate isHoliday fuel s d true = Some e ->
  calculateDuration isHoliday s e true = working s + (d - 1).
Proof.
  intros Hd. unfold calculateEndDate, calculateDuration.
  destruct (Z.eqb_spec d 1); [lia|]. simpl.
  intros Hloop.
  apply (endDateLoop_spec fuel s) in Hloop as [Hse Hcount];
    [| lia | by rewrite workingDays_empty by lia | lia].
  destruct (Z.eqb_spec s e) as [->|Hne].
  - rewrite workingDays_empty in Hcount by lia. lia.
  - fold (workingDays s e). rewrite workingDays_first by lia. lia.
Qed.

Lemma endDateLoop_skip (k : nat) : forall r a n,
  a < n -> isHoliday (r + 1 + Z.of_nat k) = false ->
  exists f r', r < r' /\
    forall fuel, endDateLoop isHoliday (f + fuel) r a n
                 = endDateLoop isHoliday fuel r' (a + 1) n.
Proof.
  induction k as [|k IH]; intros r a n Han Hk.
  - exists 1%nat, (r + 1). split; [lia|]. intros fuel. simpl.
    destruct (Z.ltb_spec a n); [|lia].
    replace (r + 1 + Z.of_nat 0) with (r + 1) in Hk by lia. by rewrite Hk.
  - destruct (isHoliday (r + 1)) eqn:Hr.
    + destruct (IH (r + 1) a n) as (f & r' & Hlt & Hrun); [done| |].
      { rewrite <- Hk. f_equal. lia. }
      exists (S f), r'. split; [lia|]. intros fuel. simpl.
      destruct (Z.ltb_spec a n); [|lia]. rewrite Hr. apply Hrun.
    + exists 1%nat, (r + 1). split; [lia|]. intros fuel. simpl.
      destruct (Z.ltb_spec a n); [|lia]. by rewrite Hr.
Qed.

Lemma endDateLoop_total (Hcal : workingDaysUnbounded) (m : nat) : forall r a n,
  n - a <= Z.of_nat m ->
  exists f e, forall fuel, endDateLoop isHoliday (f + fuel) r a n = Some e.
Proof.
  induction m as [|m IH]; intros r a n Hm.
  - exists O, r. intros fuel. apply endDateLoop_done. lia.
  - destruct (Z.le_gt_cases n a) as [Hle|Hlt].
    + exists O, r. intros fuel. by apply endDateLoop_done.
    + destruct (Hcal r) as (y & Hy & Hwork).
      destruct (endDateLoop_skip (Z.to_nat (y - r - 1)) r a n) as (f1 & r' & _ & Hrun1);
        [lia | by rewrite <- Hwork; f_equal; lia |].
      destruct (IH r' (a + 1) n) as (f2 & e & Hrun2); [lia|].
      exists (f1 + f2)%nat, e. intros fuel.
      rewrite <- Nat.add_assoc, Hrun1. apply Hrun2.
Qed.

(** [calculateEndDate] returns, given enough fuel. *)
Lemma calculateEndDate_total (Hcal : workingDaysUnbounded) s d :
  exists fuel e, forall fuel', (fuel <= fuel')%nat ->
    calculateEndDate isHoliday fuel' s d true = Some e.
Proof.
  unfold calculateEndDate. destruct (Z.eqb_spec d 1).
  - exists O, s. done.
  - destruct (endDateLoop_total Hcal (Z.to_nat (d - 1)) s 0 (d - 1)) as (f & e & Hrun);
      [lia|].
    exists f, e. intros fuel' Hle. simpl.
    replace fuel' with (f + (fuel' - f))%nat by lia. apply Hrun.
Qed.

End DateFacts.

Lemma calculateEndDate_converges (isHoliday : Z -> bool) s d :
  workingDaysUnbounded isHoliday ->
  exists e, converges (fun fuel => calculateEndDate isHoliday fuel s d true) e.
Proof.
  intros Hcal. destruct (calculateEndDate_total isHoliday Hcal s d) as (fuel & e & H).
  exists e, fuel. exact H.
Qed.

Lemma weekends_unbounded :
  workingDaysUnbounded (HolidayStore.isHoliday HolidayStore.weekends).
Proof.
  intros x. unfold HolidayStore.isHoliday, HolidayStore.getDay. simpl.
  destruct (Z.eqb_spec ((x + 1 + 4) mod 7) 0) as [H0|H0].
  - exists (x + 2). split; [lia|].
    destruct (Z.eqb_spec ((x + 2 + 4) mod 7) 0); [exfalso; Z.div_mod_to_equations; lia|].
    destruct (Z.eqb_spec ((x + 2 + 4) mod 7) 6); [exfalso; Z.div_mod_to_equations; lia|].
    reflexivity.
  - destruct (Z.eqb_spec ((x + 1 + 4) mod 7) 6) as [H6|H6].
    + exists (x + 3). split; [lia|].
      destruct (Z.eqb_spec ((x + 3 + 4) mod 7) 0); [exfalso; Z.div_mod_to_equations; lia|].
      destruct (Z.eqb_spec ((x + 3 + 4) mod 7) 6); [exfalso; Z.div_mod_to_equations; lia|].
      reflexivity.
    + exists (x + 1). split; [lia|].
      destruct (Z.eqb_spec ((x + 1 + 4) mod 7) 0); [done|].
      destruct (Z.eqb_spec ((x + 1 + 4) mod 7) 6); done.
Qed.

(** C1, as stated, fails: under the calendar the store starts with,
    which excludes Sundays, a task that starts on Sunday 2025-01-05 with
    duration 2 ends on Monday 2025-01-06, and the duration computed back
    from these two dates is 1. *)
Lemma roundtrip_fails_from_holiday :
  let calendar := HolidayStore.isHoliday HolidayStore.initialState in
  let sunday := HolidayStore.ymd 2025 1 5 in
  let monday := HolidayStore.ymd 2025 1 6 in
  calendar sunday = true
  /\ calculateEndDate calendar 1 sunday 2 true = Some monday
  /\ calculateDuration calendar sunday monday true = 1
  /\ ~ (forall (isHoliday : Z -> bool) (fuel : nat) (s d e : Z),
          1 <= d -> calculateEndDate isHoliday fuel s d true = Some e ->
          calculateDuration isHoliday s e true = d).
Proof.
  repeat split; try reflexivity.
  intros H.
  specialize (H (HolidayStore.isHoliday HolidayStore.initialState) 1%nat
                (HolidayStore.ymd 2025 1 5) 2 (HolidayStore.ymd 2025 1 6)).
  discriminate H; [lia | reflexivity].
Qed.

(** C1 (amended): for every start date [s] that is a working day (or
    for duration 1) and every integer duration [d >= 1], under a fixed
    calendar that has working days arbitrarily late, [calculateEndDate]
    returns an end date and [calculateDuration] of the start and that
    end date is [d]. *)
Theorem roundtrip_from_working_day (isHoliday : Z -> bool) (s d : Z) :
  1 <= d ->
  d = 1 \/ isHoliday s = false ->
  workingDaysUnbounded isHoliday ->
  exists e, converges (fun fuel => calculateEndDate isHoliday fuel s d true) e
            /\ calculateDuration isHoliday s e true = d.
Proof.
  intros Hd Hs Hcal.
  destruct (calculateEndDate_converges isHoliday s d Hcal) as (e & Hconv).
  exists e. split; [done|].
  destruct Hconv as [fuel Hrun]. specialize (Hrun fuel (Nat.le_refl _)).
  destruct (Z.eq_dec d 1) as [->|Hne].
  - unfold calculateEndDate in Hrun. simpl in Hrun. injection Hrun as <-.
    unfold calculateDuration. by rewrite Z.eqb_refl.
  - destruct Hs as [?|Hs]; [done|].
    rewrite (calculateDuration_calculateEndDate isHoliday fuel s d e) by (done || lia).
    unfold working. rewrite Hs. lia.
Qed.

Lemma roundtrip_from_working_day_witness :
  let calendar := HolidayStore.isHoliday HolidayStore.weekends in
  let monday := HolidayStore.ymd 2025 1 6 in
  exists e, converges (fun fuel => calculateEndDate calendar fuel monday 5 true) e
            /\ calculateDuration calendar monday e true = 5.
Proof.
  apply roundtrip_from_working_day;
    [lia | right; reflexivity | exact weekends_unbounded].
Defined.

(** From a holiday the duration computed back is one short. *)
Lemma roundtrip_from_holiday (isHoliday : Z -> bool) (fuel : nat) (s d e : Z) :
  2 <= d -> isHoliday s = true ->
  calculateEndDate isHoliday fuel s d true = Some e ->
  calculateDuration isHoliday s e true = d - 1.
Proof.
  intros Hd Hs Hrun.
  rewrite (calculateDuration_calculateEndDate isHoliday fuel s d e) by done.
  unfold working. rewrite Hs. lia.
Qed.

(** ** The predecessor rule *)

Lemma includes_In n l : JS.includes n l = true <-> In n l.
Proof.
  unfold JS.includes. rewrite existsb_exists. split.
  - intros (x & Hin & Heq). apply Z.eqb_eq in Heq. by subst.
  - intros Hin. exists n. split; [done | apply Z.eqb_refl].
Qed.

Lemma maxList_ge d l : d <= maxList d l /\ forall x, In x l -> x <= maxList d l.
Proof.
  induction l as [|y l [IH1 IH2]]; simpl; [split; [lia | tauto]|].
  split; [lia|]. intros x [->|Hin]; [lia|]. specialize (IH2 x Hin). lia.
Qed.

Lemma maxList_In d l : maxList d l = d \/ In (maxList d l) l.
Proof.
  induction l as [|y l IH]; simpl; [by left|].
  destruct (Z.max_spec y (maxList d l)) as [[_ ->]|[_ ->]]; tauto.
Qed.

Lemma minList_le d l : minList d l <= d /\ forall x, In x l -> minList d l <= x.
Proof.
  induction l as [|y l [IH1 IH2]]; simpl; [split; [lia | tauto]|].
  split; [lia|]. intros x [->|Hin]; [lia|]. specialize (IH2 x Hin). lia.
Qed.

Lemma minList_In d l : minList d l = d \/ In (minList d l) l.
Proof.
  induction l as [|y l IH]; simpl; [by left|].
  destruct (Z.min_spec y (minList d l)) as [[_ ->]|[_ ->]]; tauto.
Qed.

Lemma In_omap {A B : Type} (f : A -> option B) (l : list A) (b : B) :
  In b (omap f l) <-> exists a, In a l /\ f a = Some b.
Proof.
  rewrite <- list_elem_of_In, list_elem_of_omap.
  split; intros (a & Ha & Hf); exists a; by rewrite ?list_elem_of_In in *.
Qed.

(** [getMaxPredecessorEndDate] finds the latest end date of the
    predecessors, and finds one exactly when some predecessor has one. *)
Lemma getMaxPredecessorEndDate_latest tasks ids m :
  JS.truthy (JS.trim ids) = true ->
  (getMaxPredecessorEndDate tasks ids = Some m
   <-> latestPredecessorEnd tasks (JS.parseSiNos ids) m).
Proof.
  intros Htext. unfold getMaxPredecessorEndDate. rewrite Htext. simpl.
  set (refs := JS.parseSiNos ids).
  set (preds := List.filter _ tasks).
  assert (Hpreds : forall e, In e (omap endDate preds)
            <-> exists p, In p tasks /\ isPredecessor refs p /\ endDate p = Some e).
  { intros e. rewrite In_omap. unfold preds, isPredecessor.
    split; intros (p & Hp & He); exists p.
    - apply filter_In in Hp as [Hin Hp].
      apply andb_true_iff in Hp as [Hp _]. apply andb_true_iff in Hp as [Hd Hi].
      apply negb_true_iff in Hd. apply includes_In in Hi. done.
    - destruct He as [[Hd Hi] He]. split; [|done].
      apply filter_In. split; [done|].
      rewrite Hd, He. simpl. rewrite andb_true_r. by apply includes_In. }
  unfold latestPredecessorEnd.
  destruct refs as [|r refs'] eqn:Hrefs.
  { split; [done|]. intros [(p & _ & [_ []] & _) _]. }
  rewrite <- Hrefs in *. clear Hrefs.
  destruct (omap endDate preds) as [|d ds] eqn:Hends.
  - split; [done|]. intros [(p & Hp) _].
    destruct (proj2 (Hpreds m)) as []. by exists p.
  - split.
    + intros [= <-]. split.
      * apply Hpreds. destruct (maxList_In d ds) as [->|Hin]; [by left | by right].
      * intros p e Hp Hpred He.
        assert (In e (d :: ds)) as [->|Hin] by (apply Hpreds; eauto).
        -- apply (proj1 (maxList_ge e ds)).
        -- by apply (proj2 (maxList_ge d ds)).
    + intros [(p & Hp) Hmax]. f_equal.
      assert (In m (d :: ds)) as Hm by (apply Hpreds; eauto).
      assert (maxList d ds <= m).
      { assert (In (maxList d ds) (d :: ds)) as Hin.
        { destruct (maxList_In d ds) as [->|Hin]; [by left | by right]. }
        apply Hpreds in Hin as (q & Hq & Hpred & He). eauto. }
      assert (m <= maxList d ds).
      { destruct Hm as [->|Hin];
          [apply (proj1 (maxList_ge m ds)) | by apply (proj2 (maxList_ge d ds))]. }
      lia.
Qed.

(** *** What [calculateEndDate] returns *)

Section EndDateFacts.

Variable isHoliday : Z -> bool.

(** When the loop of [calculateEndDate] has a day to add, it stops on a
    working day after the day it started from. *)
Lemma endDateLoop_working fuel : forall r a n e,
  a < n -> endDateLoop isHoliday fuel r a n = Some e ->
  r < e /\ isHoliday e = false.
Proof.
  induction fuel as [|fuel IH]; intros r a n e Han; simpl.
  - destruct (Z.ltb_spec a n); [discriminate|lia].
  - destruct (Z.ltb_spec a n); [|lia].
    destruct (isHoliday (r + 1)) eqn:Hr.
    + intros Hrun. apply IH in Hrun; [|done]. split; [lia|tauto].
    + destruct (Z.lt_ge_cases (a + 1) n) as [Hlt|Hge].
      * intros Hrun. apply IH in Hrun; [|done]. split; [lia|tauto].
      * rewrite endDateLoop_done by done. intros [= <-]. split; [lia|done].
Qed.

Lemma workingDays_nonneg lo hi : 0 <= workingDays isHoliday lo hi.
Proof.
  destruct (Z.lt_ge_cases hi lo) as [H|H].
  - rewrite workingDays_empty by done. lia.
  - remember (Z.to_nat (hi - lo)) as n eqn:Hn. revert lo H Hn.
    induction n as [|n IH]; intros lo H Hn.
    + rewrite workingDays_first by done. rewrite workingDays_empty by lia.
      unfold working. destruct (isHoliday lo); lia.
    + rewrite workingDays_first by done. specialize (IH (lo + 1)).
      unfold working. destruct (isHoliday lo); lia.
Qed.

Lemma workingDays_le_days lo hi : lo <= hi -> workingDays isHoliday lo hi <= hi - lo + 1.
Proof.
  intros H. remember (Z.to_nat (hi - lo)) as n eqn:Hn. revert lo H Hn.
  induction n as [|n IH]; intros lo H Hn.
  - rewrite workingDays_first by done. rewrite workingDays_empty by lia.
    unfold working. destruct (isHoliday lo); lia.
  - rewrite workingDays_first by done. specialize (IH (lo + 1)).
    unfold working. destruct (isHoliday lo); lia.
Qed.

(** The count of working days grows with the end of the interval, and
    strictly so up to a working day. *)
Lemma workingDays_mono lo hi hi' :
  lo <= hi + 1 -> hi <= hi' -> workingDays isHoliday lo hi <= workingDays isHoliday lo hi'.
Proof.
  intros Hlo Hle. remember (Z.to_nat (hi' - hi)) as n eqn:Hn. revert hi' Hle Hn.
  induction n as [|n IH]; intros hi' Hle Hn.
  - assert (hi' = hi) as -> by lia. lia.
  - replace hi' with (hi' - 1 + 1) by lia.
    rewrite workingDays_last by lia. specialize (IH (hi' - 1)).
    unfold working. destruct (isHoliday (hi' - 1 + 1)); lia.
Qed.

Lemma workingDays_strict lo hi hi' :
  lo <= hi + 1 -> hi < hi' -> isHoliday hi' = false ->
  workingDays isHoliday lo hi < workingDays isHoliday lo hi'.
Proof.
  intros Hlo Hlt Hw.
  pose proof (workingDays_mono lo hi (hi' - 1) Hlo ltac:(lia)) as Hm.
  replace hi' with (hi' - 1 + 1) by lia.
  rewrite workingDays_last by lia. unfold working.
  replace (hi' - 1 + 1) with hi' by lia. rewrite Hw. lia.
Qed.

(** What a run of [calculateEndDate] with holiday exclusion returns. *)
Lemma calculateEndDate_spec fuel s d e :
  calculateEndDate isHoliday fuel s d true = Some e ->
  (d <= 1 /\ e = s)
  \/ (2 <= d /\ s < e /\ isHoliday e = false /\ workingDays isHoliday (s + 1) e = d - 1).
Proof.
  unfold calculateEndDate. destruct (Z.eqb_spec d 1) as [->|Hne].
  - intros [= <-]. left. split; [lia|done].
  - simpl. destruct (Z.le_gt_cases d 1) as [Hle|Hgt].
    + rewrite endDateLoop_done by lia. intros [= <-]. left. split; [lia|done].
    + intros Hrun. right.
      pose proof Hrun as Hw. apply endDateLoop_working in Hw as [Hlt Hw]; [|lia].
      apply (endDateLoop_spec isHoliday fuel s) in Hrun as [_ Hcount];
        [| lia | by rewrite workingDays_empty by lia | lia].
      repeat split; (lia || done).
Qed.



End EndDateFacts.

Section PredecessorRuleFacts.

Variable isHoliday : Z -> bool.
Hypothesis calendar : workingDaysUnbounded isHoliday.

Lemma adjustPlanned_converges t :
  exists t', converges (fun fuel => adjustPlanned isHoliday fuel t) t'
    /\ startDate t' = startDate t /\ progress t' = progress t
    /\ actualStartDate t' = actualStartDate t /\ actualEndDate t' = actualEndDate t
    /\ actualDuration t' = actualDuration t.
Proof.
  unfold adjustPlanned. destruct (startDate t) as [s|] eqn:Hs.
  2: { exists t. split; [apply converges_ret | by rewrite Hs]. }
  destruct (calculateEndDate_converges isHoliday s (default 0 (duration t)) calendar)
    as (e & He).
  destruct (truthyNum (duration t) && negb (bool_decide (is_Some (endDate t)))).
  { exists (set_endDate (Some e) t). split; [|done].
    apply (converges_bind _ (fun e _ => Some (set_endDate (Some e) t)) e);
      [done | apply converges_ret]. }
  destruct (endDate t) as [e0|].
  2: { exists t. split; [apply converges_ret | by rewrite Hs]. }
  destruct (negb (truthyNum (duration t))).
  { eexists. split; [apply converges_ret | done]. }
  exists (set_endDate (Some e) t). split; [|done].
  apply (converges_bind _ (fun e _ => Some (set_endDate (Some e) t)) e);
    [done | apply converges_ret].
Qed.

Lemma adjustActual_converges t :
  exists t', converges (fun fuel => adjustActual isHoliday fuel t) t'
    /\ startDate t' = startDate t /\ endDate t' = endDate t
    /\ duration t' = duration t /\ progress t' = progress t.
Proof.
  unfold adjustActual. destruct (actualStartDate t) as [s|] eqn:Hs.
  2: { exists t. split; [apply converges_ret | done]. }
  destruct (calculateEndDate_converges isHoliday s (default 0 (actualDuration t)) calendar)
    as (e & He).
  destruct (truthyNum (actualDuration t) && negb (bool_decide (is_Some (actualEndDate t)))).
  { exists (set_actualEndDate (Some e) t). split; [|done].
    apply (converges_bind _ (fun e _ => Some (set_actualEndDate (Some e) t)) e);
      [done | apply converges_ret]. }
  destruct (actualEndDate t) as [e0|].
  - eexists. split; [apply converges_ret | done].
  - exists t. split; [apply converges_ret | done].
Qed.

(** [adjustDates] returns, and leaves the start date and the progress
    as they are. *)
Lemma adjustDates_converges t :
  exists t', converges (fun fuel => adjustDates isHoliday fuel t) t'
    /\ startDate t' = startDate t /\ progress t' = progress t.
Proof.
  destruct (adjustPlanned_converges t) as (t1 & H1 & Hs1 & Hp1 & _).
  destruct (adjustActual_converges t1) as (t2 & H2 & Hs2 & _ & _ & Hp2).
  exists t2. split; [|split; congruence].
  by apply (converges_bind _ (fun x fuel => adjustActual isHoliday fuel x) t1).
Qed.


Lemma settleActual_planned t :
  startDate (settleActual isHoliday t) = startDate t
  /\ endDate (settleActual isHoliday t) = endDate t
  /\ duration (settleActual isHoliday t) = duration t
  /\ actualEndDate (settleActual isHoliday t) = actualEndDate t.
Proof.
  unfold settleActual.
  destruct (actualStartDate t), (actualEndDate t) eqn:He; simpl; rewrite ?He; done.
Qed.

Lemma settleActual_progress t :
  progress (settleActual isHoliday t)
  = if bool_decide (is_Some (actualEndDate t)) then 100%Q else progress t.
Proof.
  unfold settleActual.
  destruct (actualStartDate t), (actualEndDate t) eqn:He; simpl; rewrite ?He; done.
Qed.

Lemma hasPredecessorText_true task ids :
  predecessorIds task = Some ids -> JS.truthy (JS.trim ids) = true -> ids <> "0" ->
  hasPredecessorText task = true.
Proof.
  intros Hids Htext Hne. unfold hasPredecessorText, blank. rewrite Hids, Htext. simpl.
  rewrite bool_decide_eq_false_2; [done | congruence].
Qed.

Lemma ruleApplies_Some task allTasks ids m :
  predecessorIds task = Some ids -> JS.truthy (JS.trim ids) = true ->
  latestPredecessorEnd allTasks (JS.parseSiNos ids) m ->
  ruleApplies task allTasks
  = match startDate task with
    | Some s => if s <=? m then Some m else None
    | None => Some m
    end.
Proof.
  intros Hids Htext Hm. unfold ruleApplies. rewrite Hids. simpl.
  by rewrite (proj2 (getMaxPredecessorEndDate_latest allTasks ids m Htext) Hm).
Qed.

(** On whole days the rounding up has nothing to round. *)
Lemma durationUntil_days s e : durationUntil s e = Z.max 1 (e - s + 1).
Proof.
  unfold durationUntil, getTime, JS.ceil. cbv zeta.
  replace (e * msPerDay - s * msPerDay) with ((e - s) * msPerDay) by lia.
  assert (Hq : (inject_Z ((e - s) * msPerDay) / inject_Z msPerDay == inject_Z (e - s))%Q).
  { rewrite inject_Z_mult. field. discriminate. }
  by rewrite Hq, Qceiling_Z.
Qed.

(** What the assignments of the rule leave in the planned fields. *)
Lemma pushStart_converges task m :
  exists t1, converges (fun fuel => pushStart isHoliday fuel task m) t1
    /\ startDate t1 = Some (m + 1)
    /\ actualEndDate t1 = actualEndDate task
    /\ match duration task with
       | Some d =>
           if 0 <? d then
             duration t1 = Some d
             /\ exists e, converges (fun fuel => calculateEndDate isHoliday fuel (m + 1) d true) e
                          /\ endDate t1 = Some e
           else
             match endDate task with
             | Some e0 => duration t1 = Some (Z.max 1 (e0 - (m + 1) + 1)) /\ endDate t1 = Some e0
             | None => duration t1 = Some 1 /\ endDate t1 = Some (m + 1)
             end
       | None =>
           match endDate task with
           | Some e0 => duration t1 = Some (Z.max 1 (e0 - (m + 1) + 1)) /\ endDate t1 = Some e0
           | None => duration t1 = Some 1 /\ endDate t1 = Some (m + 1)
           end
       end.
Proof.
  unfold pushStart. destruct (duration task) as [d|] eqn:Hd.
  - destruct (Z.ltb_spec 0 d).
    + destruct (calculateEndDate_converges isHoliday (m + 1) d calendar) as (e & He).
      eexists. split.
      * apply (converges_bind _ (fun e _ => Some _) e); [done | apply converges_ret].
      * simpl. eauto 10.
    + simpl. destruct (endDate task) eqn:He; (eexists; split; [apply converges_ret|]);
        simpl; rewrite ?He, ?durationUntil_days; done.
  - simpl. destruct (endDate task) eqn:He; (eexists; split; [apply converges_ret|]);
      simpl; rewrite ?He, ?durationUntil_days; done.
Qed.

End PredecessorRuleFacts.

Section PredecessorRuleTheorems.

Variable isHoliday : Z -> bool.
Hypothesis calendar : workingDaysUnbounded isHoliday.

Lemma mutate_applies task allTasks m t1 :
  hasPredecessorText task = true ->
  ruleApplies task allTasks = Some m ->
  converges (fun fuel => pushStart isHoliday fuel task m) t1 ->
  converges (fun fuel => mutateWithPredecessors isHoliday fuel task allTasks)
            (settleActual isHoliday t1).
Proof.
  intros Htext Hrule Hpush. unfold mutateWithPredecessors. rewrite Htext, Hrule. simpl.
  apply (converges_bind _ (fun t _ => Some (settleActual isHoliday t)) t1);
    [done | apply converges_ret].
Qed.

Lemma mutate_not_applies task allTasks :
  hasPredecessorText task = true ->
  ruleApplies task allTasks = None ->
  converges (fun fuel => mutateWithPredecessors isHoliday fuel task allTasks)
            (settleActual isHoliday task).
Proof.
  intros Htext Hrule. unfold mutateWithPredecessors. rewrite Htext, Hrule. simpl.
  apply converges_ret.
Qed.

Lemma adjust_after_mutate task allTasks t1 t' :
  converges (fun fuel => mutateWithPredecessors isHoliday fuel task allTasks) t1 ->
  converges (fun fuel => adjustDates isHoliday fuel t1) t' ->
  converges (fun fuel => adjustTaskDatesWithPredecessors isHoliday fuel task allTasks) t'.
Proof.
  intros H1 H2. unfold adjustTaskDatesWithPredecessors.
  by apply (converges_bind _ (fun t fuel => adjustDates isHoliday fuel t) t1).
Qed.

(** C2 (amended): for a task whose predecessor text is neither blank nor
    the sentinel and whose predecessors have a latest end date [m],
    [adjustTaskDatesWithPredecessors] returns a task whose start date is
    the calendar day after [m] (whether or not that day is a working
    day) when the start was unset or not later than [m], and whose start
    date is unchanged when it was already later than [m]. *)
Theorem predecessor_rule_start task allTasks ids m :
  predecessorIds task = Some ids -> JS.truthy (JS.trim ids) = true -> ids <> "0" ->
  latestPredecessorEnd allTasks (JS.parseSiNos ids) m ->
  exists t',
    converges (fun fuel => adjustTaskDatesWithPredecessors isHoliday fuel task allTasks) t'
    /\ startDate t' = match startDate task with
                      | Some s => if s <=? m then Some (m + 1) else Some s
                      | None => Some (m + 1)
                      end.
Proof.
  intros Hids Htext Hne Hm.
  pose proof (hasPredecessorText_true task ids Hids Htext Hne) as Hhas.
  pose proof (ruleApplies_Some task allTasks ids m Hids Htext Hm) as Hrule.
  assert (Hpushed : ruleApplies task allTasks = Some m ->
            exists t', converges
              (fun fuel => adjustTaskDatesWithPredecessors isHoliday fuel task allTasks) t'
              /\ startDate t' = Some (m + 1)).
  { intros Happ.
    destruct (pushStart_converges isHoliday calendar task m) as (t1 & Ht1 & Hs1 & _).
    destruct (adjustDates_converges isHoliday calendar (settleActual isHoliday t1))
      as (t' & Ht' & Hs' & _).
    exists t'. split.
    - eapply adjust_after_mutate; [by apply (mutate_applies task allTasks m) | done].
    - rewrite Hs'. by rewrite (proj1 (settleActual_planned isHoliday t1)). }
  destruct (startDate task) as [s|] eqn:Hs; [destruct (s <=? m)|]; try by apply Hpushed.
  destruct (adjustDates_converges isHoliday calendar (settleActual isHoliday task))
    as (t' & Ht' & Hs' & _).
  exists t'. split.
  - eapply adjust_after_mutate; [by apply mutate_not_applies | done].
  - rewrite Hs'. by rewrite (proj1 (settleActual_planned isHoliday task)).
Qed.


(** The second half of C10 (amended): on a task whose predecessor text
    is neither blank nor the sentinel and that has an actual end date,
    [adjustTaskDatesWithPredecessors] returns a task of progress 100. *)
Lemma adjust_sets_progress task allTasks :
  hasPredecessorText task = true -> is_Some (actualEndDate task) ->
  exists t',
    converges (fun fuel => adjustTaskDatesWithPredecessors isHoliday fuel task allTasks) t'
    /\ progress t' = 100%Q.
Proof.
  intros Hhas Hend.
  assert (Hfrom : forall t1,
            converges (fun fuel => mutateWithPredecessors isHoliday fuel task allTasks)
                      (settleActual isHoliday t1) ->
            actualEndDate t1 = actualEndDate task ->
            exists t', converges
              (fun fuel => adjustTaskDatesWithPredecessors isHoliday fuel task allTasks) t'
              /\ progress t' = 100%Q).
  { intros t1 Hmut Hsame.
    destruct (adjustDates_converges isHoliday calendar (settleActual isHoliday t1))
      as (t' & Ht' & _ & Hp').
    exists t'. split; [by eapply adjust_after_mutate|].
    rewrite Hp', settleActual_progress, Hsame. by rewrite bool_decide_eq_true_2. }
  destruct (ruleApplies task allTasks) as [m|] eqn:Hrule.
  - destruct (pushStart_converges isHoliday calendar task m) as (t1 & Ht1 & _ & Ha1 & _).
    apply (Hfrom t1); [by apply (mutate_applies task allTasks m) | done].
  - apply (Hfrom task); [by apply mutate_not_applies | done].
Qed.

End PredecessorRuleTheorems.

(** C2, as stated, fails: under the calendar the store starts with, a
    task that depends on a task ending on Saturday 2025-01-04 gets
    Sunday 2025-01-05 as its start, which is a holiday; one working day
    after that Saturday is Monday 2025-01-06. *)
Lemma predecessor_rule_start_on_holiday :
  let calendar := HolidayStore.isHoliday HolidayStore.initialState in
  let saturday := HolidayStore.ymd 2025 1 4 in
  let sunday := HolidayStore.ymd 2025 1 5 in
  let monday := HolidayStore.ymd 2025 1 6 in
  let first := set_endDate (Some saturday) (sampleTask "a" 1 (Some "0") 0) in
  let second := sampleTask "b" 2 (Some "1") 0 in
  getMaxPredecessorEndDate [first; second] "1" = Some saturday
  /\ startDate <$> adjustTaskDatesWithPredecessors calendar 2 second [first; second]
     = Some (Some sunday)
  /\ calendar sunday = true
  /\ calculateEndDate calendar 2 saturday 2 true = Some monday.
Proof. repeat split; reflexivity. Qed.

Lemma predecessor_rule_start_witness :
  let calendar := HolidayStore.isHoliday HolidayStore.weekends in
  let friday := HolidayStore.ymd 2025 1 3 in
  let first := set_endDate (Some friday) (sampleTask "a" 1 (Some "0") 0) in
  let second := sampleTask "b" 2 (Some "1") 0 in
  exists t',
    converges (fun fuel => adjustTaskDatesWithPredecessors calendar fuel second [first; second]) t'
    /\ startDate t' = Some (friday + 1).
Proof.
  apply (predecessor_rule_start _ weekends_unbounded
           (sampleTask "b" 2 (Some "1") 0) _ "1" (HolidayStore.ymd 2025 1 3));
    [reflexivity | reflexivity | discriminate |].
  apply getMaxPredecessorEndDate_latest; reflexivity.
Defined.



(** ** Renumbering *)

(** C3 (the code departs from it): after every operation of the store
    the ordinals of the tasks that are not deleted should be 1..N.  From
    three level 0 tasks with ordinals 1, 2, 3, [deleteTask] of the first
    leaves the two live tasks with the ordinals 1 and 2; [moveUp] of the
    last one then numbers every task of the list by its position, the
    deleted one too, and the two live tasks end with the ordinals 2 and
    3. *)
Lemma liveSiNos_after_delete_and_move :
  let calendar := HolidayStore.isHoliday HolidayStore.initialState in
  let tasks := [sampleTask "a" 1 (Some "0") 0; sampleTask "b" 2 (Some "0") 0;
                sampleTask "c" 3 (Some "0") 0] in
  let afterDelete := deleteTask calendar tasks "a" in
  liveSiNos afterDelete = [1; 2]
  /\ moveUp afterDelete "c"
     = [set_isDeleted true (sampleTask "a" 1 (Some "0") 0);
        set_wbsNo "1" (set_predecessorIds None (set_siNo 2 (sampleTask "c" 3 (Some "0") 0)));
        set_wbsNo "2" (set_predecessorIds None (set_siNo 3 (sampleTask "b" 2 (Some "0") 0)))]
  /\ liveSiNos (moveUp afterDelete "c") = [2; 3].
Proof. repeat split; vm_compute; reflexivity. Qed.

Section DeleteSecondOfThree.

Variables t1 t2 t3 : Task.
Hypothesis siNo1 : siNo t1 = 1.
Hypothesis siNo2 : siNo t2 = 2.
Hypothesis siNo3 : siNo t3 = 3.
Hypothesis live1 : isDeleted t1 = false.
Hypothesis live3 : isDeleted t3 = false.

Lemma sorted_three :
  JS.sort (fun a b => siNo a - siNo b) [t1; t2; t3] = [t1; t2; t3].
Proof. simpl. rewrite siNo2, siNo3. simpl. rewrite siNo1, siNo2. reflexivity. Qed.

(** What becomes of one reference: 1 stays, 3 becomes 2, and everything
    else (the deleted 2, an ordinal of no task, text that is no number)
    is dropped. *)
Lemma renumberReference_three reference :
  renumberReference [t1; t2; t3] [2] reference
  = match JS.parseInt (JS.trim reference) with
    | Some 1 => "1"
    | Some 3 => "2"
    | _ => ""
    end.
Proof.
  unfold renumberReference.
  destruct (JS.parseInt (JS.trim reference)) as [n|]; [|done].
  unfold JS.includes. cbn -[Z.eqb Z.ltb]. rewrite siNo1, siNo2, siNo3.
  destruct (Z.eqb_spec n 2) as [->|H2]; [done|]. cbn -[Z.eqb Z.ltb].
  destruct (Z.eqb_spec 1 n) as [<-|H1]; [by rewrite live1|].
  destruct (Z.eqb_spec 2 n) as [<-|_]; [done|].
  destruct (Z.eqb_spec 3 n) as [<-|H3]; [by rewrite live3|].
  destruct n as [|[p|p|]|]; try done. destruct p as [p|p|]; try done.
Qed.

Lemma renumberPredecessors_three ids :
  renumberPredecessors [t1; t2; t3] [2] ids
  = match ids with
    | Some text =>
        if JS.truthy text then
          let updated :=
            JS.join "," (List.filter JS.truthy
              ((fun reference =>
                  match JS.parseInt (JS.trim reference) with
                  | Some 1 => "1"
                  | Some 3 => "2"
                  | _ => ""
                  end) <$> JS.split text)) in
          if JS.truthy updated then Some updated else None
        else ids
    | None => None
    end.
Proof.
  unfold renumberPredecessors. destruct ids as [text|]; [|done].
  destruct (JS.truthy text); [|done].
  assert (renumberReference [t1; t2; t3] [2] <$> JS.split text
          = (fun reference =>
               match JS.parseInt (JS.trim reference) with
               | Some 1 => "1"
               | Some 3 => "2"
               | _ => ""
               end) <$> JS.split text) as ->; [|done].
  apply list_fmap_ext. intros _ reference _. apply renumberReference_three.
Qed.

Lemma updateSiNumbersAfterDeletion_three :
  updateSiNumbersAfterDeletion [t1; t2; t3] [2]
  = [set_predecessorIds (renumberPredecessors [t1; t2; t3] [2] (predecessorIds t1))
       (set_siNo 1 t1);
     t2;
     set_predecessorIds (renumberPredecessors [t1; t2; t3] [2] (predecessorIds t3))
       (set_siNo 2 t3)].
Proof.
  unfold updateSiNumbersAfterDeletion. rewrite sorted_three. simpl.
  unfold JS.includes. simpl. rewrite siNo1, siNo2, siNo3, live1, live3. simpl.
  by rewrite orb_true_r.
Qed.

End DeleteSecondOfThree.

(** C4: for three level 0 tasks with the ordinals 1, 2, 3, the first and
    the third not deleted, [updateSiNumbersAfterDeletion] with the
    deleted ordinals [2] leaves the second task as it is and gives the
    two survivors the ordinals 1 and 2 in their order; in the predecessor
    text of a survivor a reference to 1 stays, a reference to 3 becomes
    2 and a reference to the deleted 2 is dropped (as is every reference
    that names no task): the text "3" becomes "2", the text "2,3"
    becomes "2" and the text "2" becomes [null]. *)
Theorem delete_second_of_three (t1 t2 t3 : Task) :
  siNo t1 = 1 -> siNo t2 = 2 -> siNo t3 = 3 ->
  level t1 = 0 -> level t2 = 0 -> level t3 = 0 ->
  isDeleted t1 = false -> isDeleted t3 = false ->
  exists t1' t3',
    updateSiNumbersAfterDeletion [t1; t2; t3] [2] = [t1'; t2; t3']
    /\ (id t1' = id t1 /\ siNo t1' = 1 /\ isDeleted t1' = false)
    /\ (id t3' = id t3 /\ siNo t3' = 2 /\ isDeleted t3' = false)
    /\ (forall t t', (t = t1 /\ t' = t1') \/ (t = t3 /\ t' = t3') ->
          predecessorIds t' = renumberPredecessors [t1; t2; t3] [2] (predecessorIds t)
          /\ (predecessorIds t = Some "3" -> predecessorIds t' = Some "2")
          /\ (predecessorIds t = Some "2,3" -> predecessorIds t' = Some "2")
          /\ (predecessorIds t = Some "1,3" -> predecessorIds t' = Some "1,2")
          /\ (predecessorIds t = Some "2" -> predecessorIds t' = None))
    /\ (forall reference,
          renumberReference [t1; t2; t3] [2] reference
          = match JS.parseInt (JS.trim reference) with
            | Some 1 => "1"
            | Some 3 => "2"
            | _ => ""
            end).
Proof.
  intros H1 H2 H3 _ _ _ Hl1 Hl3.
  eexists _, _. split; [by apply updateSiNumbersAfterDeletion_three|].
  split; [done|]. split; [done|]. split.
  - assert (Hcases : forall ids : option string,
              let ids' := renumberPredecessors [t1; t2; t3] [2] ids in
              (ids = Some "3" -> ids' = Some "2")
              /\ (ids = Some "2,3" -> ids' = Some "2")
              /\ (ids = Some "1,3" -> ids' = Some "1,2")
              /\ (ids = Some "2" -> ids' = None)).
    { intros ids ids'. subst ids'. rewrite renumberPredecessors_three by done.
      repeat split; intros ->; reflexivity. }
    intros t t' [[-> ->]|[-> ->]]; simpl; (split; [done | apply Hcases]).
  - intros reference. by apply renumberReference_three.
Qed.

Lemma delete_second_of_three_witness :
  let t1 := sampleTask "a" 1 (Some "3") 0 in
  let t2 := sampleTask "b" 2 (Some "0") 0 in
  let t3 := sampleTask "c" 3 (Some "2") 0 in
  exists t1' t3',
    updateSiNumbersAfterDeletion [t1; t2; t3] [2] = [t1'; t2; t3']
    /\ (id t1' = id t1 /\ siNo t1' = 1 /\ isDeleted t1' = false)
    /\ (id t3' = id t3 /\ siNo t3' = 2 /\ isDeleted t3' = false)
    /\ (forall t t', (t = t1 /\ t' = t1') \/ (t = t3 /\ t' = t3') ->
          predecessorIds t' = renumberPredecessors [t1; t2; t3] [2] (predecessorIds t)
          /\ (predecessorIds t = Some "3" -> predecessorIds t' = Some "2")
          /\ (predecessorIds t = Some "2,3" -> predecessorIds t' = Some "2")
          /\ (predecessorIds t = Some "1,3" -> predecessorIds t' = Some "1,2")
          /\ (predecessorIds t = Some "2" -> predecessorIds t' = None))
    /\ (forall reference,
          renumberReference [t1; t2; t3] [2] reference
          = match JS.parseInt (JS.trim reference) with
            | Some 1 => "1"
            | Some 3 => "2"
            | _ => ""
            end).
Proof.
  apply (delete_second_of_three (sampleTask "a" 1 (Some "3") 0)
           (sampleTask "b" 2 (Some "0") 0) (sampleTask "c" 3 (Some "2") 0));
    reflexivity.
Defined.

(** ** Arrays *)

Section ArrayFacts.

Context {A : Type}.

Lemma findIndex_Some (p : A -> bool) (l : list A) (i : nat) :
  JS.findIndex p l = Some i ->
  exists x, l !! i = Some x /\ p x = true
            /\ forall j y, (j < i)%nat -> l !! j = Some y -> p y = false.
Proof.
  revert i. induction l as [|a l IH]; intros i; simpl; [done|].
  destruct (p a) eqn:Hp.
  - intros [= <-]. exists a. split; [done|]. split; [done|]. intros j y Hj. lia.
  - destruct (JS.findIndex p l) as [i'|]; [|done]. simpl. intros [= <-].
    destruct (IH i' eq_refl) as (x & Hx & Hpx & Hbefore).
    exists x. split; [done|]. split; [done|].
    intros [|j] y Hj; simpl; [by intros [= <-] | intros Hy; apply (Hbefore j); [lia|done]].
Qed.

Lemma findIndex_None (p : A -> bool) (l : list A) :
  JS.findIndex p l = None -> forall x, In x l -> p x = false.
Proof.
  induction l as [|a l IH]; simpl; [done|].
  destruct (p a) eqn:Hp; [done|].
  destruct (JS.findIndex p l); [done|]. intros _ x [<-|Hin]; [done | by apply IH].
Qed.

Lemma findIndex_first (p : A -> bool) (l : list A) (i : nat) (x : A) :
  l !! i = Some x -> p x = true ->
  (forall j y, (j < i)%nat -> l !! j = Some y -> p y = false) ->
  JS.findIndex p l = Some i.
Proof.
  revert i. induction l as [|a l IH]; intros [|i]; simpl; try done.
  - by intros [= ->] ->.
  - intros Hx Hp Hbefore. rewrite (Hbefore O a) by (done || lia).
    rewrite (IH i); [done | done | done |].
    intros j y Hj Hy. apply (Hbefore (S j) y); [lia | done].
Qed.

Lemma In_insertBy (cmp : A -> A -> Z) (x y : A) (l : list A) :
  In y (JS.insertBy cmp x l) <-> y = x \/ In y l.
Proof.
  induction l as [|a l IH]; simpl; [intuition|].
  destruct (cmp x a <=? 0); simpl; [intuition | rewrite IH; intuition].
Qed.

Lemma In_sort (cmp : A -> A -> Z) (y : A) (l : list A) :
  In y (JS.sort cmp l) <-> In y l.
Proof.
  induction l as [|a l IH]; simpl; [done|].
  rewrite In_insertBy, IH. intuition.
Qed.

End ArrayFacts.

(** With distinct ids, [findIndex] by the id of a task finds its place. *)
Lemma findIndex_hasId (tasks : list Task) (i : nat) (t : Task) :
  NoDup (id <$> tasks) -> tasks !! i = Some t ->
  JS.findIndex (hasId (id t)) tasks = Some i.
Proof.
  intros Hnd Ht. apply (findIndex_first _ _ _ t); [done | apply String.eqb_refl |].
  intros j y Hj Hy. unfold hasId. apply String.eqb_neq. intros Heq.
  assert (j = i); [|lia].
  apply (NoDup_lookup (id <$> tasks) j i (id t)); [done | |];
    rewrite list_lookup_fmap; [by rewrite Hy, <- Heq | by rewrite Ht].
Qed.

Lemma NoDup_ids_filter (p : Task -> bool) (tasks : list Task) :
  NoDup (id <$> tasks) -> NoDup (id <$> List.filter p tasks).
Proof.
  induction tasks as [|t tasks IH]; simpl; [done|].
  rewrite NoDup_cons. intros [Hnotin Hnd].
  destruct (p t); simpl; [|by apply IH].
  apply NoDup_cons. split; [|by apply IH].
  intros Hin. apply Hnotin.
  apply list_elem_of_fmap in Hin as (y & -> & Hy).
  apply list_elem_of_fmap. exists y. split; [done|].
  apply list_elem_of_In. apply list_elem_of_In in Hy. by apply filter_In in Hy as [? _].
Qed.

(** ** Indent and outdent *)

Lemma contiguous_interval (l : list Z) :
  contiguous l = true ->
  forall x y z, In x l -> In y l -> x < z < y -> In z l.
Proof.
  induction l as [|a l IH]; [done|].
  destruct l as [|b l].
  { intros _ x y z [<-|[]] [<-|[]]. lia. }
  intros Hc. apply andb_true_iff in Hc as [Hb Hc]. apply Z.eqb_eq in Hb.
  assert (Hlow : forall x, In x (b :: l) -> b <= x).
  { clear -Hc. revert b Hc. induction l as [|c l IHl]; intros b Hc x.
    - intros [<-|[]]. lia.
    - apply andb_true_iff in Hc as [Hcb Hc]. apply Z.eqb_eq in Hcb.
      intros [<-|Hin]; [lia|]. specialize (IHl c Hc x Hin). lia. }
  intros x y z Hx Hy Hz.
  destruct (Z.eq_dec z a) as [->|Hza]; [by left|]. right.
  destruct Hy as [<-|Hy].
  - destruct Hx as [<-|Hx]; [lia|]. specialize (Hlow x Hx). lia.
  - destruct Hx as [<-|Hx].
    + destruct (Z.eq_dec z b) as [->|Hzb]; [by left|].
      apply (IH Hc b y z); [by left | done | lia].
    + by apply (IH Hc x y z).
Qed.

Section Selection.

Variable tasks : list Task.
Variable selectedIds : gset string.

Local Abbreviation visibleTasks := (List.filter (fun t => negb (isDeleted t)) tasks).
Local Abbreviation selectedTasks :=
  (List.filter (fun t => bool_decide (id t ∈ selectedIds)) visibleTasks).

Lemma selection_not_empty t : id t ∈ selectedIds -> size selectedIds <> 0%nat.
Proof.
  intros Hin Hsize. apply size_empty_iff in Hsize. set_solver.
Qed.

Lemma selectedTasks_lookup i t :
  visibleTasks !! i = Some t -> id t ∈ selectedIds -> In t selectedTasks.
Proof.
  intros Ht Hsel. apply filter_In. split.
  - apply list_elem_of_In. by apply list_elem_of_lookup_2 in Ht.
  - by apply bool_decide_eq_true_2.
Qed.

(** An index among the selected indices is the place of a selected task. *)
Lemma selectedIndices_selected (z : Z) :
  In z (selectedIndicesOf visibleTasks selectedTasks) ->
  exists t, visibleTasks !! Z.to_nat z = Some t /\ id t ∈ selectedIds /\ 0 <= z.
Proof.
  unfold selectedIndicesOf. rewrite In_sort.
  rewrite <- list_elem_of_In, list_elem_of_fmap. intros (t & -> & Ht).
  apply list_elem_of_In, filter_In in Ht as [Hvis Hsel].
  apply bool_decide_eq_true_1 in Hsel.
  destruct (JS.findIndex (hasId (id t)) visibleTasks) as [i|] eqn:Hi.
  - apply findIndex_Some in Hi as (x & Hx & Hid & _).
    apply String.eqb_eq in Hid. exists x. simpl. rewrite Nat2Z.id.
    split; [done|]. split; [by rewrite Hid | lia].
  - apply (findIndex_None _ _ Hi) in Hvis. unfold hasId in Hvis.
    by rewrite String.eqb_refl in Hvis.
Qed.

(** With distinct ids the place of every selected task is among them. *)
Lemma selectedIndices_place i t :
  NoDup (id <$> tasks) ->
  visibleTasks !! i = Some t -> id t ∈ selectedIds ->
  In (Z.of_nat i) (selectedIndicesOf visibleTasks selectedTasks).
Proof.
  intros Hnd Ht Hsel. unfold selectedIndicesOf. rewrite In_sort.
  rewrite <- list_elem_of_In, list_elem_of_fmap. exists t. split.
  - by rewrite (findIndex_hasId visibleTasks i t) by (by apply NoDup_ids_filter || done).
  - apply list_elem_of_In. by apply (selectedTasks_lookup i).
Qed.

Lemma first_selected_index t rest :
  visibleTasks = t :: rest -> id t ∈ selectedIds ->
  JS.includes 0 (selectedIndicesOf visibleTasks selectedTasks) = true.
Proof.
  intros Hvis Hsel. apply includes_In. unfold selectedIndicesOf. rewrite In_sort.
  rewrite <- list_elem_of_In, list_elem_of_fmap. exists t. split.
  - rewrite Hvis. simpl. unfold hasId. by rewrite String.eqb_refl.
  - apply list_elem_of_In. apply (selectedTasks_lookup O); [by rewrite Hvis | done].
Qed.

Lemma gap_not_contiguous :
  NoDup (id <$> tasks) -> selectionGap visibleTasks selectedIds ->
  contiguous (selectedIndicesOf visibleTasks selectedTasks) = false.
Proof.
  intros Hnd (i & j & k & ti & tj & tk & Hij & Hjk & Hi & Hj & Hk & Hsi & Hsj & Hsk).
  apply not_true_is_false. intros Hc.
  assert (In (Z.of_nat j) (selectedIndicesOf visibleTasks selectedTasks)) as Hin.
  { apply (contiguous_interval _ Hc (Z.of_nat i) (Z.of_nat k));
      [by apply (selectedIndices_place i ti) | by apply (selectedIndices_place k tk) | lia]. }
  apply selectedIndices_selected in Hin as (t & Ht & Hsel & _).
  rewrite Nat2Z.id, Hj in Ht. by injection Ht as <-.
Qed.

End Selection.

(** C8: [updateTaskLevelsForIndent] throws when the first task that is
    not deleted is selected, and (ids being distinct) when the selected
    tasks leave a gap; [updateTaskLevelsForOutdent] throws when a
    selected task is at level 0 (levels being non-negative) and when the
    selected tasks leave a gap.  A call that throws returns no list: no
    level is changed. *)
Theorem indent_outdent_reject (tasks : list Task) (selectedIds : gset string) :
  let visibleTasks := List.filter (fun t => negb (isDeleted t)) tasks in
  (forall t rest, visibleTasks = t :: rest -> id t ∈ selectedIds ->
     updateTaskLevelsForIndent tasks selectedIds
     = Throw "Cannot indent the first task (no parent available)")
  /\ (NoDup (id <$> tasks) -> selectionGap visibleTasks selectedIds ->
      exists message, updateTaskLevelsForIndent tasks selectedIds = Throw message)
  /\ ((forall t, In t tasks -> 0 <= level t) ->
      forall t, In t visibleTasks -> id t ∈ selectedIds -> level t = 0 ->
        updateTaskLevelsForOutdent tasks selectedIds
        = Throw "Cannot outdent tasks at root level")
  /\ (NoDup (id <$> tasks) -> selectionGap visibleTasks selectedIds ->
      exists message, updateTaskLevelsForOutdent tasks selectedIds = Throw message).
Proof.
  intros visibleTasks. repeat split.
  - intros t rest Hvis Hsel. unfold updateTaskLevelsForIndent.
    destruct (decide (size selectedIds = 0%nat)) as [Hsize|_];
      [by apply (selection_not_empty selectedIds t) in Hsize|].
    by rewrite (first_selected_index tasks selectedIds t rest).
  - intros Hnd Hgap. unfold updateTaskLevelsForIndent.
    destruct (decide (size selectedIds = 0%nat)) as [Hsize|_].
    { destruct Hgap as (_ & _ & _ & ti & _ & _ & _ & _ & _ & _ & _ & Hsi & _).
      by apply (selection_not_empty selectedIds ti) in Hsize. }
    destruct (JS.includes 0 _); [by eexists|].
    rewrite (gap_not_contiguous tasks selectedIds Hnd Hgap). by eexists.
  - intros Hlevels t Hvis Hsel Hlevel. unfold updateTaskLevelsForOutdent.
    destruct (decide (size selectedIds = 0%nat)) as [Hsize|_];
      [by apply (selection_not_empty selectedIds t) in Hsize|].
    set (selected := List.filter _ _).
    assert (In 0 (level <$> selected)) as Hin.
    { apply list_elem_of_In, list_elem_of_fmap. exists t. split; [done|].
      apply list_elem_of_In, filter_In. split; [done | by apply bool_decide_eq_true_2]. }
    assert (forall l, In l (level <$> selected) -> 0 <= l) as Hnonneg.
    { intros l Hl. apply list_elem_of_In, list_elem_of_fmap in Hl as (y & -> & Hy).
      apply Hlevels. apply list_elem_of_In, filter_In in Hy as [Hy _].
      by apply filter_In in Hy as [Hy _]. }
    destruct (level <$> selected) as [|l ls]; [done|].
    assert (minList l ls = 0) as ->; [|done].
    pose proof (minList_le l ls) as [Hmin1 Hmin2].
    assert (0 <= minList l ls).
    { destruct (minList_In l ls) as [->|Hm]; apply Hnonneg; [by left | by right]. }
    destruct Hin as [->|Hin]; [lia|]. specialize (Hmin2 0 Hin). lia.
  - intros Hnd Hgap. unfold updateTaskLevelsForOutdent.
    destruct (decide (size selectedIds = 0%nat)) as [Hsize|_].
    { destruct Hgap as (_ & _ & _ & ti & _ & _ & _ & _ & _ & _ & _ & Hsi & _).
      by apply (selection_not_empty selectedIds ti) in Hsize. }
    match goal with |- context [if ?b then Throw _ else _] => destruct b end; [by eexists|].
    rewrite (gap_not_contiguous tasks selectedIds Hnd Hgap). by eexists.
Qed.

Lemma indent_outdent_reject_witness :
  let tasks := [sampleTask "a" 1 (Some "0") 0; sampleTask "b" 2 (Some "0") 0;
                sampleTask "c" 3 (Some "0") 0] in
  let selectedIds : gset string := {["a"; "c"]} in
  updateTaskLevelsForIndent tasks selectedIds
  = Throw "Cannot indent the first task (no parent available)"
  /\ (exists message, updateTaskLevelsForIndent tasks selectedIds = Throw message)
  /\ updateTaskLevelsForOutdent tasks selectedIds
     = Throw "Cannot outdent tasks at root level"
  /\ (exists message, updateTaskLevelsForOutdent tasks selectedIds = Throw message).
Proof.
  pose (tasks := [sampleTask "a" 1 (Some "0") 0; sampleTask "b" 2 (Some "0") 0;
                  sampleTask "c" 3 (Some "0") 0]).
  pose (selectedIds := ({["a"; "c"]} : gset string)).
  assert (Hgap : selectionGap (List.filter (fun t => negb (isDeleted t)) tasks) selectedIds).
  { exists 0%nat, 1%nat, 2%nat, (sampleTask "a" 1 (Some "0") 0),
      (sampleTask "b" 2 (Some "0") 0), (sampleTask "c" 3 (Some "0") 0).
    repeat split; try lia; vm_compute; try reflexivity; intros H; discriminate H. }
  assert (Hnd : NoDup (id <$> tasks)).
  { apply (bool_decide_unpack _). vm_compute. reflexivity. }
  destruct (indent_outdent_reject tasks selectedIds) as (H1 & H2 & H3 & H4).
  split; [|split; [|split]].
  - apply (H1 (sampleTask "a" 1 (Some "0") 0)
              [sampleTask "b" 2 (Some "0") 0; sampleTask "c" 3 (Some "0") 0]);
      [reflexivity | vm_compute; reflexivity].
  - exact (H2 Hnd Hgap).
  - apply (H3 (fun t Hin => ltac:(simpl in Hin; intuition (subst; simpl; lia)))
              (sampleTask "a" 1 (Some "0") 0));
      [simpl; tauto | vm_compute; reflexivity | reflexivity].
  - exact (H4 Hnd Hgap).
Defined.

(** ** Bottom-up aggregation *)

Lemma insertBy_Permutation {A : Type} (cmp : A -> A -> Z) (x : A) (l : list A) :
  JS.insertBy cmp x l ≡ₚ x :: l.
Proof.
  induction l as [|a l IH]; simpl; [done|].
  destruct (cmp x a <=? 0); [done|]. rewrite IH. apply Permutation_swap.
Qed.

Lemma sort_Permutation {A : Type} (cmp : A -> A -> Z) (l : list A) :
  JS.sort cmp l ≡ₚ l.
Proof.
  induction l as [|a l IH]; simpl; [done|].
  by rewrite insertBy_Permutation, IH.
Qed.

(** Sorting by [b.level - a.level] puts the deeper tasks first. *)
Lemma sort_by_level_sorted (l : list Task) :
  StronglySorted (fun a b => level b <= level a)
                 (JS.sort (fun a b => level b - level a) l).
Proof.
  induction l as [|x l IH]; simpl; [constructor|].
  set (sorted := JS.sort _ l) in *. clearbody sorted.
  induction IH as [|y r Hr IHr Hy]; simpl; [repeat constructor|].
  destruct (Z.leb_spec (level y - level x) 0).
  - constructor; [by constructor|].
    constructor; [lia|].
    rewrite Forall_forall in Hy |- *. intros z Hz. specialize (Hy z Hz). simpl in *. lia.
  - constructor; [done|].
    rewrite Forall_forall in Hy |- *. intros z Hz.
    apply list_elem_of_In, In_insertBy in Hz as [->|Hz]; [lia|].
    apply Hy. by apply list_elem_of_In.
Qed.

Lemma filter_insert_irrelevant {A : Type} (P : A -> bool) (l : list A) (i : nat) (x x' : A) :
  l !! i = Some x -> P x = false -> P x' = false ->
  List.filter P (<[i := x']> l) = List.filter P l.
Proof.
  revert i. induction l as [|a l IH]; intros [|i]; simpl; try done.
  - intros [= ->] -> ->. done.
  - intros Hx Hp Hp'. by rewrite (IH i).
Qed.

Lemma liveChildren_insert (p x x' : Task) (S : list Task) (i : nat) :
  S !! i = Some x -> shape x' = shape x -> level x <> level p + 1 ->
  liveChildren p (<[i := x']> S) = liveChildren p S.
Proof.
  intros Hx Hshape Hlevel. unfold liveChildren, findDirectChildren.
  rewrite (filter_insert_irrelevant _ S i x x'); [done | done | |].
  - destruct (Z.eqb_spec (level x) (level p + 1)); [done|].
    by rewrite andb_false_r.
  - injection Hshape as _ Hl _ _ _.
    destruct (Z.eqb_spec (level x') (level p + 1)); [congruence|].
    by rewrite andb_false_r.
Qed.

Lemma NoDup_ids_lookup (tasks : list Task) (i j : nat) (p q : Task) :
  NoDup (id <$> tasks) -> tasks !! i = Some p -> tasks !! j = Some q -> id p = id q -> i = j.
Proof.
  intros Hnd Hp Hq Heq.
  apply (NoDup_lookup (id <$> tasks) i j (id p)); [done | |];
    rewrite list_lookup_fmap; [by rewrite Hp | by rewrite Hq, Heq].
Qed.

Lemma NoDup_ids_NoDup (tasks : list Task) : NoDup (id <$> tasks) -> NoDup tasks.
Proof. apply NoDup_fmap_1. Qed.

Section Aggregation.

Variable guard : Task -> bool.
Variable derive : list Task -> Task -> Task.
Hypothesis derive_shape : forall children t, shape (derive children t) = shape t.

Variable tasks : list Task.
Hypothesis distinct : NoDup (id <$> tasks).

Local Abbreviation step :=
  (fun (updatedTasks : list Task) (task : Task) =>
     if guard task then aggregate derive updatedTasks task else updatedTasks).

Lemma ids_of_shapes (S : list Task) :
  shape <$> S = shape <$> tasks -> id <$> S = id <$> tasks.
Proof.
  intros H. apply (f_equal (fmap (fun s : string * Z * string * bool * bool => s.1.1.1.1))) in H.
  by rewrite <- !list_fmap_compose in H.
Qed.

Lemma aggregate_at (S : list Task) (i : nat) (p : Task) :
  shape <$> S = shape <$> tasks -> S !! i = Some p ->
  step S p = <[i := aggregated guard derive S p]> S.
Proof.
  intros Hshape Hp. unfold aggregated, aggregate.
  assert (S = <[i := p]> S) as Hid by (by rewrite list_insert_id).
  destruct (guard p); [|done].
  destruct (liveChildren p S) as [|c ch]; [done|].
  unfold updateById.
  rewrite (findIndex_hasId S i p); [by rewrite Hp | | done].
  by rewrite (ids_of_shapes S Hshape).
Qed.

Lemma aggregated_shape (S : list Task) (p : Task) :
  shape (aggregated guard derive S p) = shape p.
Proof.
  unfold aggregated. destruct (guard p); [|done].
  destruct (liveChildren p S); [done | apply derive_shape].
Qed.

(** Replacing a task that is not one level below [q] leaves what the
    pass makes of [q] as it is. *)
Lemma aggregated_insert (S : list Task) (i : nat) (x x' q : Task) :
  S !! i = Some x -> shape x' = shape x -> level x <> level q + 1 ->
  aggregated guard derive (<[i := x']> S) q = aggregated guard derive S q.
Proof.
  intros Hx Hshape Hlevel. unfold aggregated.
  by rewrite (liveChildren_insert q x x' S i).
Qed.

Lemma fold_aggregate (W2 : list Task) : forall (W1 S : list Task),
  StronglySorted (fun a b => level b <= level a) (W1 ++ W2) ->
  NoDup (W1 ++ W2) ->
  (forall t, In t (W1 ++ W2) -> In t tasks) ->
  shape <$> S = shape <$> tasks ->
  (forall i p, tasks !! i = Some p -> ~ In p W1 -> S !! i = Some p) ->
  (forall i p, tasks !! i = Some p -> In p W1 ->
     S !! i = Some (aggregated guard derive S p)) ->
  let final := foldl step S W2 in
  shape <$> final = shape <$> tasks
  /\ (forall i p, tasks !! i = Some p -> ~ In p (W1 ++ W2) -> final !! i = Some p)
  /\ (forall i p, tasks !! i = Some p -> In p (W1 ++ W2) ->
        final !! i = Some (aggregated guard derive final p)).
Proof.
  induction W2 as [|p W2 IH]; intros W1 S Hsorted Hnd Hin Hshape Hold Hnew; simpl.
  { rewrite app_nil_r in *. done. }
  assert (In p tasks) as Hp by (apply Hin, in_or_app; right; by left).
  apply list_elem_of_In, list_elem_of_lookup in Hp as [i Hi].
  assert (~ In p W1) as HpW1.
  { intros HpW1. apply NoDup_app in Hnd as (_ & Hdisj & _).
    apply (Hdisj p); [by apply list_elem_of_In | left]. }
  assert (S !! i = Some p) as HSi by by apply Hold.
  rewrite (aggregate_at S i p Hshape HSi).
  set (p' := aggregated guard derive S p).
  assert (shape p' = shape p) as Hp' by apply aggregated_shape.
  assert (Hbelow : forall q, In q W1 \/ In q [p] -> level p <> level q + 1).
  { intros q [Hq|[<-|[]]]; [|lia].
    assert (level p <= level q); [|lia].
    clear -Hsorted Hq. induction W1 as [|a W1 IHW]; [done|].
    simpl in Hsorted. apply StronglySorted_inv in Hsorted as [Hs Hall].
    destruct Hq as [->|Hq]; [|by apply IHW].
    rewrite Forall_forall in Hall. apply Hall.
    apply list_elem_of_In, in_or_app. right. by left. }
  specialize (IH (W1 ++ [p]) (<[i := p']> S)).
  rewrite <- !app_assoc in IH. simpl in IH. apply IH; clear IH; try done.
  - rewrite list_fmap_insert, Hp'.
    rewrite list_insert_id; [done|]. by rewrite list_lookup_fmap, HSi.
  - intros j q Hj Hq. rewrite list_lookup_insert_ne.
    + apply Hold; [done|]. intros ?. apply Hq, in_or_app. by left.
    + intros <-. rewrite Hi in Hj. injection Hj as <-.
      apply Hq, in_or_app. right. by left.
  - intros j q Hj Hq. apply in_app_or in Hq.
    rewrite (aggregated_insert S i p p' q) by (done || by apply Hbelow).
    destruct Hq as [Hq|[<-|[]]].
    + rewrite list_lookup_insert_ne; [by apply Hnew|].
      intros <-. rewrite Hi in Hj. by injection Hj as <-.
    + assert (i = j) as <- by by apply (NoDup_ids_lookup tasks i j p p).
      rewrite list_lookup_insert_eq; [done|]. by apply lookup_lt_Some in HSi.
Qed.

(** An aggregation pass over the tasks that satisfy [selected], deepest
    first: every selected task becomes what [derive] makes of it and of
    its children in the final list, every other task is left alone. *)
Lemma aggregation_pass (selected : Task -> bool) :
  let final :=
    foldl step tasks
      (JS.sort (fun a b => level b - level a) (List.filter selected tasks)) in
  shape <$> final = shape <$> tasks
  /\ forall i p, tasks !! i = Some p ->
       final !! i = Some (if selected p then aggregated guard derive final p else p).
Proof.
  intros final.
  destruct (fold_aggregate
              (JS.sort (fun a b => level b - level a) (List.filter selected tasks))
              [] tasks) as (Hshape & Hout & Hin); try done.
  - apply sort_by_level_sorted.
  - simpl. rewrite sort_Permutation.
    apply NoDup_ListNoDup, List.NoDup_filter, NoDup_ListNoDup. by apply NoDup_ids_NoDup.
  - simpl. intros t Ht. apply In_sort, filter_In in Ht. tauto.
  - split; [done|]. intros i p Hp.
    destruct (selected p) eqn:Hsel.
    + apply Hin; [done|]. simpl. apply In_sort, filter_In. split; [|done].
      apply list_elem_of_In. by apply list_elem_of_lookup_2 in Hp.
    + apply Hout; [done|]. simpl. intros Hp'. apply In_sort, filter_In in Hp' as [_ Hp'].
      congruence.
Qed.

End Aggregation.

Lemma updateParentProgress_pass (tasks : list Task) :
  NoDup (id <$> tasks) ->
  let final := updateParentProgress tasks in
  shape <$> final = shape <$> tasks
  /\ forall i p, tasks !! i = Some p ->
       final !! i
       = Some (if negb (isDeleted p) && isParent p
               then aggregated (fun _ => true)
                      (fun children => set_progress (averageProgress children)) final p
               else p).
Proof.
  intros Hnd.
  exact (aggregation_pass (fun _ => true)
           (fun children => set_progress (averageProgress children))
           (fun _ _ => eq_refl) tasks Hnd
           (fun t => negb (isDeleted t) && isParent t)).
Qed.

Lemma updateParentDates_pass (isHoliday : Z -> bool) (tasks : list Task) :
  NoDup (id <$> tasks) ->
  let final := updateParentDates isHoliday tasks in
  shape <$> final = shape <$> tasks
  /\ forall i p, tasks !! i = Some p ->
       final !! i
       = Some (if negb (isDeleted p)
               then aggregated isParent (deriveDates isHoliday) final p
               else p).
Proof.
  intros Hnd.
  exact (aggregation_pass isParent (deriveDates isHoliday)
           (fun _ _ => eq_refl) tasks Hnd (fun t => negb (isDeleted t))).
Qed.

(** C5 (the code departs from it): a parent with children that are not
    deleted should get the mean of their progress.  On a parent with
    children of progress 40 and 80 that are labelled below it,
    [updateParentProgress] sets 60.  But the pass finds the children of
    a parent by the label, and the store runs it before
    [updateWbsNumbers] has relabelled the list.  [addTaskAfter] behind
    the parent of [plannedChild] puts the new task between the two:
    [updateParentStatus] flags the new task as the parent of the child,
    the new task is labelled "2" and the child still "1.1", so the pass
    that is handed this list finds no child and changes nothing.  The
    store ends with the new task flagged as a parent at progress 0 above
    a child of progress 40, relabelled "2" and "2.1"; the same passes
    run once more set 40. *)
Lemma parent_progress_after_insert :
  let calendar := HolidayStore.isHoliday HolidayStore.initialState in
  let tasks := [plannedParent; plannedChild] in
  let newTask := mkTask "n" 2 "2" "<task2>" (Some "0") 0 None None (Some 0)
                        None None None 0%Q false true in
  let handed := [set_isParent false plannedParent; newTask; set_siNo 3 plannedChild] in
  progress <$> updateParentProgress
                 [set_isParent true (sampleTask "p" 1 (Some "0") 0);
                  set_wbsNo "1.1" (set_progress 40%Q (sampleTask "a" 2 (Some "0") 1));
                  set_wbsNo "1.2" (set_progress 80%Q (sampleTask "b" 3 (Some "0") 1))]
  = [600 # 10; 40; 80]%Q
  /\ recompute calendar tasks = tasks
  /\ updateParentDates calendar
       (updateParentStatus
          (take 1 tasks ++ [newTaskAfter "n" plannedParent]
           ++ (shiftAfterInsert 2 <$> drop 1 tasks))) = handed
  /\ updateParentProgress handed = handed
  /\ addTaskAfter calendar tasks "c" "n"
     = [set_isParent false plannedParent; newTask;
        set_wbsNo "2.1" (set_siNo 3 plannedChild)]
  /\ progress <$> recompute calendar (addTaskAfter calendar tasks "c" "n")
     = [400 # 10; 400 # 10; 40]%Q.
Proof. repeat split; vm_compute; reflexivity. Qed.

(** C6 (the code departs from it): a parent with a child that has a
    planned start should get the earliest planned start and the latest
    planned end of its children.  [updateParentDates] finds the children
    of a parent by the label, like [updateParentProgress], and the store
    runs it before [updateWbsNumbers] has relabelled the list.
    [addTaskAfter] behind the parent of [plannedChild] puts the new task
    between the two: [updateParentStatus] flags the new task as the
    parent of the child, which runs from Monday to Friday, but the new
    task is labelled "2" and the child still "1.1", so the pass that is
    handed this list finds no child and changes nothing.  The store ends
    with the new task flagged as a parent without dates above its dated
    child, relabelled "2" and "2.1"; the same passes run once more set
    Monday and Friday. *)
Lemma parent_dates_after_insert :
  let calendar := HolidayStore.isHoliday HolidayStore.initialState in
  let tasks := [plannedParent; plannedChild] in
  let newTask := mkTask "n" 2 "2" "<task2>" (Some "0") 0 None None (Some 0)
                        None None None 0%Q false true in
  let handed := [set_isParent false plannedParent; newTask; set_siNo 3 plannedChild] in
  recompute calendar tasks = tasks
  /\ updateParentStatus
       (take 1 tasks ++ [newTaskAfter "n" plannedParent]
        ++ (shiftAfterInsert 2 <$> drop 1 tasks)) = handed
  /\ updateParentDates calendar handed = handed
  /\ addTaskAfter calendar tasks "c" "n"
     = [set_isParent false plannedParent; newTask;
        set_wbsNo "2.1" (set_siNo 3 plannedChild)]
  /\ recompute calendar (addTaskAfter calendar tasks "c" "n")
     = [set_isParent false plannedParent;
        set_progress (400 # 10)%Q
          (set_duration (Some 5)
             (set_endDate (Some (HolidayStore.ymd 2025 1 10))
                (set_startDate (Some (HolidayStore.ymd 2025 1 6)) newTask)));
        set_wbsNo "2.1" (set_siNo 3 plannedChild)].
Proof. repeat split; vm_compute; reflexivity. Qed.

(** ** Propagation to dependent tasks *)

Section PropagationFacts.

Variable isHoliday : Z -> bool.
Hypothesis calendar : workingDaysUnbounded isHoliday.

Lemma adjustPlanned_keeps t :
  exists t', converges (fun fuel => adjustPlanned isHoliday fuel t) t'
    /\ skeleton t' = skeleton t /\ progress t' = progress t
    /\ actualStartDate t' = actualStartDate t /\ actualEndDate t' = actualEndDate t
    /\ actualDuration t' = actualDuration t.
Proof.
  unfold adjustPlanned. destruct (startDate t) as [s|] eqn:Hs.
  2: { exists t. split; [apply converges_ret | done]. }
  destruct (calculateEndDate_converges isHoliday s (default 0 (duration t)) calendar)
    as (e & He).
  destruct (truthyNum (duration t) && negb (bool_decide (is_Some (endDate t)))).
  { exists (set_endDate (Some e) t). split; [|done].
    apply (converges_bind _ (fun e _ => Some (set_endDate (Some e) t)) e);
      [done | apply converges_ret]. }
  destruct (endDate t) as [e0|].
  2: { exists t. split; [apply converges_ret | done]. }
  destruct (negb (truthyNum (duration t))).
  { eexists. split; [apply converges_ret | done]. }
  exists (set_endDate (Some e) t). split; [|done].
  apply (converges_bind _ (fun e _ => Some (set_endDate (Some e) t)) e);
    [done | apply converges_ret].
Qed.

Lemma adjustActual_keeps t :
  exists t', converges (fun fuel => adjustActual isHoliday fuel t) t'
    /\ skeleton t' = skeleton t /\ progress t' = progress t
    /\ (is_Some (actualEndDate t) -> is_Some (actualEndDate t')).
Proof.
  unfold adjustActual. destruct (actualStartDate t) as [s|] eqn:Hs.
  2: { exists t. split; [apply converges_ret | done]. }
  destruct (calculateEndDate_converges isHoliday s (default 0 (actualDuration t)) calendar)
    as (e & He).
  destruct (truthyNum (actualDuration t) && negb (bool_decide (is_Some (actualEndDate t)))).
  { exists (set_actualEndDate (Some e) t). split; [|simpl; eauto].
    apply (converges_bind _ (fun e _ => Some (set_actualEndDate (Some e) t)) e);
      [done | apply converges_ret]. }
  destruct (actualEndDate t) as [e0|] eqn:He0.
  - eexists. split; [apply converges_ret|]. simpl. by rewrite He0.
  - exists t. split; [apply converges_ret | done].
Qed.

Lemma adjustDates_keeps t :
  exists t', converges (fun fuel => adjustDates isHoliday fuel t) t'
    /\ skeleton t' = skeleton t /\ (completed t -> completed t').
Proof.
  destruct (adjustPlanned_keeps t) as (t1 & H1 & Hk1 & Hp1 & _ & He1 & _).
  destruct (adjustActual_keeps t1) as (t2 & H2 & Hk2 & Hp2 & He2).
  exists t2. split; [|split; [congruence|]].
  - by apply (converges_bind _ (fun x fuel => adjustActual isHoliday fuel x) t1).
  - intros [Hp He]. split; [congruence|]. apply He2. by rewrite He1.
Qed.

Lemma pushStart_keeps task m :
  exists t1, converges (fun fuel => pushStart isHoliday fuel task m) t1
    /\ skeleton t1 = skeleton task /\ actualEndDate t1 = actualEndDate task
    /\ progress t1 = progress task.
Proof.
  unfold pushStart.
  destruct (calculateEndDate_converges isHoliday (m + 1) (default 0 (duration task)) calendar)
    as (e & He).
  destruct (duration task) as [d|]; [destruct (0 <? d)|].
  - exists (set_duration (Some d)
              (set_endDate (Some e) (set_startDate (Some (m + 1)) task))).
    split; [|done].
    apply (converges_bind _
             (fun e _ => Some (set_duration (Some d)
                (set_endDate (Some e) (set_startDate (Some (m + 1)) task)))) e);
      [done | apply converges_ret].
  - simpl. destruct (endDate task); (eexists; split; [apply converges_ret | done]).
  - simpl. destruct (endDate task); (eexists; split; [apply converges_ret | done]).
Qed.

Lemma settleActual_keeps t :
  skeleton (settleActual isHoliday t) = skeleton t
  /\ (completed t -> completed (settleActual isHoliday t)).
Proof.
  unfold settleActual, completed.
  destruct (actualStartDate t), (actualEndDate t) eqn:He; simpl; rewrite ?He; simpl;
    (split; [done|]); intros [Hp Hs]; try done; by destruct Hs.
Qed.

Lemma mutate_keeps task allTasks :
  exists t', converges (fun fuel => mutateWithPredecessors isHoliday fuel task allTasks) t'
    /\ skeleton t' = skeleton task /\ (completed task -> completed t').
Proof.
  unfold mutateWithPredecessors.
  destruct (negb (hasPredecessorText task)).
  { exists task. split; [apply converges_ret | done]. }
  destruct (ruleApplies task allTasks) as [m|].
  - destruct (pushStart_keeps task m) as (t1 & Ht1 & Hk1 & He1 & Hp1).
    pose proof (settleActual_keeps t1) as [Hk2 Hc2].
    exists (settleActual isHoliday t1). split; [|split; [congruence|]].
    + apply (converges_bind _ (fun t _ => Some (settleActual isHoliday t)) t1);
        [done | apply converges_ret].
    + intros [Hp He]. apply Hc2. split; [congruence | by rewrite He1].
  - pose proof (settleActual_keeps task) as [Hk2 Hc2].
    exists (settleActual isHoliday task). split; [apply converges_ret | done].
Qed.

End PropagationFacts.

Lemma deref_lookup (objs : list Task) (refs : list nat) :
  (forall j r, refs !! j = Some r -> is_Some (objs !! r)) ->
  forall j, deref objs refs !! j = refs !! j ≫= (fun r => objs !! r).
Proof.
  unfold deref. induction refs as [|r refs IH]; intros Hvalid j; [done|].
  simpl. destruct (Hvalid O r eq_refl) as [o Ho]. rewrite Ho.
  destruct j as [|j]; simpl; [done|].
  apply IH. intros j' r' Hr'. by apply (Hvalid (S j')).
Qed.

Section Propagating.

Variable isHoliday : Z -> bool.
Hypothesis calendar : workingDaysUnbounded isHoliday.

Variable base : list Task.
Variable stale : nat.
Variable target : string.
Hypothesis base_distinct : NoDup (id <$> base).

Local Abbreviation Inv := (propagationInv base stale target).
Local Abbreviation ids := (list_to_set (id <$> base) : gset string).

Lemma inv_valid st :
  Inv st -> forall j r, updatedTasks st !! j = Some r -> is_Some (objects st !! r).
Proof.
  intros (_ & _ & Hrefs & _) j r Hr.
  destruct (Hrefs j r Hr) as (_ & o & _ & Ho & _). by exists o.
Qed.

Lemma inv_deref st j x :
  Inv st -> deref (objects st) (updatedTasks st) !! j = Some x ->
  exists r b, updatedTasks st !! j = Some r /\ r <> stale /\ objects st !! r = Some x
              /\ base !! j = Some b /\ skeleton x = skeleton b.
Proof.
  intros Hinv Hx. rewrite (deref_lookup _ _ (inv_valid st Hinv)) in Hx.
  destruct (updatedTasks st !! j) as [r|] eqn:Hr; [|done]. simpl in Hx.
  destruct Hinv as (_ & _ & Hrefs & _).
  destruct (Hrefs j r Hr) as (Hne & o & b & Ho & Hb & Hsk).
  exists r, b. rewrite Ho in Hx. injection Hx as <-. done.
Qed.

Lemma base_same_id (b1 b2 : Task) :
  In b1 base -> In b2 base -> id b1 = id b2 -> b1 = b2.
Proof.
  intros H1 H2 Heq.
  apply list_elem_of_In, list_elem_of_lookup in H1 as [i1 H1].
  apply list_elem_of_In, list_elem_of_lookup in H2 as [i2 H2].
  assert (i1 = i2) as -> by by apply (NoDup_ids_lookup base i1 i2 b1 b2).
  congruence.
Qed.

(** One dependent task is adjusted: its object is assigned to and a
    copy takes its place in [updatedTasks]. *)
Lemma propagate_step st r dependent idx mutated adjustedTask :
  Inv st -> r <> stale -> objects st !! r = Some dependent ->
  JS.findIndex (hasId (id dependent)) (deref (objects st) (updatedTasks st)) = Some idx ->
  skeleton mutated = skeleton dependent -> (completed dependent -> completed mutated) ->
  skeleton adjustedTask = skeleton mutated -> (completed mutated -> completed adjustedTask) ->
  Inv (mkPropagation (<[r := mutated]> (objects st) ++ [adjustedTask])
                     (<[idx := length (objects st)]> (updatedTasks st))
                     (processedTasks st)).
Proof.
  intros Hinv Hr Hobj Hidx Hk1 Hc1 Hk2 Hc2.
  pose proof Hinv as (Hlen & Hstale & Hrefs & Hobjs).
  destruct (Hobjs r dependent Hobj Hr) as [(bd & Hbd & Hskd) Hcd].
  apply findIndex_Some in Hidx as (x & Hx & Hidx & _).
  apply String.eqb_eq in Hidx.
  destruct (inv_deref st idx x Hinv Hx) as (rx & bx & Hrx & _ & Hox & Hbx & Hskx).
  assert (bd = bx) as ->.
  { apply base_same_id; [done | |].
    - apply list_elem_of_In. by apply list_elem_of_lookup_2 in Hbx.
    - injection Hskd as Hid _ _. injection Hskx as Hid' _ _. congruence. }
  assert (Hread : forall r' o', (<[r := mutated]> (objects st) ++ [adjustedTask]) !! r' = Some o' ->
            (r' = length (objects st) /\ o' = adjustedTask)
            \/ (r' = r /\ o' = mutated)
            \/ (r' <> r /\ objects st !! r' = Some o')).
  { intros r' o' Hr'.
    destruct (decide (r' < length (objects st))%nat) as [Hlt|Hge].
    - rewrite lookup_app_l in Hr' by by rewrite length_insert.
      destruct (decide (r' = r)) as [->|Hne].
      + rewrite list_lookup_insert_eq in Hr' by done. injection Hr' as <-. tauto.
      + rewrite list_lookup_insert_ne in Hr' by done. tauto.
    - rewrite lookup_app_r in Hr' by (rewrite length_insert; lia).
      rewrite length_insert in Hr'.
      destruct (r' - length (objects st))%nat as [|k] eqn:Hk; simpl in Hr'; [|done].
      injection Hr' as <-. left. split; [lia | done]. }
  assert (Hwrite : forall r' o', r' <> r -> objects st !! r' = Some o' ->
            (<[r := mutated]> (objects st) ++ [adjustedTask]) !! r' = Some o').
  { intros r' o' Hne Ho'. rewrite lookup_app_l.
    - by rewrite list_lookup_insert_ne.
    - rewrite length_insert. by apply lookup_lt_Some in Ho'. }
  assert (Hmut : (<[r := mutated]> (objects st) ++ [adjustedTask]) !! r = Some mutated).
  { apply lookup_lt_Some in Hobj as Hlt. rewrite lookup_app_l by by rewrite length_insert.
    by rewrite list_lookup_insert_eq. }
  assert (Hnew : (<[r := mutated]> (objects st) ++ [adjustedTask]) !! length (objects st)
                 = Some adjustedTask).
  { rewrite lookup_app_r by (rewrite length_insert; lia).
    by rewrite length_insert, Nat.sub_diag. }
  split; [|split; [|split]]; simpl.
  - by rewrite length_insert.
  - rewrite length_app, length_insert. lia.
  - intros j r' Hj. destruct (decide (j = idx)) as [->|Hne].
    + rewrite list_lookup_insert_eq in Hj by by apply lookup_lt_Some in Hrx.
      injection Hj as <-. split; [lia|].
      exists adjustedTask, bx. split; [done|]. split; [done | congruence].
    + rewrite list_lookup_insert_ne in Hj by done.
      destruct (Hrefs j r' Hj) as (Hne' & o & b & Ho & Hb & Hsk). split; [done|].
      destruct (decide (r' = r)) as [->|Hrr].
      * exists mutated, b. rewrite Hobj in Ho. injection Ho as <-.
        split; [done|]. split; [done | congruence].
      * exists o, b. split; [by apply Hwrite | done].
  - intros r' o' Hr' Hne.
    destruct (Hread r' o' Hr') as [[-> ->]|[[-> ->]|[Hrr Ho']]].
    + split; [exists bx; split; [|congruence]|].
      * apply list_elem_of_In. by apply list_elem_of_lookup_2 in Hbx.
      * intros Hid. apply Hc2, Hc1, Hcd.
        injection Hk1 as Hid1 _ _. injection Hk2 as Hid2 _ _. congruence.
    + split; [exists bx; split; [done | congruence]|].
      intros Hid. apply Hc1, Hcd. injection Hk1 as Hid1 _ _. congruence.
    + by apply (Hobjs r' o').
Qed.

Lemma inv_markProcessed taskId st : Inv st -> Inv (markProcessed taskId st).
Proof. done. Qed.

Lemma eachDependent_converges (m : nat) :
  (forall taskId st,
     (size (ids ∖ processedTasks st) <= m)%nat -> taskId ∈ ids -> Inv st ->
     exists st', converges (fun fuel => updateDependents isHoliday fuel taskId st) st'
                 /\ Inv st' /\ processedTasks st ⊆ processedTasks st') ->
  forall deps st,
    (forall r, In r deps -> r <> stale) ->
    (size (ids ∖ processedTasks st) <= m)%nat -> Inv st ->
    exists st',
      converges (fun fuel =>
                   eachDependent isHoliday (updateDependents isHoliday fuel) fuel deps st) st'
      /\ Inv st' /\ processedTasks st ⊆ processedTasks st'.
Proof.
  intros IH. induction deps as [|r rest IHrest]; intros st Hdeps Hsize Hinv.
  { exists st. split; [by exists O | done]. }
  assert (Hrest : forall r', In r' rest -> r' <> stale) by (intros r' ?; apply Hdeps; by right).
  assert (Hr : r <> stale) by (apply Hdeps; by left).
  destruct (objects st !! r) as [dependent|] eqn:Hobj.
  2: { destruct (IHrest st Hrest Hsize Hinv) as (st' & [N HN] & Hinv' & Hsub).
       exists st'. split; [|done]. exists N. intros fuel Hle.
       cbn [eachDependent]. rewrite Hobj. by apply HN. }
  destruct (JS.findIndex (hasId (id dependent)) (deref (objects st) (updatedTasks st)))
    as [idx|] eqn:Hidx.
  2: { destruct (IHrest st Hrest Hsize Hinv) as (st' & [N HN] & Hinv' & Hsub).
       exists st'. split; [|done]. exists N. intros fuel Hle.
       cbn [eachDependent]. rewrite Hobj, Hidx. by apply HN. }
  destruct (mutate_keeps isHoliday calendar dependent
              (deref (objects st) (updatedTasks st))) as (mutated & [N1 Hmut] & Hk1 & Hc1).
  destruct (adjustDates_keeps isHoliday calendar mutated)
    as (adjustedTask & [N2 Hadj] & Hk2 & Hc2).
  set (st1 := mkPropagation (<[r := mutated]> (objects st) ++ [adjustedTask])
                            (<[idx := length (objects st)]> (updatedTasks st))
                            (processedTasks st)).
  assert (Hinv1 : Inv st1) by by apply (propagate_step st r dependent idx).
  destruct (bool_decide (startDate dependent = startDate adjustedTask
                         ∧ endDate dependent = endDate adjustedTask)) eqn:Hsame.
  - destruct (IHrest st1 Hrest Hsize Hinv1) as (st' & [N3 HN3] & Hinv' & Hsub).
    exists st'. split; [|done]. exists (N1 `max` (N2 `max` N3))%nat. intros fuel Hle.
    cbn [eachDependent]. rewrite Hobj, Hidx, Hmut by lia. cbn [mbind option_bind].
    rewrite Hadj by lia. cbn [mbind option_bind]. rewrite Hsame.
    apply HN3. lia.
  - assert (Hid : id dependent ∈ ids).
    { destruct Hinv as (_ & _ & _ & Hobjs).
      destruct (Hobjs r dependent Hobj Hr) as [(b & Hb & Hsk) _].
      injection Hsk as -> _ _. apply list_elem_of_In in Hb. set_solver. }
    destruct (IH (id dependent) st1 Hsize Hid Hinv1) as (st2 & [N3 HN3] & Hinv2 & Hsub2).
    assert (Hsize2 : (size (ids ∖ processedTasks st2) <= m)%nat).
    { etrans; [|exact Hsize]. apply subseteq_size. simpl in Hsub2. set_solver. }
    destruct (IHrest st2 Hrest Hsize2 Hinv2) as (st' & [N4 HN4] & Hinv' & Hsub).
    exists st'. split; [|split; [done | simpl in Hsub2; set_solver]].
    exists (N1 `max` (N2 `max` (N3 `max` N4)))%nat. intros fuel Hle.
    cbn [eachDependent]. rewrite Hobj, Hidx, Hmut by lia. cbn [mbind option_bind].
    rewrite Hadj by lia. cbn [mbind option_bind]. rewrite Hsame.
    fold st1. rewrite HN3 by lia. cbn [mbind option_bind].
    apply HN4. lia.
Qed.

(** [updateDependents] returns, given enough fuel, and keeps the
    invariant: each call that goes on marks a task that was not marked. *)
Lemma updateDependents_converges (m : nat) : forall taskId st,
  (size (ids ∖ processedTasks st) <= m)%nat -> taskId ∈ ids -> Inv st ->
  exists st', converges (fun fuel => updateDependents isHoliday fuel taskId st) st'
              /\ Inv st' /\ processedTasks st ⊆ processedTasks st'.
Proof.
  induction m as [|m IH]; intros taskId st Hsize Hid Hinv.
  - assert (taskId ∈ processedTasks st) as Hin.
    { assert (ids ∖ processedTasks st = ∅) as Hempty.
      { apply leibniz_equiv, size_empty_iff. lia. }
      destruct (decide (taskId ∈ processedTasks st)); [done | set_solver]. }
    exists st. split; [|done]. exists 1%nat. intros [|fuel] Hle; [lia|]. simpl.
    by destruct (decide (taskId ∈ processedTasks st)).
  - destruct (decide (taskId ∈ processedTasks st)) as [Hin|Hnotin].
    { exists st. split; [|done]. exists 1%nat. intros [|fuel] Hle; [lia|]. simpl.
      by destruct (decide (taskId ∈ processedTasks st)). }
    assert (Hsize' : (size (ids ∖ processedTasks (markProcessed taskId st)) <= m)%nat).
    { assert (ids ∖ processedTasks (markProcessed taskId st) ⊂ ids ∖ processedTasks st) as Hsub.
      { simpl. set_solver. }
      apply subset_size in Hsub. lia. }
    destruct (eachDependent_converges m IH
                (dependentsOf taskId (markProcessed taskId st)) (markProcessed taskId st))
      as (st' & [N HN] & Hinv' & Hsub); [|done|done|].
    { intros r Hr. unfold dependentsOf in Hr. apply filter_In in Hr as [Hr _].
      apply list_elem_of_In, list_elem_of_lookup in Hr as [j Hj].
      destruct Hinv as (_ & _ & Hrefs & _). simpl in Hj. by destruct (Hrefs j r Hj). }
    exists st'. split; [|split; [done | simpl in Hsub; set_solver]].
    exists (S N). intros [|fuel] Hle; [lia|]. simpl.
    destruct (decide (taskId ∈ processedTasks st)); [done|]. apply HN. lia.
Qed.

End Propagating.

Lemma deref_length (objs : list Task) (refs : list nat) :
  (forall j r, refs !! j = Some r -> is_Some (objs !! r)) ->
  length (deref objs refs) = length refs.
Proof.
  unfold deref. induction refs as [|r refs IH]; intros Hvalid; [done|].
  simpl. destruct (Hvalid O r eq_refl) as [o ->]. simpl. f_equal.
  apply IH. intros j r' Hr'. by apply (Hvalid (S j)).
Qed.

(** The propagation returns a list that has the skeleton of the list
    with the updated task in place, and in which a complete updated
    task is still complete. *)
Lemma updateDependentTasks_completed (isHoliday : Z -> bool) (tasks : list Task)
      (i : nat) (task updatedTask : Task) :
  workingDaysUnbounded isHoliday ->
  NoDup (id <$> tasks) -> tasks !! i = Some task ->
  id updatedTask = id task -> completed updatedTask ->
  exists newTasks,
    converges (fun fuel => updateDependentTasks isHoliday fuel tasks updatedTask) newTasks
    /\ length newTasks = length tasks
    /\ (forall j t, newTasks !! j = Some t ->
          exists b, <[i := updatedTask]> tasks !! j = Some b /\ skeleton t = skeleton b)
    /\ exists t, newTasks !! i = Some t /\ completed t.
Proof.
  intros Hcal Hnd Hi Hid Hdone.
  pose proof (lookup_lt_Some _ _ _ Hi) as Hlt.
  set (base := <[i := updatedTask]> tasks).
  assert (Hids : id <$> base = id <$> tasks).
  { unfold base. rewrite list_fmap_insert, Hid. apply list_insert_id.
    by rewrite list_lookup_fmap, Hi. }
  assert (Hndb : NoDup (id <$> base)) by by rewrite Hids.
  set (st0 := mkPropagation (tasks ++ [updatedTask])
                            (<[i := length tasks]> (seq 0 (length tasks))) ∅).
  assert (Hinv0 : propagationInv base i (id task) st0).
  { split; [|split; [|split]]; simpl.
    - unfold base. by rewrite !length_insert, length_seq.
    - rewrite length_app. lia.
    - intros j r Hj. destruct (decide (j = i)) as [->|Hne].
      + rewrite list_lookup_insert_eq in Hj by by rewrite length_seq.
        injection Hj as <-. split; [lia|]. exists updatedTask, updatedTask.
        split; [|split; [|done]].
        * by rewrite lookup_app_r, Nat.sub_diag.
        * unfold base. by rewrite list_lookup_insert_eq.
      + rewrite list_lookup_insert_ne in Hj by done.
        apply lookup_seq in Hj as [-> Hjlt]. simpl. split; [done|].
        destruct (lookup_lt_is_Some_2 tasks j Hjlt) as [o Ho].
        exists o, o. split; [by rewrite lookup_app_l|]. split; [|done].
        unfold base. by rewrite list_lookup_insert_ne.
    - intros r o Hr Hne.
      destruct (decide (r < length tasks)%nat) as [Hrlt|Hrge].
      + rewrite lookup_app_l in Hr by done. split.
        * exists o. split; [|done]. apply list_elem_of_In, list_elem_of_lookup.
          exists r. unfold base. by rewrite list_lookup_insert_ne.
        * intros Hido. exfalso. apply Hne.
          by apply (NoDup_ids_lookup tasks r i o task).
      + rewrite lookup_app_r in Hr by lia.
        destruct (r - length tasks)%nat; simpl in Hr; [|done]. injection Hr as <-.
        split; [|done]. exists updatedTask. split; [|done].
        apply list_elem_of_In, list_elem_of_lookup. exists i.
        unfold base. by rewrite list_lookup_insert_eq. }
  destruct (updateDependents_converges isHoliday Hcal base i (id task) Hndb
              (size (list_to_set (id <$> base) ∖ processedTasks st0 : gset string))
              (id updatedTask) st0) as (st' & [N HN] & Hinv' & _); [done | | done |].
  { rewrite Hids, Hid. apply list_elem_of_lookup_2 in Hi.
    apply elem_of_list_to_set, list_elem_of_fmap. by exists task. }
  exists (deref (objects st') (updatedTasks st')).
  pose proof Hinv' as (Hlen & _ & Hrefs & Hobjs).
  split; [|split; [|split]].
  - exists N. intros fuel Hle. unfold updateDependentTasks.
    rewrite Hid, (findIndex_hasId tasks i task) by done.
    fold st0. rewrite <- Hid, HN by done. done.
  - rewrite (deref_length _ _ (inv_valid base i (id task) st' Hinv')), Hlen.
    unfold base. by rewrite length_insert.
  - intros j t Hj.
    destruct (inv_deref base i (id task) st' j t Hinv' Hj) as (r & b & _ & _ & _ & Hb & Hsk).
    by exists b.
  - destruct (lookup_lt_is_Some_2 (updatedTasks st') i) as [r Hr].
    { rewrite Hlen. unfold base. by rewrite length_insert. }
    destruct (Hrefs i r Hr) as (Hne & o & b & Ho & Hb & Hsk).
    exists o. split.
    + rewrite (deref_lookup _ _ (inv_valid base i (id task) st' Hinv')), Hr. done.
    + apply (Hobjs r o Ho Hne). unfold base in Hb.
      rewrite list_lookup_insert_eq in Hb by done. injection Hb as <-.
      injection Hsk as -> _ _. done.
Qed.

(** ** The passes at the end of a mutation *)

Lemma hasDirectChildren_skeleton (l1 l2 : list Task) (taskLevel : Z) :
  Forall2 (fun a b => skeleton a = skeleton b) l1 l2 ->
  hasDirectChildren taskLevel l1 = hasDirectChildren taskLevel l2.
Proof.
  induction 1 as [|a b l1 l2 Hab _ IH]; [done|]. simpl.
  injection Hab as _ -> ->. by rewrite IH.
Qed.

Lemma updateParentStatus_lookup (l : list Task) (j : nat) (t : Task) :
  NoDup (id <$> l) -> l !! j = Some t ->
  updateParentStatus l !! j
  = Some (set_isParent (hasDirectChildren (level t) (drop (S j) l)) t).
Proof.
  intros Hnd Ht. unfold updateParentStatus.
  rewrite list_lookup_fmap, Ht. simpl. by rewrite (findIndex_hasId l j t).
Qed.

Lemma updateParentStatus_ids (l : list Task) :
  id <$> updateParentStatus l = id <$> l.
Proof.
  unfold updateParentStatus. rewrite <- list_fmap_compose.
  apply list_fmap_ext. intros _ t _. simpl.
  by destruct (JS.findIndex (hasId (id t)) l).
Qed.

Lemma updateWbsNumbers_lookup (l : list Task) (j : nat) (t : Task) :
  l !! j = Some t ->
  exists t', updateWbsNumbers l !! j = Some t'
             /\ id t' = id t /\ progress t' = progress t.
Proof.
  intros Ht. unfold updateWbsNumbers. rewrite list_lookup_fmap, Ht. simpl.
  eexists. split; [done|].
  destruct (isDeleted t); [done|].
  destruct (_ !! id t) as [w|]; [destruct (JS.truthy w)|]; done.
Qed.

(** A task that has no direct child keeps its id and its progress
    through the passes. *)
Lemma recompute_leaf (isHoliday : Z -> bool) (l : list Task) (j : nat) (t : Task) :
  NoDup (id <$> l) -> l !! j = Some t ->
  hasDirectChildren (level t) (drop (S j) l) = false ->
  exists t', recompute isHoliday l !! j = Some t'
             /\ id t' = id t /\ progress t' = progress t.
Proof.
  intros Hnd Ht Hleaf. unfold recompute.
  pose proof (updateParentStatus_lookup l j t Hnd Ht) as H1. rewrite Hleaf in H1.
  assert (Hnd1 : NoDup (id <$> updateParentStatus l)) by by rewrite updateParentStatus_ids.
  destruct (updateParentDates_pass isHoliday _ Hnd1) as [Hshape2 H2].
  specialize (H2 j _ H1). unfold aggregated in H2. simpl in H2.
  rewrite Tauto.if_same in H2.
  assert (Hnd2 : NoDup (id <$> updateParentDates isHoliday (updateParentStatus l))).
  { rewrite (ids_of_shapes (updateParentStatus l)); done. }
  destruct (updateParentProgress_pass _ Hnd2) as [_ H3].
  specialize (H3 j _ H2). simpl in H3. rewrite andb_false_r in H3.
  destruct (updateWbsNumbers_lookup _ j _ H3) as (t' & Ht' & Hid' & Hp').
  by exists t'.
Qed.

(** ** Completion by an actual end date *)

Lemma processUpdate_completes (isHoliday : Z -> bool) (task : Task) (update : TaskUpdate) :
  is_Some (setDate (u_actualEndDate update)) -> noProgress update = true ->
  setDate (u_actualStartDate update) = None \/ Qeq_bool (progress task) 0 = false ->
  let processed := processUpdate isHoliday task update in
  u_progress processed = Some 100%Q
  /\ u_id processed = u_id update /\ u_level processed = u_level update
  /\ u_actualEndDate processed = u_actualEndDate update.
Proof.
  intros [d Hd] Hnone Hstart. unfold processUpdate. rewrite Hd, Hnone. simpl.
  assert (bool_decide (is_Some (setDate (u_actualStartDate update)))
          && Qeq_bool (progress task) 0 && true = false) as ->.
  { destruct Hstart as [-> | ->]; [done | by rewrite andb_false_r]. }
  destruct (bool_decide (u_predecessorIds update = Some (Some "")));
    destruct (setDate (u_actualStartDate update)), (actualStartDate task); done.
Qed.

(** C10, as stated, fails twice.  An update that sets both actual dates
    of a task of progress 0 leaves the progress at 50; and
    [adjustTaskDatesWithPredecessors] leaves the progress of a task
    that has an actual end date but no predecessors as it is. *)
Lemma actual_end_without_completion :
  let calendar := HolidayStore.isHoliday HolidayStore.weekends in
  let task := sampleTask "a" 1 (Some "0") 0 in
  let update :=
    mkTaskUpdate None None None None None None None None None
                 (Some (Some 20094)) (Some (Some 20097)) None None None None in
  let finished := set_actualEndDate (Some 20097) (sampleTask "a" 1 (Some "0") 0) in
  u_progress update = None
  /\ (fun out => progress <$> out !! 0%nat) <$> updateTask calendar 5 [task] "a" update
     = Some (Some 50%Q)
  /\ progress <$> adjustTaskDatesWithPredecessors calendar 5 finished [finished]
     = Some 0%Q.
Proof. repeat split; vm_compute; reflexivity. Qed.

(** C10 (amended): for a task that is not a parent (its flag is off and
    no direct child follows it), an update that sets the actual end
    date, does not set the progress, leaves the id and the level alone
    and does not at once set the actual start date of a task of progress
    0, results in progress 100; and [adjustTaskDatesWithPredecessors]
    returns progress 100 for every task that has an actual end date and
    a predecessor text that is neither blank nor the sentinel. *)
Theorem actual_end_completes (isHoliday : Z -> bool) (tasks : list Task) (i : nat)
        (task : Task) (update : TaskUpdate) :
  workingDaysUnbounded isHoliday ->
  NoDup (id <$> tasks) -> tasks !! i = Some task ->
  isParent task = false -> hasDirectChildren (level task) (drop (S i) tasks) = false ->
  u_id update = None -> u_level update = None ->
  is_Some (setDate (u_actualEndDate update)) -> noProgress update = true ->
  setDate (u_actualStartDate update) = None \/ Qeq_bool (progress task) 0 = false ->
  (exists out t',
     converges (fun fuel => updateTask isHoliday fuel tasks (id task) update) out
     /\ out !! i = Some t' /\ id t' = id task /\ progress t' = 100%Q)
  /\ (forall t allTasks,
        hasPredecessorText t = true -> is_Some (actualEndDate t) ->
        exists t',
          converges (fun fuel => adjustTaskDatesWithPredecessors isHoliday fuel t allTasks) t'
          /\ progress t' = 100%Q).
Proof.
  intros Hcal Hnd Hi Hflag Hleaf Huid Hulevel Hend Hnone Hstart.
  split; [|intros t allTasks; by apply adjust_sets_progress].
  destruct (processUpdate_completes isHoliday task update Hend Hnone Hstart)
    as (Hp & Hpid & Hplevel & Hpend).
  set (updatedTask := spread task (processUpdate isHoliday task update)).
  assert (Hid : id updatedTask = id task).
  { unfold updatedTask, spread. simpl. by rewrite Hpid, Huid. }
  assert (Hlevel : level updatedTask = level task).
  { unfold updatedTask, spread. simpl. by rewrite Hplevel, Hulevel. }
  assert (Hdone : completed updatedTask).
  { unfold updatedTask, spread, completed. simpl. rewrite Hp, Hpend. split; [done|].
    destruct Hend as [d Hd]. by destruct (u_actualEndDate update) as [[d'|]|]. }
  destruct (updateDependentTasks_completed isHoliday tasks i task updatedTask
              Hcal Hnd Hi Hid Hdone) as (newTasks & [N HN] & Hlen & Hsk & t & Ht & Htdone).
  set (base := <[i := updatedTask]> tasks) in *.
  assert (Hforall : Forall2 (fun a b => skeleton a = skeleton b) newTasks base).
  { apply Forall2_same_length_lookup_2.
    - unfold base. by rewrite length_insert.
    - intros j x y Hx Hy. destruct (Hsk j x Hx) as (b & Hb & Hxb). congruence. }
  assert (Hids : id <$> newTasks = id <$> tasks).
  { trans (id <$> base).
    - clear -Hforall. induction Hforall as [|a b l k Hab _ IH]; [done|].
      rewrite !fmap_cons. injection Hab as Hida _ _. by rewrite Hida, IH.
    - unfold base. rewrite list_fmap_insert, Hid. apply list_insert_id.
      by rewrite list_lookup_fmap, Hi. }
  assert (Hleaf' : hasDirectChildren (level t) (drop (S i) newTasks) = false).
  { destruct (Hsk i t Ht) as (b & Hb & Htb).
    unfold base in Hb. rewrite list_lookup_insert_eq in Hb by by apply lookup_lt_Some in Hi.
    injection Hb as <-.
    unfold skeleton in Htb.
    assert (level t = level task) as -> by congruence.
    rewrite <- Hleaf.
    rewrite <- (drop_insert_lt tasks (S i) i updatedTask) by lia.
    apply hasDirectChildren_skeleton. by apply Forall2_drop. }
  destruct (recompute_leaf isHoliday newTasks i t) as (t' & Ht' & Hid' & Hp');
    [by rewrite Hids | done | done |].
  exists (recompute isHoliday newTasks), t'. split; [|split; [done|split]].
  - exists N. intros fuel Hle. unfold updateTask.
    rewrite (findIndex_hasId tasks i task) by done. rewrite Hi, Hflag.
    fold updatedTask. by rewrite HN.
  - rewrite Hid'. destruct (Hsk i t Ht) as (b & Hb & Htb).
    unfold base in Hb. rewrite list_lookup_insert_eq in Hb by by apply lookup_lt_Some in Hi.
    injection Hb as <-. unfold skeleton in Htb. congruence.
  - rewrite Hp'. by destruct Htdone.
Qed.

Lemma actual_end_completes_witness :
  let calendar := HolidayStore.isHoliday HolidayStore.weekends in
  let task := set_actualStartDate (Some 20094) (set_progress 50%Q
                (sampleTask "a" 1 (Some "0") 0)) in
  let tasks := [task; sampleTask "b" 2 (Some "1") 0] in
  let update :=
    mkTaskUpdate None None None None None None None None None
                 None (Some (Some 20097)) None None None None in
  (exists out t',
     converges (fun fuel => updateTask calendar fuel tasks (id task) update) out
     /\ out !! 0%nat = Some t' /\ id t' = id task /\ progress t' = 100%Q)
  /\ (forall t allTasks,
        hasPredecessorText t = true -> is_Some (actualEndDate t) ->
        exists t',
          converges (fun fuel => adjustTaskDatesWithPredecessors calendar fuel t allTasks) t'
          /\ progress t' = 100%Q).
Proof.
  apply (actual_end_completes (HolidayStore.isHoliday HolidayStore.weekends)
           [set_actualStartDate (Some 20094) (set_progress 50%Q
              (sampleTask "a" 1 (Some "0") 0)); sampleTask "b" 2 (Some "1") 0] 0%nat);
    [exact weekends_unbounded | | reflexivity | reflexivity | reflexivity | reflexivity
     | reflexivity | by eexists | reflexivity | by left].
  apply (bool_decide_unpack _). vm_compute. reflexivity.
Defined.

(** ** Cycle detection *)

Section CycleSearch.

Variable tasks : list Task.
Variable taskSiNo : Z.

Local Abbreviation cyclic := (cyclic tasks taskSiNo).
Local Abbreviation finished := (finished tasks taskSiNo).












End CycleSearch.






(** * Further properties of the engine *)

(** ** The work calendar *)

(** Whatever the options and the list of holidays, the calendar has a
    working day after every day: a Monday later than every listed
    holiday. *)
Lemma isHoliday_unbounded (st : HolidayStore.HolidayState) :
  workingDaysUnbounded (HolidayStore.isHoliday st).
Proof.
  intros x.
  pose proof (maxList_ge x (HolidayStore.date <$> HolidayStore.autoplantHolidays st))
    as [Hx Htop].
  set (top := maxList x (HolidayStore.date <$> HolidayStore.autoplantHolidays st)) in *.
  assert (Hall : forall h, In h (HolidayStore.autoplantHolidays st) ->
                           HolidayStore.date h <= top).
  { intros h Hin. apply Htop, in_map, Hin. }
  clearbody top.
  exists (top + 1 + (3 - top) mod 7). split; [Z.div_mod_to_equations; lia|].
  unfold HolidayStore.isHoliday, HolidayStore.getDay.
  assert (Hday : (top + 1 + (3 - top) mod 7 + 4) mod 7 = 1)
    by (Z.div_mod_to_equations; lia).
  rewrite Hday. simpl. rewrite !andb_false_r. simpl.
  destruct (HolidayStore.excludeAutoplantHolidays st); [|done].
  destruct (find _ _) as [h|] eqn:Hfind; [|done].
  apply find_some in Hfind as [Hin Heq]. apply Z.eqb_eq in Heq.
  specialize (Hall h Hin). exfalso. Z.div_mod_to_equations; lia.
Qed.

(** X1: whatever the settings and the holiday list of the holiday
    store, [calculateEndDate] with holiday exclusion returns.  The end
    date is never before the start; it is the start itself for a duration
    of 1 or less, and for a duration of 2 or more it is a later day that
    is not a holiday. *)
Theorem calculateEndDate_returns (st : HolidayStore.HolidayState) (s d : Z) :
  exists e,
    converges (fun fuel => calculateEndDate (HolidayStore.isHoliday st) fuel s d true) e
    /\ s <= e
    /\ (d <= 1 -> e = s)
    /\ (2 <= d -> s < e /\ HolidayStore.isHoliday st e = false).
Proof.
  destruct (calculateEndDate_converges _ s d (isHoliday_unbounded st)) as (e & Hconv).
  exists e. split; [done|].
  destruct Hconv as [fuel Hrun]. specialize (Hrun fuel (Nat.le_refl _)).
  apply calculateEndDate_spec in Hrun as [[Hd ->]|(Hd & Hlt & Hw & _)].
  - split; [lia|]. split; [done|lia].
  - split; [lia|]. split; [lia|done].
Qed.

(** X2: for one start date, a longer duration never gives an
    earlier end date. *)
Theorem calculateEndDate_monotone (isHoliday : Z -> bool) (fuel fuel' : nat)
        (s d d' e e' : Z) :
  d <= d' ->
  calculateEndDate isHoliday fuel s d true = Some e ->
  calculateEndDate isHoliday fuel' s d' true = Some e' ->
  e <= e'.
Proof.
  intros Hd Hrun Hrun'.
  apply calculateEndDate_spec in Hrun as [[H1 ->]|(H1 & Hlt & Hw & Hcount)];
    apply calculateEndDate_spec in Hrun' as [[H1' ->]|(H1' & Hlt' & Hw' & Hcount')];
    try lia.
  destruct (Z.le_gt_cases e e') as [|Hgt]; [done|].
  pose proof (workingDays_strict isHoliday (s + 1) e' e ltac:(lia) Hgt Hw). lia.
Qed.

Lemma calculateEndDate_monotone_witness :
  let isHoliday := HolidayStore.isHoliday HolidayStore.initialState in
  let friday := HolidayStore.ymd 2025 1 3 in
  calculateEndDate isHoliday 10 friday 3 true = Some (HolidayStore.ymd 2025 1 6)
  /\ calculateEndDate isHoliday 10 friday 8 true = Some (HolidayStore.ymd 2025 1 11)
  /\ HolidayStore.ymd 2025 1 6 <= HolidayStore.ymd 2025 1 11.
Proof.
  cbv zeta. split; [reflexivity | split; [reflexivity |]].
  apply (calculateEndDate_monotone (HolidayStore.isHoliday HolidayStore.initialState)
           10 10 (HolidayStore.ymd 2025 1 3) 3 8); [lia | reflexivity | reflexivity].
Defined.

(** X3: when the end date is the start date with a whole number of
    days added ([addDays(start, k)] with [k >= 0], which is [s + k] here)
    and both are working days, the end date computed from the duration
    that [calculateDuration] counts from the one to the other is that end
    date itself. *)
Theorem calculateEndDate_calculateDuration (isHoliday : Z -> bool) (s k : Z) :
  0 <= k -> isHoliday s = false -> isHoliday (s + k) = false ->
  converges (fun fuel => calculateEndDate isHoliday fuel s
                           (calculateDuration isHoliday s (s + k) true) true) (s + k).
Proof.
  intros Hk Hs He. assert (Hse : s <= s + k) by lia. clear Hk.
  generalize dependent (s + k). clear k. intros e He Hse. unfold calculateDuration.
  destruct (Z.eqb_spec s e) as [->|Hne]; [exists O; done|]. simpl.
  fold (workingDays isHoliday s e).
  assert (Hcount : workingDays isHoliday s e = 1 + workingDays isHoliday (s + 1) e).
  { rewrite workingDays_first by lia. unfold working. by rewrite Hs. }
  assert (Hpos : 0 < workingDays isHoliday (s + 1) e).
  { pose proof (workingDays_strict isHoliday (s + 1) s e ltac:(lia) ltac:(lia) He).
    rewrite workingDays_empty in H by lia. done. }
  exists (Z.to_nat (e - s)). intros fuel Hfuel.
  unfold calculateEndDate.
  destruct (Z.eqb_spec (workingDays isHoliday s e) 1); [lia|]. simpl.
  rewrite Hcount. replace (1 + workingDays isHoliday (s + 1) e - 1)
    with (workingDays isHoliday (s + 1) e) by lia.
  (* the loop runs from [s] with nothing counted *)
  assert (Hloop : forall (k : nat) r,
            s <= r -> r <= e -> Z.to_nat (e - r) = k ->
            forall fuel, (k <= fuel)%nat ->
              endDateLoop isHoliday fuel r (workingDays isHoliday (s + 1) r)
                          (workingDays isHoliday (s + 1) e) = Some e).
  { induction k as [|k IH]; intros r Hsr Hre Hk fuel0 Hf.
    - assert (r = e) as -> by lia. apply endDateLoop_done. lia.
    - destruct fuel0 as [|fuel0]; [lia|]. simpl.
      pose proof (workingDays_strict isHoliday (s + 1) r e ltac:(lia) ltac:(lia) He) as Hlt.
      destruct (Z.ltb_spec (workingDays isHoliday (s + 1) r)
                           (workingDays isHoliday (s + 1) e)); [|lia].
      specialize (IH (r + 1) ltac:(lia) ltac:(lia) ltac:(lia) fuel0 ltac:(lia)).
      rewrite workingDays_last in IH by lia. unfold working in IH.
      destruct (isHoliday (r + 1)).
      + by rewrite Z.add_0_r in IH.
      + done. }
  specialize (Hloop (Z.to_nat (e - s)) s ltac:(lia) Hse eq_refl fuel Hfuel).
  by rewrite workingDays_empty in Hloop by lia.
Qed.

Lemma calculateEndDate_calculateDuration_witness :
  let calendar := HolidayStore.isHoliday HolidayStore.initialState in
  let friday := HolidayStore.ymd 2025 1 3 in
  calculateDuration calendar friday (friday + 10) true = 9
  /\ converges (fun fuel => calculateEndDate calendar fuel friday
                               (calculateDuration calendar friday (friday + 10) true) true)
                (friday + 10).
Proof.
  split; [reflexivity|].
  apply (calculateEndDate_calculateDuration
           (HolidayStore.isHoliday HolidayStore.initialState) (HolidayStore.ymd 2025 1 3) 10);
    [lia | reflexivity | reflexivity].
Defined.

(** X4: the duration [calculateDuration] counts is never negative
    and at most the number of calendar days from the start to the end (at
    most 1 when the end is not after the start); it is 0 when the end is
    before the start and 1 when start and end are the same day, holiday
    or not. *)
Theorem calculateDuration_bounds (isHoliday : Z -> bool) (s e : Z) :
  0 <= calculateDuration isHoliday s e true <= Z.max 1 (e - s + 1)
  /\ (e < s -> calculateDuration isHoliday s e true = 0)
  /\ calculateDuration isHoliday s s true = 1.
Proof.
  unfold calculateDuration. rewrite Z.eqb_refl.
  destruct (Z.eqb_spec s e) as [->|Hne]; simpl.
  - split; [lia|]. split; [lia|done].
  - fold (workingDays isHoliday s e).
    pose proof (workingDays_nonneg isHoliday s e).
    destruct (Z.lt_ge_cases e s) as [Hlt|Hge].
    + rewrite workingDays_empty by done. split; [lia|]. split; done.
    + pose proof (workingDays_le_days isHoliday s e Hge). split; [lia|]. split; [lia|done].
Qed.

(** X5: with holiday exclusion switched off, [calculateEndDate]
    returns in one pass for every duration, also 0 and negative ones, and
    [calculateDuration] of its result gives the duration back. *)
Theorem roundtrip_calendar_days (isHoliday : Z -> bool) (fuel : nat) (s d : Z) :
  exists e, calculateEndDate isHoliday fuel s d false = Some e
            /\ calculateDuration isHoliday s e false = d.
Proof.
  unfold calculateEndDate, calculateDuration.
  destruct (Z.eqb_spec d 1) as [->|Hne].
  - exists s. by rewrite Z.eqb_refl.
  - simpl. eexists. split; [done|].
    destruct (Z.eqb_spec s (s + (d - 1))); [lia|]. simpl. lia.
Qed.

(** ** Predecessors and the validation of dates *)

(** X6: when [getMaxPredecessorEndDate] returns a date, the text
    of references is not blank and the date is the latest end date of the
    referenced tasks that are not deleted; when it returns null, the text
    is blank or no referenced task that is not deleted has an end date. *)
Theorem getMaxPredecessorEndDate_result (tasks : list Task) (ids : string) :
  match getMaxPredecessorEndDate tasks ids with
  | Some m =>
      JS.truthy (JS.trim ids) = true /\ latestPredecessorEnd tasks (JS.parseSiNos ids) m
  | None =>
      JS.truthy (JS.trim ids) = false
      \/ forall p, In p tasks -> isPredecessor (JS.parseSiNos ids) p -> endDate p = None
  end.
Proof.
  destruct (JS.truthy (JS.trim ids)) eqn:Htext.
  2: { unfold getMaxPredecessorEndDate. rewrite Htext. simpl. by left. }
  destruct (getMaxPredecessorEndDate tasks ids) as [m|] eqn:Hmax.
  - split; [done|]. by apply getMaxPredecessorEndDate_latest.
  - right. intros p Hp [Hlive Href].
    destruct (endDate p) as [e|] eqn:He; [|done]. exfalso.
    unfold getMaxPredecessorEndDate in Hmax. rewrite Htext in Hmax. simpl in Hmax.
    destruct (JS.parseSiNos ids) as [|r refs] eqn:Hrefs; [done|].
    rewrite <- Hrefs in *.
    set (preds := List.filter _ tasks) in Hmax.
    assert (In e (omap endDate preds)) as Hin.
    { apply In_omap. exists p. split; [|done]. apply filter_In. split; [done|].
      rewrite Hlive, He. simpl. rewrite andb_true_r. by apply includes_In. }
    by destruct (omap endDate preds).
Qed.

Lemma adjustPlanned_predecessorIds isHoliday fuel t t' :
  adjustPlanned isHoliday fuel t = Some t' -> predecessorIds t' = predecessorIds t.
Proof.
  unfold adjustPlanned. destruct (startDate t); [|by intros [= <-]].
  destruct (truthyNum (duration t) && negb (bool_decide (is_Some (endDate t)))).
  { destruct (calculateEndDate _ _ _ _ _); simpl; [by intros [= <-] | done]. }
  destruct (endDate t); [|by intros [= <-]].
  destruct (negb (truthyNum (duration t))); [by intros [= <-]|].
  destruct (calculateEndDate _ _ _ _ _); simpl; [by intros [= <-] | done].
Qed.

Lemma adjustActual_predecessorIds isHoliday fuel t t' :
  adjustActual isHoliday fuel t = Some t' -> predecessorIds t' = predecessorIds t.
Proof.
  unfold adjustActual. destruct (actualStartDate t); [|by intros [= <-]].
  destruct (truthyNum (actualDuration t) && negb (bool_decide (is_Some (actualEndDate t)))).
  { destruct (calculateEndDate _ _ _ _ _); simpl; [by intros [= <-] | done]. }
  destruct (actualEndDate t); by intros [= <-].
Qed.

Lemma adjustDates_predecessorIds isHoliday fuel t t' :
  adjustDates isHoliday fuel t = Some t' -> predecessorIds t' = predecessorIds t.
Proof.
  unfold adjustDates. destruct (adjustPlanned isHoliday fuel t) as [t1|] eqn:H1; [|done].
  simpl. intros H2. apply adjustActual_predecessorIds in H2.
  apply adjustPlanned_predecessorIds in H1. congruence.
Qed.

Lemma pushStart_predecessorIds isHoliday fuel t m t' :
  pushStart isHoliday fuel t m = Some t' -> predecessorIds t' = predecessorIds t.
Proof.
  unfold pushStart. destruct (duration t) as [d|]; [destruct (0 <? d)|]; simpl.
  - destruct (calculateEndDate _ _ _ _ _); simpl; [by intros [= <-] | done].
  - destruct (endDate t); by intros [= <-].
  - destruct (endDate t); by intros [= <-].
Qed.

Lemma settleActual_predecessorIds isHoliday t :
  predecessorIds (settleActual isHoliday t) = predecessorIds t.
Proof.
  unfold settleActual.
  destruct (actualStartDate t), (actualEndDate t) eqn:He; simpl; rewrite ?He; done.
Qed.

(** X7: a task with a start date and a duration of 1 gets from
    [adjustDates] an end date equal to its start, and [validateTaskDates]
    then reports that the start date must be before the end date. *)
Theorem one_day_task_rejected (st : HolidayStore.HolidayState) (task : Task)
        (allTasks : list Task) (s : Z) :
  startDate task = Some s -> duration task = Some 1 ->
  exists t',
    converges (fun fuel => adjustDates (HolidayStore.isHoliday st) fuel task) t'
    /\ startDate t' = Some s /\ endDate t' = Some s
    /\ In "Start date must be before end date" (validateTaskDates t' allTasks).
Proof.
  intros Hs Hd.
  set (t1 := set_endDate (Some s) task).
  assert (H1 : forall fuel, adjustPlanned (HolidayStore.isHoliday st) fuel task = Some t1).
  { intros fuel. unfold adjustPlanned. rewrite Hs, Hd. simpl.
    destruct (endDate task); simpl; done. }
  destruct (adjustActual_converges _ (isHoliday_unbounded st) t1)
    as (t2 & H2 & Hs2 & He2 & _).
  unfold t1 in Hs2, He2. simpl in Hs2, He2. rewrite Hs in Hs2.
  exists t2. split; [|split; [done | split; [done|]]].
  - apply (converges_bind _ (fun x fuel => adjustActual _ fuel x) t1); [|done].
    by exists O.
  - assert ((s >=? s) = true) as Hge by (rewrite Z.geb_leb; apply Z.leb_refl).
    unfold validateTaskDates. rewrite Hs2, He2, Hge. cbv zeta iota.
    repeat case_match; simpl; auto.
Qed.

Lemma one_day_task_rejected_witness :
  let task := set_duration (Some 1) (set_startDate (Some 20094) (sampleTask "a" 1 None 0)) in
  exists t',
    converges (fun fuel => adjustDates (HolidayStore.isHoliday HolidayStore.initialState)
                             fuel task) t'
    /\ startDate t' = Some 20094 /\ endDate t' = Some 20094
    /\ In "Start date must be before end date" (validateTaskDates t' [task]).
Proof.
  apply (one_day_task_rejected HolidayStore.initialState
           (set_duration (Some 1) (set_startDate (Some 20094) (sampleTask "a" 1 None 0))));
    reflexivity.
Defined.

(** X8: for a task with a predecessor text that is neither blank
    nor the sentinel 0, whatever the state of the holiday store,
    [adjustTaskDatesWithPredecessors] returns, and [validateTaskDates] on
    its result against the same task list never reports a start that is
    not after the predecessors' end dates. *)
Theorem adjusted_start_passes_validation (st : HolidayStore.HolidayState) (task : Task)
        (allTasks : list Task) :
  hasPredecessorText task = true ->
  exists t',
    converges (fun fuel => adjustTaskDatesWithPredecessors (HolidayStore.isHoliday st)
                             fuel task allTasks) t'
    /\ ~ In "Start date must be after all predecessor end dates"
            (validateTaskDates t' allTasks).
Proof.
  intros Hhas.
  set (cal := HolidayStore.isHoliday st).
  pose proof (isHoliday_unbounded st) as Hcal. fold cal in Hcal.
  assert (Hcheck : forall t' : Task,
            predecessorIds t' = predecessorIds task ->
            (forall m s, getMaxPredecessorEndDate allTasks (default "" (predecessorIds task))
                         = Some m -> startDate t' = Some s -> m < s) ->
            ~ In "Start date must be after all predecessor end dates"
                 (validateTaskDates t' allTasks)).
  { intros t' Hids Hlate. unfold validateTaskDates. rewrite Hids.
    set (errors := match startDate t', endDate t' with
                   | Some s, Some e =>
                       if s >=? e then ["Start date must be before end date"] else []
                   | _, _ => []
                   end).
    assert (Herr : ~ In "Start date must be after all predecessor end dates" errors).
    { unfold errors. repeat case_match; simpl; intuition discriminate. }
    destruct (negb (blank (predecessorIds task))); [|done].
    destruct (startDate t') as [s|] eqn:Hs; [|done].
    destruct (getMaxPredecessorEndDate _ _) as [m|] eqn:Hmax; [|done].
    specialize (Hlate m s eq_refl eq_refl).
    destruct (Z.leb_spec s m); [lia|done]. }
  destruct (ruleApplies task allTasks) as [m|] eqn:Hrule.
  - destruct (pushStart_converges cal Hcal task m) as (t1 & Ht1 & Hs1 & _).
    destruct (adjustDates_converges cal Hcal (settleActual cal t1)) as (t' & Ht' & Hs' & _).
    exists t'. split.
    + eapply adjust_after_mutate; [by apply (mutate_applies cal task allTasks m) | done].
    + apply Hcheck.
      * destruct Ht' as [N HN]. specialize (HN N (Nat.le_refl _)).
        apply adjustDates_predecessorIds in HN. rewrite HN, settleActual_predecessorIds.
        destruct Ht1 as [N1 HN1]. specialize (HN1 N1 (Nat.le_refl _)).
        by apply pushStart_predecessorIds in HN1.
      * intros m' s Hmax Hs. rewrite Hs' in Hs.
        rewrite (proj1 (settleActual_planned cal t1)), Hs1 in Hs. injection Hs as <-.
        unfold ruleApplies in Hrule. rewrite Hmax in Hrule.
        destruct (startDate task) as [s0|]; [destruct (s0 <=? m')|]; simplify_eq; lia.
  - destruct (adjustDates_converges cal Hcal (settleActual cal task)) as (t' & Ht' & Hs' & _).
    exists t'. split.
    + eapply adjust_after_mutate; [by apply mutate_not_applies | done].
    + apply Hcheck.
      * destruct Ht' as [N HN]. specialize (HN N (Nat.le_refl _)).
        apply adjustDates_predecessorIds in HN. by rewrite HN, settleActual_predecessorIds.
      * intros m s Hmax Hs. rewrite Hs' in Hs.
        rewrite (proj1 (settleActual_planned cal task)) in Hs.
        unfold ruleApplies in Hrule. rewrite Hmax, Hs in Hrule.
        destruct (Z.leb_spec s m); [done|lia].
Qed.

Lemma adjusted_start_passes_validation_witness :
  let first := set_endDate (Some 20094) (sampleTask "a" 1 (Some "0") 0) in
  let second := set_startDate (Some 20090) (sampleTask "b" 2 (Some "1") 0) in
  exists t',
    converges (fun fuel => adjustTaskDatesWithPredecessors
                             (HolidayStore.isHoliday HolidayStore.initialState)
                             fuel second [first; second]) t'
    /\ ~ In "Start date must be after all predecessor end dates"
            (validateTaskDates t' [first; second]).
Proof.
  apply (adjusted_start_passes_validation HolidayStore.initialState
           (set_startDate (Some 20090) (sampleTask "b" 2 (Some "1") 0))).
  reflexivity.
Defined.

(** ** Schedule percentage *)

(** X9: with both dates set, [calculateSchedulePercentage] fails
    to give a number exactly when start, end and today are one and the
    same day (the division 0 / 0); in every other case its result is
    from 0 to 100. *)
Theorem calculateSchedulePercentage_range (today start end_ : Z) :
  (calculateSchedulePercentage today (Some start) (Some end_) = None
   <-> start = end_ /\ today = start)
  /\ forall p, calculateSchedulePercentage today (Some start) (Some end_) = Some p ->
               0 <= p <= 100.
Proof.
  unfold calculateSchedulePercentage.
  destruct (Z.ltb_spec today start) as [Hbefore|Hstarted].
  { split; [split; [done | lia] | intros p [= <-]; lia]. }
  destruct (Z.ltb_spec end_ today) as [Hafter|Hrunning].
  { split; [split; [done | lia] | intros p [= <-]; lia]. }
  destruct (Z.eqb_spec (end_ - start) 0) as [Hzero|Hpos].
  { split; [split; [lia | done] | done]. }
  split; [split; [done | lia]|]. intros p [= <-].
  set (x := (inject_Z (today - start) / inject_Z (end_ - start) * 100)%Q).
  assert (Hx : (0 <= x /\ x <= 100)%Q).
  { assert (Htotal : (0 < inject_Z (end_ - start))%Q).
    { change 0%Q with (inject_Z 0). rewrite <- Zlt_Qlt. lia. }
    unfold x. split.
    - apply Qmult_le_0_compat; [|done].
      apply Qle_shift_div_l; [done|].
      rewrite Qmult_0_l. change 0%Q with (inject_Z 0). rewrite <- Zle_Qle. lia.
    - apply Qle_trans with (1 * 100)%Q; [|done].
      apply Qmult_le_compat_r; [|done].
      apply Qle_shift_div_r; [done|].
      rewrite Qmult_1_l, <- Zle_Qle. lia. }
  unfold JS.round. split.
  - change 0 with (Qfloor 0). apply Qfloor_resp_le.
    apply Qle_trans with x; [tauto|].
    rewrite <- (Qplus_0_r x) at 1. by apply Qplus_le_r.
  - change 100 with (Qfloor (100 + (1 # 2))). apply Qfloor_resp_le.
    apply Qplus_le_l. tauto.
Qed.

(** ** The options of the work calendar *)

(** X10: from the initial state of the holiday store, after any
    sequence of toggles and replacements of the holiday list, the options
    for all Saturdays and for even Saturdays are never both switched on. *)
Theorem saturday_options_exclusive (actions : list HolidayActions.Action) :
  let state := foldl HolidayActions.run HolidayStore.initialState actions in
  HolidayStore.excludeAllSaturdays state && HolidayStore.excludeEvenSaturdays state = false.
Proof.
  simpl.
  assert (Hinit : HolidayStore.excludeAllSaturdays HolidayStore.initialState
                  && HolidayStore.excludeEvenSaturdays HolidayStore.initialState = false)
    by reflexivity.
  revert Hinit. generalize HolidayStore.initialState.
  induction actions as [|a actions IH]; intros state Hinv; simpl; [done|].
  apply IH. destruct a; simpl; try done.
  - by destruct (HolidayStore.excludeAllSaturdays state),
               (HolidayStore.excludeEvenSaturdays state).
  - by destruct (HolidayStore.excludeAllSaturdays state),
               (HolidayStore.excludeEvenSaturdays state).
Qed.

(** X11: toggling the option for all Saturdays twice gives the
    state back exactly when the option for even Saturdays was off:
    switching all Saturdays on clears the even Saturdays for good. *)
Theorem toggleAllSaturdays_twice (state : HolidayStore.HolidayState) :
  HolidayActions.toggleAllSaturdays (HolidayActions.toggleAllSaturdays state) = state
  <-> HolidayStore.excludeEvenSaturdays state = false.
Proof.
  destruct state as [sun sat even auto opt hol].
  unfold HolidayActions.toggleAllSaturdays. simpl.
  destruct sat, even; simpl; split; (done || intros [=]).
Qed.

(** ** History *)

Lemma slice_init {A : Type} (l : list A) (x : A) :
  JS.slice 0 (Z.of_nat (length (l ++ [x])) - 1) (l ++ [x]) = l.
Proof.
  unfold JS.slice, JS.normIndex. rewrite length_app. simpl.
  destruct (Z.ltb_spec 0 0); [lia|].
  destruct (Z.ltb_spec (Z.of_nat (length l + 1) - 1) 0); [lia|].
  rewrite Z.min_l by lia. rewrite Z.min_l by lia.
  replace (Z.to_nat 0) with O by lia. rewrite drop_0.
  replace (Z.to_nat (Z.of_nat (length l + 1) - 1 - 0)) with (length l) by lia.
  by rewrite take_app_length.
Qed.

Lemma sliceFrom_tail {A : Type} (l : list A) (x : A) : JS.sliceFrom 1 (x :: l) = l.
Proof.
  unfold JS.sliceFrom, JS.slice, JS.normIndex. simpl length.
  destruct (Z.ltb_spec 1 0); [lia|].
  destruct (Z.ltb_spec (Z.of_nat (S (length l))) 0); [lia|].
  rewrite Z.min_l by lia. rewrite Z.min_l by lia.
  replace (Z.to_nat (Z.of_nat (S (length l)) - 1)) with (length l) by lia.
  replace (Z.to_nat 1) with 1%nat by lia.
  change (drop 1 (x :: l)) with l. by rewrite take_ge.
Qed.

Lemma last_snoc_inv {A : Type} (l : list A) (x : A) :
  last l = Some x -> exists l', l = l' ++ [x].
Proof.
  induction l as [|y l' _] using rev_ind; [done|].
  rewrite last_snoc. intros [= ->]. by exists l'.
Qed.

(** X12: on an empty undo stack [undo] changes nothing, otherwise
    [redo] after [undo] gives the state back; on an empty redo stack
    [redo] changes nothing, otherwise [undo] after [redo] gives the state
    back. *)
Theorem undo_redo (state : Store.TaskState) :
  match Store.undoStack state with
  | [] => Store.undo state = state
  | _ => Store.redo (Store.undo state) = state
  end
  /\ match Store.redoStack state with
     | [] => Store.redo state = state
     | _ => Store.undo (Store.redo state) = state
     end.
Proof.
  destruct state as [tasks sel selecting undoStack redoStack active]. split; simpl.
  - destruct undoStack as [|u rest] eqn:Hu; [done|]. rewrite <- Hu.
    assert (undoStack <> []) as Hne by by rewrite Hu.
    clear Hu u rest.
    unfold Store.undo. simpl.
    destruct (last undoStack) as [prev|] eqn:Hlast.
    2: { by apply last_None in Hlast. }
    apply last_snoc_inv in Hlast as [init ->].
    unfold Store.redo. simpl. by rewrite slice_init, sliceFrom_tail.
  - destruct redoStack as [|next redoStack]; [done|].
    unfold Store.redo, Store.undo. simpl Store.undoStack. rewrite last_snoc. simpl.
    by rewrite sliceFrom_tail, slice_init.
Qed.

(** X13: after [moveUp] of the store (whether or not the task
    moved), [undo] brings back the task list and the undo stack of
    before, leaves the moved list as the only entry of the redo stack,
    and a [redo] then gives the state after the move again. *)
Theorem moveUp_undo (state : Store.TaskState) (taskId : string) :
  let moved := Store.moveUp state taskId in
  Store.tasks (Store.undo moved) = Store.tasks state
  /\ Store.undoStack (Store.undo moved) = Store.undoStack state
  /\ Store.redoStack (Store.undo moved) = [Store.tasks moved]
  /\ Store.redo (Store.undo moved) = moved.
Proof.
  destruct state as [tasks sel selecting undoStack redoStack active].
  unfold Store.moveUp, Store.commit, Store.undo. simpl. rewrite last_snoc. simpl.
  rewrite slice_init. split; [done|]. split; [done|]. split; [done|].
  unfold Store.redo. simpl. by rewrite sliceFrom_tail.
Qed.

(** ** Overlaps *)

Lemma groupAt_push (l : Z) (task : Task) (groups : list (Z * list Task)) :
  groupAt l (pushToLevel task groups)
  = if level task =? l then groupAt l groups ++ [task] else groupAt l groups.
Proof.
  unfold groupAt. induction groups as [|[k g] groups IH]; simpl.
  - by destruct (level task =? l).
  - destruct (Z.eqb_spec k (level task)) as [->|Hne]; simpl.
    + by destruct (level task =? l).
    + destruct (Z.eqb_spec k l) as [->|Hkl]; simpl; [|done].
      by destruct (Z.eqb_spec (level task) l) as [Heq|]; [congruence|].
Qed.

Lemma keys_push (task : Task) (groups : list (Z * list Task)) (k : Z) :
  In k (fst <$> pushToLevel task groups) <-> k = level task \/ In k (fst <$> groups).
Proof.
  induction groups as [|[k' g] groups IH]; csimpl; [intuition|].
  destruct (Z.eqb_spec k' (level task)) as [->|Hne]; csimpl; [intuition|].
  rewrite IH. intuition.
Qed.

Lemma NoDup_push (task : Task) (groups : list (Z * list Task)) :
  List.NoDup (fst <$> groups) -> List.NoDup (fst <$> pushToLevel task groups).
Proof.
  induction groups as [|[k g] groups IH]; csimpl.
  - intros _. constructor; [intros []|constructor].
  - intros Hnd. inversion Hnd as [|? ? Hnotin Hnd']; subst.
    destruct (Z.eqb_spec k (level task)) as [->|Hne]; csimpl.
    + by constructor.
    + constructor; [|by apply IH]. rewrite keys_push. intuition.
Qed.

Lemma levelGroups_fold (tasks : list Task) : forall groups,
  List.NoDup (fst <$> groups) ->
  let result := foldl (fun levelGroups task => pushToLevel task levelGroups) groups tasks in
  List.NoDup (fst <$> result)
  /\ forall l, groupAt l result
               = groupAt l groups ++ List.filter (fun t => level t =? l) tasks.
Proof.
  induction tasks as [|t tasks IH]; intros groups Hnd; simpl.
  - split; [done|]. intros l. by rewrite app_nil_r.
  - destruct (IH (pushToLevel t groups) (NoDup_push t groups Hnd)) as [Hnd' Hat].
    split; [done|]. intros l. rewrite Hat, groupAt_push.
    destruct (level t =? l); [by rewrite <- app_assoc | done].
Qed.

Lemma groupAt_entry (groups : list (Z * list Task)) (l : Z) (g : list Task) :
  List.NoDup (fst <$> groups) -> In (l, g) groups -> groupAt l groups = g.
Proof.
  unfold groupAt. induction groups as [|[k g'] groups IH]; csimpl; [done|].
  intros Hnd. inversion Hnd as [|? ? Hnotin Hnd']; subst.
  intros [[= -> ->]|Hin].
  - by rewrite Z.eqb_refl.
  - destruct (Z.eqb_spec k l) as [->|Hne]; simpl; [|by apply IH].
    exfalso. apply Hnotin. change l with (fst (l, g)). by apply in_map.
Qed.

Lemma entry_groupAt (groups : list (Z * list Task)) (l : Z) :
  groupAt l groups <> [] -> exists entry, In entry groups /\ snd entry = groupAt l groups.
Proof.
  unfold groupAt. destruct (find _ groups) as [entry|] eqn:Hfind; simpl; [|done].
  intros _. exists entry. apply find_some in Hfind as [Hin _]. done.
Qed.

Lemma filter_nil_Forall {A : Type} (p : A -> bool) (l : list A) :
  List.filter p l = [] <-> Forall (fun x => p x = false) l.
Proof.
  induction l as [|a l IH]; simpl; [split; [constructor | done]|].
  destruct (p a) eqn:Hp.
  - split; [done|]. intros H. inversion H; congruence.
  - rewrite IH. split; [by constructor | intros H; by inversion H].
Qed.

Lemma groupOverlaps_nil (group : list Task) :
  groupOverlaps group = [] <-> ForallOrdPairs (fun a b => overlap a b = false) group.
Proof.
  induction group as [|a group IH]; simpl; [split; [constructor | done]|].
  split.
  - intros H. apply app_eq_nil in H as [Hfirst Hrest].
    apply fmap_nil_inv in Hfirst. constructor; [by apply filter_nil_Forall | by apply IH].
  - intros H. inversion H as [|? ? Hfirst Hrest]; subst.
    apply filter_nil_Forall in Hfirst. rewrite Hfirst. simpl. by apply IH.
Qed.

Lemma ForallOrdPairs_filter {A : Type} (R : A -> A -> Prop) (p : A -> bool) (l : list A) :
  ForallOrdPairs R (List.filter p l)
  <-> ForallOrdPairs (fun a b => p a = true -> p b = true -> R a b) l.
Proof.
  induction l as [|a l IH]; simpl; [split; constructor|].
  destruct (p a) eqn:Hp; split.
  - intros H. inversion H as [|? ? Hfirst Hrest]; subst. constructor; [|by apply IH].
    apply List.Forall_forall. intros b Hb _ Hpb.
    rewrite List.Forall_forall in Hfirst. by apply Hfirst, filter_In.
  - intros H. inversion H as [|? ? Hfirst Hrest]; subst. constructor; [|by apply IH].
    apply List.Forall_forall. intros b Hb. apply filter_In in Hb as [Hb Hpb].
    rewrite List.Forall_forall in Hfirst. by apply Hfirst.
  - intros H. constructor; [|by apply IH].
    apply List.Forall_forall. intros b _ Hfalse. congruence.
  - intros H. inversion H; subst. by apply IH.
Qed.

Lemma ForallOrdPairs_mono {A : Type} (R R' : A -> A -> Prop) (l : list A) :
  (forall a b, R a b -> R' a b) -> ForallOrdPairs R l -> ForallOrdPairs R' l.
Proof.
  intros Himp. induction 1 as [|a l Hfirst _ IH]; constructor; [|done].
  eapply List.Forall_impl; [|exact Hfirst]. intros b. apply Himp.
Qed.

Lemma ForallOrdPairs_all {A X : Type} (R : X -> A -> A -> Prop) (l : list A) :
  (forall x, ForallOrdPairs (R x) l) -> ForallOrdPairs (fun a b => forall x, R x a b) l.
Proof.
  induction l as [|a l IH]; intros H; constructor.
  - apply List.Forall_forall. intros b Hb x. specialize (H x).
    inversion H as [|? ? Hfirst _]; subst. rewrite List.Forall_forall in Hfirst.
    by apply Hfirst.
  - apply IH. intros x. specialize (H x). by inversion H.
Qed.

Lemma flat_map_nil {A B : Type} (f : A -> list B) (l : list A) :
  flat_map f l = [] <-> forall x, In x l -> f x = [].
Proof.
  induction l as [|a l IH]; simpl; [done|]. split.
  - intros H x [<-|Hin]; apply app_eq_nil in H as [H1 H2]; [done | by apply IH].
  - intros H. rewrite (H a) by by left. simpl. apply IH. intros x Hin. apply H. by right.
Qed.

(** X14: [detectOverlaps] reports nothing exactly when no task
    overlaps a later task of its own level, where two tasks overlap when
    both have both planned dates and each starts before the other ends. *)
Theorem detectOverlaps_none (tasks : list Task) :
  detectOverlaps tasks = []
  <-> ForallOrdPairs (fun a b => level a = level b -> overlap a b = false) tasks.
Proof.
  unfold detectOverlaps, levelGroupsOf.
  destruct (levelGroups_fold tasks [] (List.NoDup_nil _)) as [Hnd Hat].
  set (groups := foldl _ [] tasks) in *. simpl in Hat.
  rewrite flat_map_nil. split.
  - intros Hgroups.
    apply (ForallOrdPairs_mono
             (fun a b => forall l, (level a =? l) = true -> (level b =? l) = true ->
                                   overlap a b = false)).
    { intros a b H Hlevel. apply (H (level a)); [apply Z.eqb_refl|].
      rewrite Hlevel. apply Z.eqb_refl. }
    apply ForallOrdPairs_all. intros l.
    apply (ForallOrdPairs_filter _ (fun t => level t =? l)).
    rewrite <- Hat. apply groupOverlaps_nil.
    destruct (groupAt l groups) as [|a g] eqn:Hg; [done|]. rewrite <- Hg.
    destruct (entry_groupAt groups l) as (entry & Hin & <-); [by rewrite Hg|].
    by apply Hgroups.
  - intros Hpairs [l g] Hin. simpl.
    rewrite <- (groupAt_entry groups l g Hnd Hin), Hat.
    apply groupOverlaps_nil, ForallOrdPairs_filter.
    eapply ForallOrdPairs_mono; [|exact Hpairs].
    intros a b H Ha Hb. apply H. apply Z.eqb_eq in Ha, Hb. congruence.
Qed.

(** ** Propagation: termination *)

(** X15: on a task list with distinct ids that holds the updated
    task, [updateDependentTasks] returns, also when the predecessor
    references form a cycle.  The result has as many tasks as the list,
    and each has the id, the level and the deletion mark of the task at
    its place in the list with the updated task put in. *)
Theorem updateDependentTasks_returns (state : HolidayStore.HolidayState)
        (tasks : list Task) (i : nat) (task updatedTask : Task) :
  NoDup (id <$> tasks) -> tasks !! i = Some task -> id updatedTask = id task ->
  exists newTasks,
    converges (fun fuel => updateDependentTasks (HolidayStore.isHoliday state) fuel
                             tasks updatedTask) newTasks
    /\ length newTasks = length tasks
    /\ forall j t, newTasks !! j = Some t ->
         exists b, <[i := updatedTask]> tasks !! j = Some b /\ skeleton t = skeleton b.
Proof.
  intros Hnd Hi Hid.
  set (isHoliday := HolidayStore.isHoliday state).
  pose proof (isHoliday_unbounded state) as Hcal. fold isHoliday in Hcal.
  pose proof (lookup_lt_Some _ _ _ Hi) as Hlt.
  set (base := <[i := updatedTask]> tasks).
  assert (Hids : id <$> base = id <$> tasks).
  { unfold base. rewrite list_fmap_insert, Hid. apply list_insert_id.
    by rewrite list_lookup_fmap, Hi. }
  assert (Hndb : NoDup (id <$> base)) by by rewrite Hids.
  set (target := fresh (list_to_set (id <$> tasks) : gset string)).
  assert (Hfresh : forall o, In o base -> id o <> target).
  { intros o Ho Heq.
    apply (is_fresh (list_to_set (id <$> tasks) : gset string)). fold target.
    rewrite <- Heq, <- Hids. apply elem_of_list_to_set, list_elem_of_fmap.
    exists o. split; [done | by apply list_elem_of_In]. }
  set (st0 := mkPropagation (tasks ++ [updatedTask])
                            (<[i := length tasks]> (seq 0 (length tasks))) ∅).
  assert (Hinv0 : propagationInv base i target st0).
  { split; [|split; [|split]]; simpl.
    - unfold base. by rewrite !length_insert, length_seq.
    - rewrite length_app. lia.
    - intros j r Hj. destruct (decide (j = i)) as [->|Hne].
      + rewrite list_lookup_insert_eq in Hj by by rewrite length_seq.
        injection Hj as <-. split; [lia|]. exists updatedTask, updatedTask.
        split; [|split; [|done]].
        * by rewrite lookup_app_r, Nat.sub_diag.
        * unfold base. by rewrite list_lookup_insert_eq.
      + rewrite list_lookup_insert_ne in Hj by done.
        apply lookup_seq in Hj as [-> Hjlt]. simpl. split; [done|].
        destruct (lookup_lt_is_Some_2 tasks j Hjlt) as [o Ho].
        exists o, o. split; [by rewrite lookup_app_l|]. split; [|done].
        unfold base. by rewrite list_lookup_insert_ne.
    - intros r o Hr Hne.
      assert (In o base) as Hbase.
      { destruct (decide (r < length tasks)%nat) as [Hrlt|Hrge].
        - rewrite lookup_app_l in Hr by done.
          apply list_elem_of_In, list_elem_of_lookup.
          exists r. unfold base. by rewrite list_lookup_insert_ne.
        - rewrite lookup_app_r in Hr by lia.
          destruct (r - length tasks)%nat; simpl in Hr; [|done]. injection Hr as <-.
          apply list_elem_of_In, list_elem_of_lookup. exists i.
          unfold base. by rewrite list_lookup_insert_eq. }
      split; [by exists o|]. intros Heq. by destruct (Hfresh o Hbase). }
  destruct (updateDependents_converges isHoliday Hcal base i target Hndb
              (size (list_to_set (id <$> base) ∖ processedTasks st0 : gset string))
              (id updatedTask) st0) as (st' & [N HN] & Hinv' & _); [done | | done |].
  { rewrite Hids, Hid. apply list_elem_of_lookup_2 in Hi.
    apply elem_of_list_to_set, list_elem_of_fmap. by exists task. }
  exists (deref (objects st') (updatedTasks st')).
  pose proof Hinv' as (Hlen & _ & Hrefs & Hobjs).
  split; [|split].
  - exists N. intros fuel Hle. unfold updateDependentTasks.
    rewrite Hid, (findIndex_hasId tasks i task) by done.
    fold st0. rewrite <- Hid, HN by done. done.
  - rewrite (deref_length _ _ (inv_valid base i target st' Hinv')), Hlen.
    unfold base. by rewrite length_insert.
  - intros j t Hj.
    destruct (inv_deref base i target st' j t Hinv' Hj) as (r & b & _ & _ & _ & Hb & Hsk).
    by exists b.
Qed.

Lemma updateDependentTasks_returns_witness :
  let first := set_predecessorIds (Some "2") (sampleTask "a" 1 None 0) in
  let second := set_predecessorIds (Some "1") (sampleTask "b" 2 None 0) in
  let updated := set_endDate (Some 20094) first in
  exists newTasks,
    converges (fun fuel => updateDependentTasks
                             (HolidayStore.isHoliday HolidayStore.initialState) fuel
                             [first; second] updated) newTasks
    /\ length newTasks = 2%nat
    /\ forall j t, newTasks !! j = Some t ->
         exists b, <[0%nat := updated]> [first; second] !! j = Some b
                   /\ skeleton t = skeleton b.
Proof.
  apply (updateDependentTasks_returns HolidayStore.initialState
           [set_predecessorIds (Some "2") (sampleTask "a" 1 None 0);
            set_predecessorIds (Some "1") (sampleTask "b" 2 None 0)]
           0%nat (set_predecessorIds (Some "2") (sampleTask "a" 1 None 0)));
    [| reflexivity | reflexivity].
  apply (bool_decide_unpack _). vm_compute. reflexivity.
Defined.

(** ** Ancestors *)




(** ** Ordinals after a deletion and after an insertion *)

Lemma liveSiNos_app (l1 l2 : list Task) : liveSiNos (l1 ++ l2) = liveSiNos l1 ++ liveSiNos l2.
Proof. unfold liveSiNos. by rewrite List.filter_app, fmap_app. Qed.

Lemma liveSiNos_cons (t : Task) (l : list Task) :
  liveSiNos (t :: l) = if isDeleted t then liveSiNos l else siNo t :: liveSiNos l.
Proof. unfold liveSiNos. simpl. by destruct (isDeleted t). Qed.

Lemma filter_length_Permutation {A : Type} (p : A -> bool) (l l' : list A) :
  l ≡ₚ l' -> length (List.filter p l) = length (List.filter p l').
Proof.
  induction 1 as [|x l l' _ IH|x y l|l l' l'' _ IH1 _ IH2]; simpl.
  - done.
  - destruct (p x); simpl; by rewrite IH.
  - by destruct (p x), (p y).
  - congruence.
Qed.

Lemma renumberLoop_live (sortedTasks : list Task) (deletedSiNos : list Z)
      (todo : list Task) : forall nextSiNo,
  (forall t, In t todo -> In (siNo t) deletedSiNos -> isDeleted t = true) ->
  liveSiNos (renumberLoop sortedTasks deletedSiNos todo nextSiNo)
  = seqZ nextSiNo (Z.of_nat (length (liveSiNos todo))).
Proof.
  induction todo as [|t todo IH]; intros nextSiNo Hdel; [done|].
  assert (Hrest : forall t', In t' todo -> In (siNo t') deletedSiNos -> isDeleted t' = true)
    by (intros t' Ht'; apply Hdel; by right).
  cbn [renumberLoop]. rewrite (liveSiNos_cons t todo). destruct (isDeleted t) eqn:Ht.
  - cbn [orb]. rewrite liveSiNos_cons, Ht. by apply IH.
  - destruct (JS.includes (siNo t) deletedSiNos) eqn:Hinc.
    { apply includes_In in Hinc. rewrite (Hdel t) in Ht by (by left || done). done. }
    cbn [orb]. rewrite liveSiNos_cons. cbn [isDeleted set_predecessorIds set_siNo siNo].
    rewrite Ht, IH by done.
    rewrite length_cons, (seqZ_cons nextSiNo) by lia. f_equal. f_equal. lia.
Qed.

Lemma updateSiNumbersAfterDeletion_live (tasks : list Task) (deletedSiNos : list Z) :
  (forall t, In t tasks -> In (siNo t) deletedSiNos -> isDeleted t = true) ->
  liveSiNos (updateSiNumbersAfterDeletion tasks deletedSiNos)
  = seqZ 1 (Z.of_nat (length (liveSiNos tasks))).
Proof.
  intros Hdel. unfold updateSiNumbersAfterDeletion.
  rewrite renumberLoop_live.
  - f_equal. f_equal. unfold liveSiNos. rewrite !length_fmap.
    apply filter_length_Permutation, sort_Permutation.
  - intros t Ht. apply Hdel. by apply In_sort in Ht.
Qed.

(** X17: when every task whose ordinal is listed as deleted is
    marked deleted, [updateSiNumbersAfterDeletion] leaves the tasks that
    are not deleted with the ordinals 1..N, in list order. *)
Theorem updateSiNumbersAfterDeletion_dense (tasks : list Task) (deletedSiNos : list Z) :
  (forall t, In t tasks -> In (siNo t) deletedSiNos -> isDeleted t = true) ->
  liveSiNos (updateSiNumbersAfterDeletion tasks deletedSiNos)
  = seqZ 1 (Z.of_nat (length (liveSiNos tasks))).
Proof. apply updateSiNumbersAfterDeletion_live. Qed.

Lemma updateSiNumbersAfterDeletion_dense_witness :
  let tasks := [sampleTask "a" 1 None 0; set_isDeleted true (sampleTask "b" 2 None 0);
                sampleTask "c" 3 (Some "1") 0; sampleTask "d" 4 (Some "3") 0] in
  liveSiNos (updateSiNumbersAfterDeletion tasks [2])
  = seqZ 1 (Z.of_nat (length (liveSiNos tasks))).
Proof.
  apply updateSiNumbersAfterDeletion_dense.
  intros t Ht Hsi. simpl in Ht, Hsi.
  destruct Ht as [<-|[<-|[<-|[<-|[]]]]]; simpl in Hsi;
    destruct Hsi as [Hsi|[]]; (reflexivity || discriminate Hsi).
Defined.

(** *** The passes that end a mutation keep ordinals and deletion marks *)

(** What counts for the ordinals of a list: of each task the id, the
    ordinal and the deletion mark. *)
Local Abbreviation ordinal := (fun t : Task => (id t, siNo t, isDeleted t)).

Lemma liveSiNos_ordinals (l l' : list Task) :
  ordinal <$> l = ordinal <$> l' -> liveSiNos l = liveSiNos l'.
Proof.
  revert l'. induction l as [|t l IH]; intros [|t' l']; try done.
  csimpl. intros [= _ Hsi Hd Hrest]. by rewrite !liveSiNos_cons, Hd, Hsi, (IH l' Hrest).
Qed.

Lemma updateById_ordinals (taskId : string) (f : Task -> Task) (l : list Task) :
  (forall t, ordinal (f t) = ordinal t) ->
  ordinal <$> updateById taskId f l = ordinal <$> l.
Proof.
  intros Hf. unfold updateById.
  destruct (JS.findIndex (hasId taskId) l) as [i|]; [|done].
  destruct (l !! i) as [t|] eqn:Ht; [|done].
  rewrite list_fmap_insert, Hf. apply list_insert_id. by rewrite list_lookup_fmap, Ht.
Qed.

Lemma fold_aggregate_ordinals (guard : Task -> bool) (derive : list Task -> Task -> Task)
      (todo : list Task) : forall l,
  (forall children t, ordinal (derive children t) = ordinal t) ->
  ordinal <$> foldl (fun updatedTasks task =>
                       if guard task then aggregate derive updatedTasks task
                       else updatedTasks) l todo
  = ordinal <$> l.
Proof.
  induction todo as [|p todo IH]; intros l Hderive; simpl; [done|].
  rewrite IH by done. destruct (guard p); [|done].
  unfold aggregate. destruct (liveChildren p l); [done|].
  by apply updateById_ordinals.
Qed.

Lemma updateWbsNumbers_ordinals (l : list Task) :
  ordinal <$> updateWbsNumbers l = ordinal <$> l.
Proof.
  unfold updateWbsNumbers. rewrite <- list_fmap_compose.
  apply list_fmap_ext. intros _ t _. simpl.
  destruct (isDeleted t) eqn:Hd; [by rewrite Hd|].
  destruct (_ !! id t) as [w|]; [destruct (JS.truthy w)|]; simpl; by rewrite ?Hd.
Qed.

Lemma recompute_ordinals (isHoliday : Z -> bool) (l : list Task) :
  ordinal <$> recompute isHoliday l = ordinal <$> l.
Proof.
  unfold recompute.
  assert (H1 : ordinal <$> updateParentStatus l = ordinal <$> l).
  { unfold updateParentStatus. rewrite <- list_fmap_compose.
    apply list_fmap_ext. intros _ t _. simpl.
    by destruct (JS.findIndex (hasId (id t)) l). }
  assert (H2 : forall l0, ordinal <$> updateParentDates isHoliday l0 = ordinal <$> l0).
  { intros l0. unfold updateParentDates, datesStep.
    by apply (fold_aggregate_ordinals isParent (deriveDates isHoliday)). }
  assert (H3 : forall l0, ordinal <$> updateParentProgress l0 = ordinal <$> l0).
  { intros l0. unfold updateParentProgress, progressStep.
    apply (fold_aggregate_ordinals (fun _ => true)
             (fun children => set_progress (averageProgress children))). done. }
  by rewrite updateWbsNumbers_ordinals, H3, H2, H1.
Qed.

Lemma seqZ_app_inv (l1 l2 : list Z) (m n : Z) :
  l1 ++ l2 = seqZ m n ->
  l1 = seqZ m (Z.of_nat (length l1))
  /\ l2 = seqZ (m + Z.of_nat (length l1)) (Z.of_nat (length l2)).
Proof.
  intros H.
  assert (Hlen : Z.to_nat n = (length l1 + length l2)%nat).
  { by rewrite <- (length_seqZ m n), <- H, length_app. }
  assert (Hn : seqZ m n = seqZ m (Z.of_nat (length l1) + Z.of_nat (length l2))).
  { destruct (Z.le_gt_cases n 0).
    - rewrite (seqZ_nil m n) by done. rewrite (seqZ_nil m); [done|lia].
    - f_equal. lia. }
  rewrite Hn, seqZ_app in H by lia.
  apply app_inj_1 in H; [done|]. rewrite length_seqZ. lia.
Qed.

(** X18: when the tasks that are not deleted have the ordinals
    1..N in list order, [addTaskAfter] behind one of them leaves the
    tasks that are not deleted with the ordinals 1..N+1. *)
Theorem addTaskAfter_dense (isHoliday : Z -> bool) (tasks : list Task)
        (afterTaskId newId : string) (i : nat) (afterTask : Task) (N : Z) :
  JS.findIndex (hasId afterTaskId) tasks = Some i -> tasks !! i = Some afterTask ->
  isDeleted afterTask = false ->
  liveSiNos tasks = seqZ 1 N ->
  liveSiNos (addTaskAfter isHoliday tasks afterTaskId newId) = seqZ 1 (N + 1).
Proof.
  intros Hi Hafter Hlive Hdense. unfold addTaskAfter. rewrite Hi, Hafter.
  rewrite (liveSiNos_ordinals _ _ (recompute_ordinals isHoliday _)).
  rewrite <- (take_drop (S i) tasks) in Hdense.
  rewrite (take_S_r tasks i afterTask Hafter) in Hdense |- *.
  assert (Hone : liveSiNos [afterTask] = [siNo afterTask]).
  { unfold liveSiNos. simpl. by rewrite Hlive. }
  rewrite !liveSiNos_app, Hone in Hdense.
  rewrite !liveSiNos_app, Hone.
  change (liveSiNos [newTaskAfter newId afterTask]) with [siNo afterTask + 1].
  set (before := liveSiNos (take i tasks)) in *.
  assert (Hshift : liveSiNos (shiftAfterInsert (siNo (newTaskAfter newId afterTask))
                                <$> drop (S i) tasks)
                   = Z.add 1 <$> liveSiNos (drop (S i) tasks)).
  { generalize (drop (S i) tasks). intros l.
    induction l as [|t l IH]; [done|]. rewrite fmap_cons, !liveSiNos_cons.
    cbn [isDeleted shiftAfterInsert set_predecessorIds set_siNo siNo].
    destruct (isDeleted t); [done|]. rewrite fmap_cons, IH. f_equal. lia. }
  rewrite Hshift. clear Hshift Hone.
  set (after := liveSiNos (drop (S i) tasks)) in *.
  pose proof Hdense as Hlen. apply (f_equal length) in Hlen.
  rewrite length_seqZ, !length_app in Hlen. simpl in Hlen.
  rewrite <- app_assoc in Hdense.
  apply seqZ_app_inv in Hdense as [Hbefore Hrest].
  apply (seqZ_app_inv [siNo afterTask]) in Hrest as [Hself Hafter'].
  simpl in Hself, Hafter'. rewrite seqZ_cons in Hself by lia.
  injection Hself as Hself.
  rewrite Hbefore, Hafter', Hself at 1.
  rewrite fmap_add_seqZ.
  replace (N + 1) with ((Z.of_nat (length before) + 1) + (1 + Z.of_nat (length after)))
    by lia.
  rewrite (seqZ_app 1) by lia. f_equal.
  - rewrite (seqZ_app 1) by lia. f_equal.
  - rewrite (seqZ_cons (1 + (Z.of_nat (length before) + 1))) by lia.
    simpl. f_equal; [lia|]. f_equal; lia.
Qed.

Lemma addTaskAfter_dense_witness :
  let tasks := [set_isDeleted true (sampleTask "x" 1 None 0); sampleTask "a" 1 None 0;
                sampleTask "b" 2 (Some "1") 0] in
  liveSiNos (addTaskAfter (HolidayStore.isHoliday HolidayStore.initialState) tasks "a" "n")
  = seqZ 1 (2 + 1).
Proof.
  apply (addTaskAfter_dense _ _ "a" "n" 1%nat (sampleTask "a" 1 None 0)); reflexivity.
Defined.

(** ** Deleting a task *)

(** With distinct ids, [updateById] changes every task that has the id. *)
Lemma updateById_fmap (taskId : string) (f : Task -> Task) (l : list Task) :
  NoDup (id <$> l) ->
  updateById taskId f l = (fun t => if hasId taskId t then f t else t) <$> l.
Proof.
  intros Hnd. unfold updateById.
  destruct (JS.findIndex (hasId taskId) l) as [i|] eqn:Hi.
  - destruct (findIndex_Some _ _ _ Hi) as (t & Ht & Hid & _). rewrite Ht.
    apply list_eq. intros j. rewrite list_lookup_fmap.
    destruct (decide (j = i)) as [->|Hne].
    + rewrite list_lookup_insert_eq by by eapply lookup_lt_Some.
      by rewrite Ht; simpl; rewrite Hid.
    + rewrite list_lookup_insert_ne by done.
      destruct (l !! j) as [t'|] eqn:Ht'; [|done]. simpl.
      destruct (hasId taskId t') eqn:Hid'; [|done]. exfalso. apply Hne.
      apply (NoDup_ids_lookup l j i t' t Hnd Ht' Ht).
      unfold hasId in *. apply String.eqb_eq in Hid, Hid'. congruence.
  - pose proof (findIndex_None _ _ Hi) as Hnone.
    apply list_eq. intros j. rewrite list_lookup_fmap.
    destruct (l !! j) as [t'|] eqn:Ht'; [|done]. simpl.
    rewrite Hnone; [done|]. apply list_elem_of_In. by eapply list_elem_of_lookup_2.
Qed.

(** Marking the tasks with one of the ids as deleted. *)
Local Abbreviation mark :=
  (fun (ids : list string) (t : Task) =>
     if bool_decide (id t ∈ ids) then set_isDeleted true t else t).

Lemma mark_cons (c : string) (ids : list string) (t : Task) :
  mark ids (if hasId c t then set_isDeleted true t else t) = mark (c :: ids) t.
Proof.
  unfold hasId. destruct (String.eqb_spec (id t) c) as [Heq|Hne]; cbn [id set_isDeleted].
  - rewrite (bool_decide_eq_true_2 (id t ∈ c :: ids)) by (rewrite Heq; set_solver).
    by case_bool_decide.
  - repeat case_bool_decide; (done || set_solver).
Qed.

Lemma markDeleted_all (children : list Task) : forall l,
  NoDup (id <$> l) ->
  foldl (fun l child => markDeleted l (id child)) l children
  = mark (id <$> children) <$> l.
Proof.
  induction children as [|c children IH]; intros l Hnd.
  - cbn [foldl]. rewrite <- (list_fmap_id l) at 1. apply list_fmap_ext. intros _ t _.
    rewrite fmap_nil. by rewrite bool_decide_eq_false_2 by set_solver.
  - cbn [foldl]. unfold markDeleted at 2. rewrite updateById_fmap by done.
    rewrite IH.
    2: { rewrite <- list_fmap_compose. erewrite list_fmap_ext; [exact Hnd|].
         intros _ t _. simpl. by destruct (hasId (id c) t). }
    rewrite <- list_fmap_compose, fmap_cons. apply list_fmap_ext. intros _ t _.
    apply mark_cons.
Qed.

Lemma live_same_ordinal (tasks : list Task) (a b : Task) :
  NoDup (liveSiNos tasks) -> In a tasks -> In b tasks ->
  isDeleted a = false -> isDeleted b = false -> siNo a = siNo b -> a = b.
Proof.
  intros Hnd Ha Hb Hla Hlb Heq. unfold liveSiNos in Hnd.
  assert (In a (List.filter (fun t => negb (isDeleted t)) tasks)) as Ha'
    by (apply filter_In; by rewrite Hla).
  assert (In b (List.filter (fun t => negb (isDeleted t)) tasks)) as Hb'
    by (apply filter_In; by rewrite Hlb).
  apply list_elem_of_In, list_elem_of_lookup in Ha' as [i Hi].
  apply list_elem_of_In, list_elem_of_lookup in Hb' as [j Hj].
  assert (i = j) as ->.
  { apply (NoDup_lookup _ i j (siNo a) Hnd); rewrite list_lookup_fmap.
    - by rewrite Hi.
    - by rewrite Hj, Heq. }
  congruence.
Qed.

Lemma find_findIndex {A : Type} (p : A -> bool) (l : list A) (i : nat) (x : A) :
  JS.findIndex p l = Some i -> l !! i = Some x -> find p l = Some x.
Proof.
  revert i. induction l as [|a l IH]; intros i; simpl; [done|].
  destruct (p a).
  - by intros [= <-] [= ->].
  - destruct (JS.findIndex p l) as [i'|]; [|done]. simpl. intros [= <-]. simpl.
    by apply IH.
Qed.

Lemma renumberLoop_In (sortedTasks : list Task) (deletedSiNos : list Z)
      (todo : list Task) : forall nextSiNo t,
  In t (renumberLoop sortedTasks deletedSiNos todo nextSiNo) ->
  exists t0, In t0 todo /\ id t = id t0 /\ isDeleted t = isDeleted t0.
Proof.
  induction todo as [|a todo IH]; intros nextSiNo t; cbn [renumberLoop]; [done|].
  destruct (isDeleted a || JS.includes (siNo a) deletedSiNos).
  - intros [<-|Hin]; [exists a; split; [by left | done]|].
    destruct (IH _ _ Hin) as (t0 & H0 & Hrest). exists t0. split; [by right | done].
  - intros [<-|Hin]; [exists a; split; [by left | done]|].
    destruct (IH _ _ Hin) as (t0 & H0 & Hrest). exists t0. split; [by right | done].
Qed.

Lemma takeDeeper_In (taskLevel : Z) (l : list Task) (c : Task) :
  In c (takeDeeper taskLevel l) -> In c l.
Proof.
  induction l as [|a l IH]; simpl; [done|].
  destruct (level a <=? taskLevel); [done|]. intros [<-|Hin]; [by left | right; by apply IH].
Qed.

Lemma drop_In {A : Type} (n : nat) (l : list A) (x : A) : In x (drop n l) -> In x l.
Proof.
  intros H. rewrite <- (take_drop n l). apply in_or_app. by right.
Qed.

(** X19: on a task list with distinct ids whose tasks that are not
    deleted have distinct ordinals, [deleteTask] of such a task leaves
    the tasks that are not deleted with the ordinals 1..N in list order,
    and the task itself is marked deleted. *)
Theorem deleteTask_dense (isHoliday : Z -> bool) (tasks : list Task) (taskId : string)
        (i : nat) (target : Task) :
  NoDup (id <$> tasks) -> NoDup (liveSiNos tasks) ->
  tasks !! i = Some target -> id target = taskId -> isDeleted target = false ->
  let result := deleteTask isHoliday tasks taskId in
  liveSiNos result = seqZ 1 (Z.of_nat (length (liveSiNos result)))
  /\ forall t, In t result -> id t = taskId -> isDeleted t = true.
Proof.
  intros Hnd Hords Hi Hid Hlive result.
  assert (Htarget : In target tasks).
  { apply list_elem_of_In. by eapply list_elem_of_lookup_2. }
  assert (Hfind : find (hasId taskId) tasks = Some target).
  { apply (find_findIndex _ _ i); [|done]. rewrite <- Hid. by apply findIndex_hasId. }
  unfold result, deleteTask. rewrite Hfind.
  set (marked1 := markDeleted tasks taskId).
  assert (Hmarked1 : marked1 = mark [taskId] <$> tasks).
  { unfold marked1, markDeleted. rewrite updateById_fmap by done.
    apply list_fmap_ext. intros _ t _. cbv beta. unfold hasId.
    destruct (String.eqb_spec (id t) taskId) as [Heq|Hne].
    - rewrite bool_decide_eq_true_2; [done | rewrite Heq; set_solver].
    - rewrite bool_decide_eq_false_2; [done | set_solver]. }
  assert (Hnd1 : NoDup (id <$> marked1)).
  { rewrite Hmarked1, <- list_fmap_compose. erewrite list_fmap_ext; [exact Hnd|].
    intros _ t _. simpl. by case_bool_decide. }
  set (children := findAllChildTasks marked1 target).
  rewrite (markDeleted_all children marked1 Hnd1).
  set (marked := mark (id <$> children) <$> marked1).
  set (deletedSiNos := siNo target :: (siNo <$> children)).
  assert (Hunmarked : forall t, In t marked -> isDeleted t = false ->
            In t tasks /\ id t <> taskId /\ id t ∉ (id <$> children)).
  { intros t Ht Hl. unfold marked in Ht.
    apply list_elem_of_In, list_elem_of_fmap in Ht as (t1 & -> & Ht1).
    rewrite Hmarked1 in Ht1. apply list_elem_of_fmap in Ht1 as (t0 & -> & Ht0).
    cbv beta in Hl |- *.
    destruct (bool_decide (id t0 ∈ [taskId])) eqn:H1.
    { cbn [id set_isDeleted] in Hl. by case_bool_decide. }
    apply bool_decide_eq_false in H1.
    destruct (bool_decide (id t0 ∈ id <$> children)) eqn:H2; [done|].
    apply bool_decide_eq_false in H2.
    split; [by apply list_elem_of_In|]. split; [set_solver | done]. }
  assert (Hchildren : forall c, In c children -> In c tasks /\ isDeleted c = false).
  { intros c Hc. unfold children, findAllChildTasks in Hc.
    destruct (JS.findIndex _ marked1) as [k|]; [|done].
    apply filter_In in Hc as [Hc Hcl]. apply negb_true_iff in Hcl.
    apply takeDeeper_In, drop_In in Hc. split; [|done].
    rewrite Hmarked1 in Hc.
    apply list_elem_of_In, list_elem_of_fmap in Hc as (c0 & -> & Hc0).
    cbv beta in Hcl |- *. case_bool_decide; [done|]. by apply list_elem_of_In. }
  assert (Hdel : forall t, In t marked -> In (siNo t) deletedSiNos -> isDeleted t = true).
  { intros t Ht Hsi. destruct (isDeleted t) eqn:Hl; [done|]. exfalso.
    destruct (Hunmarked t Ht Hl) as (Hin & Hne & Hnc).
    destruct Hsi as [Hsi|Hsi].
    - apply Hne. rewrite <- Hid. f_equal.
      by apply (live_same_ordinal tasks t target).
    - apply list_elem_of_In, list_elem_of_fmap in Hsi as (c & Hsi & Hc).
      apply list_elem_of_In in Hc. destruct (Hchildren c Hc) as [Hcin Hcl].
      apply Hnc. apply list_elem_of_fmap. exists c. split; [|by apply list_elem_of_In].
      f_equal. by apply (live_same_ordinal tasks t c). }
  pose proof (recompute_ordinals isHoliday
                (updateSiNumbersAfterDeletion marked deletedSiNos)) as Hord.
  change (let R := recompute isHoliday (updateSiNumbersAfterDeletion marked deletedSiNos) in
          liveSiNos R = seqZ 1 (Z.of_nat (length (liveSiNos R)))
          /\ forall t, In t R -> id t = taskId -> isDeleted t = true).
  cbv zeta. split.
  - rewrite (liveSiNos_ordinals _ _ Hord).
    rewrite (updateSiNumbersAfterDeletion_live marked deletedSiNos Hdel).
    by rewrite length_seqZ, Nat2Z.id.
  - intros t Ht Htid.
    apply list_elem_of_In in Ht.
    apply (list_elem_of_fmap_2 ordinal) in Ht. rewrite Hord in Ht.
    apply list_elem_of_fmap in Ht as (u & Hu & Hin). injection Hu as Hu1 _ Hu3.
    rewrite Hu3. apply list_elem_of_In in Hin.
    unfold updateSiNumbersAfterDeletion in Hin.
    apply renumberLoop_In in Hin as (t0 & Ht0 & Hid0 & Hd0). rewrite Hd0.
    apply In_sort in Ht0.
    destruct (isDeleted t0) eqn:Hl; [done|]. exfalso.
    destruct (Hunmarked t0 Ht0 Hl) as (_ & Hne & _). congruence.
Qed.

Lemma deleteTask_dense_witness :
  let tasks := [sampleTask "a" 1 None 0; sampleTask "b" 2 None 1;
                sampleTask "c" 3 (Some "1") 0] in
  let result := deleteTask (HolidayStore.isHoliday HolidayStore.initialState) tasks "a" in
  liveSiNos result = seqZ 1 (Z.of_nat (length (liveSiNos result)))
  /\ forall t, In t result -> id t = "a" -> isDeleted t = true.
Proof.
  apply (deleteTask_dense _ [sampleTask "a" 1 None 0; sampleTask "b" 2 None 1;
                             sampleTask "c" 3 (Some "1") 0] "a" 0%nat
                          (sampleTask "a" 1 None 0));
    [| | reflexivity | reflexivity | reflexivity].
  - apply (bool_decide_unpack _). vm_compute. reflexivity.
  - apply (bool_decide_unpack _). vm_compute. reflexivity.
Defined.

(** ** Hierarchical labels *)

(** The labels depend on the ids and the levels of the tasks only. *)
Local Abbreviation place := (fun t : Task => (id t, level t)).

Lemma processChildren_ext (l1 : list Task) : forall l2 parentLevel parentWbs counter wbsMap,
  place <$> l1 = place <$> l2 ->
  processChildren l1 parentLevel parentWbs counter wbsMap
  = processChildren l2 parentLevel parentWbs counter wbsMap.
Proof.
  induction l1 as [|t1 l1 IH]; intros [|t2 l2] pl pw c m; try done.
  csimpl. intros [= Hid Hlevel Hrest]. rewrite Hid, Hlevel.
  destruct (level t2 <=? pl); [done|].
  destruct (level t2 =? pl + 1); [|by apply IH].
  rewrite (IH l2 (level t2)) by done. by apply IH.
Qed.

Lemma numberLevel0_ext (l1 : list Task) : forall l2 counter wbsMap,
  place <$> l1 = place <$> l2 ->
  numberLevel0 l1 counter wbsMap = numberLevel0 l2 counter wbsMap.
Proof.
  induction l1 as [|t1 l1 IH]; intros [|t2 l2] c m; try done.
  csimpl. intros [= Hid Hlevel Hrest]. rewrite Hid, Hlevel.
  destruct (level t2 =? 0); by apply IH.
Qed.

Lemma level0Children_ext (l1 : list Task) : forall l2 taskLevel parentWbs counter wbsMap,
  place <$> l1 = place <$> l2 ->
  level0Children l1 taskLevel parentWbs counter wbsMap
  = level0Children l2 taskLevel parentWbs counter wbsMap.
Proof.
  induction l1 as [|t1 l1 IH]; intros [|t2 l2] tl pw c m; try done.
  csimpl. intros [= Hid Hlevel Hrest]. rewrite Hid, Hlevel.
  destruct (level t2 =? 0); [done|].
  destruct (level t2 =? tl + 1); [|by apply IH].
  rewrite (processChildren_ext l1 l2) by done. by apply IH.
Qed.

Lemma labelChildren_ext (l1 : list Task) : forall l2 wbsMap,
  place <$> l1 = place <$> l2 -> labelChildren l1 wbsMap = labelChildren l2 wbsMap.
Proof.
  induction l1 as [|t1 l1 IH]; intros [|t2 l2] m; try done.
  csimpl. intros [= Hid Hlevel Hrest]. rewrite Hid, Hlevel.
  destruct (level t2 =? 0); [|by apply IH].
  rewrite (level0Children_ext l1 l2) by done. by apply IH.
Qed.

Lemma filter_fmap_comm {A : Type} (p : A -> bool) (g : A -> A) (l : list A) :
  (forall x, p (g x) = p x) -> List.filter p (g <$> l) = g <$> List.filter p l.
Proof.
  intros Hp. induction l as [|a l IH]; [done|]. csimpl.
  rewrite Hp. destruct (p a); csimpl; by rewrite IH.
Qed.

Lemma set_wbsNo_same (t : Task) : set_wbsNo (wbsNo t) t = t.
Proof. by destruct t. Qed.

(** X20: [updateWbsNumbers] keeps the number and the order of the
    tasks and changes nothing but their labels, those of deleted tasks
    not even that; applying it a second time changes nothing. *)
Theorem updateWbsNumbers_idempotent (tasks : list Task) :
  updateWbsNumbers (updateWbsNumbers tasks) = updateWbsNumbers tasks
  /\ length (updateWbsNumbers tasks) = length tasks
  /\ forall j t, tasks !! j = Some t ->
       exists w, updateWbsNumbers tasks !! j = Some (set_wbsNo w t)
                 /\ (isDeleted t = true -> w = wbsNo t).
Proof.
  unfold updateWbsNumbers.
  set (active := List.filter (fun t => negb (isDeleted t)) tasks).
  set (wbsMap := labelChildren active (numberLevel0 active 1 ∅)).
  set (g := fun task : Task =>
              if isDeleted task then task
              else match wbsMap !! id task with
                   | Some w => if JS.truthy w then set_wbsNo w task else task
                   | None => task
                   end).
  assert (Hg : forall t, id (g t) = id t /\ level (g t) = level t
                         /\ isDeleted (g t) = isDeleted t).
  { intros t. unfold g. destruct (isDeleted t) eqn:Hd; [done|].
    destruct (wbsMap !! id t) as [w|]; [destruct (JS.truthy w)|]; done. }
  assert (Hactive : List.filter (fun t => negb (isDeleted t)) (g <$> tasks) = g <$> active).
  { apply filter_fmap_comm. intros t. by rewrite (proj2 (proj2 (Hg t))). }
  assert (Hplace : place <$> (g <$> active) = place <$> active).
  { rewrite <- list_fmap_compose. apply list_fmap_ext. intros _ t _. simpl.
    destruct (Hg t) as (-> & -> & _). done. }
  split; [|split].
  - rewrite Hactive.
    rewrite (labelChildren_ext _ _ _ Hplace), (numberLevel0_ext _ _ _ _ Hplace).
    fold wbsMap. rewrite <- list_fmap_compose. apply list_fmap_ext. intros _ t _.
    simpl. fold (g t). fold (g (g t)).
    unfold g at 1. destruct (Hg t) as (Hid & _ & Hd). rewrite Hid, Hd.
    unfold g. destruct (isDeleted t); [done|].
    destruct (wbsMap !! id t) as [w|]; [destruct (JS.truthy w)|]; done.
  - by rewrite length_fmap.
  - intros j t Ht. rewrite list_lookup_fmap, Ht. simpl. fold (g t). unfold g.
    destruct (isDeleted t) eqn:Hd.
    { exists (wbsNo t). by rewrite set_wbsNo_same. }
    destruct (wbsMap !! id t) as [w|]; [destruct (JS.truthy w)|].
    + by exists w.
    + exists (wbsNo t). by rewrite set_wbsNo_same.
    + exists (wbsNo t). by rewrite set_wbsNo_same.
Qed.

(** *** The labels of the top level *)

Lemma String_truthy (n : Z) : JS.truthy (JS.String_ n) = true.
Proof.
  unfold JS.String_, NilZero.string_of_int.
  destruct (Z.to_int n) as [d|d]; [|done]. by destruct d.
Qed.

Lemma processChildren_other (k : string) (rest : list Task) :
  forall parentLevel parentWbs counter wbsMap,
  0 <= parentLevel -> (forall t, In t rest -> id t = k -> level t = 0) ->
  processChildren rest parentLevel parentWbs counter wbsMap !! k = wbsMap !! k.
Proof.
  induction rest as [|t rest IH]; intros pl pw c m Hpl Hk; simpl; [done|].
  assert (Hrest : forall t', In t' rest -> id t' = k -> level t' = 0)
    by (intros t' Ht'; apply Hk; by right).
  destruct (level t <=? pl); [done|].
  destruct (Z.eqb_spec (level t) (pl + 1)) as [Heq|Hne]; [|by apply IH].
  rewrite IH by done. rewrite IH by (done || lia).
  apply lookup_insert_ne. intros Hid.
  specialize (Hk t (or_introl eq_refl) Hid). lia.
Qed.

Lemma level0Children_other (k : string) (rest : list Task) :
  forall parentWbs counter wbsMap,
  (forall t, In t rest -> id t = k -> level t = 0) ->
  level0Children rest 0 parentWbs counter wbsMap !! k = wbsMap !! k.
Proof.
  induction rest as [|t rest IH]; intros pw c m Hk; simpl; [done|].
  assert (Hrest : forall t', In t' rest -> id t' = k -> level t' = 0)
    by (intros t' Ht'; apply Hk; by right).
  destruct (Z.eqb_spec (level t) 0) as [H0|H0]; [done|].
  destruct (Z.eqb_spec (level t) (0 + 1)) as [Heq|Hne]; [|by apply IH].
  rewrite IH by done. rewrite processChildren_other by (done || lia).
  apply lookup_insert_ne. intros Hid.
  specialize (Hk t (or_introl eq_refl) Hid). lia.
Qed.

Lemma labelChildren_other (k : string) (l : list Task) : forall wbsMap,
  (forall t, In t l -> id t = k -> level t = 0) ->
  labelChildren l wbsMap !! k = wbsMap !! k.
Proof.
  induction l as [|t l IH]; intros m Hk; simpl; [done|].
  assert (Hrest : forall t', In t' l -> id t' = k -> level t' = 0)
    by (intros t' Ht'; apply Hk; by right).
  destruct (Z.eqb_spec (level t) 0) as [H0|H0]; [|by apply IH].
  rewrite IH by done. rewrite H0. by apply level0Children_other.
Qed.

Lemma numberLevel0_other (k : string) (l : list Task) : forall counter wbsMap,
  (forall t, In t l -> id t <> k) ->
  numberLevel0 l counter wbsMap !! k = wbsMap !! k.
Proof.
  induction l as [|t l IH]; intros c m Hk; simpl; [done|].
  assert (Hrest : forall t', In t' l -> id t' <> k) by (intros t' Ht'; apply Hk; by right).
  destruct (level t =? 0); [|by apply IH].
  rewrite IH by done. apply lookup_insert_ne. apply Hk. by left.
Qed.

(** The tasks [updateWbsNumbers] numbers first: not deleted, level 0. *)
Local Abbreviation topLevel := (fun t : Task => negb (isDeleted t) && (level t =? 0)).

Lemma numberLevel0_top (l : list Task) : forall counter wbsMap,
  NoDup (id <$> l) ->
  (fun t => numberLevel0 l counter wbsMap !! id t) <$> List.filter (fun t => level t =? 0) l
  = (fun k => Some (JS.String_ k))
      <$> seqZ counter (Z.of_nat (length (List.filter (fun t => level t =? 0) l))).
Proof.
  induction l as [|t l IH]; intros c m Hnd; [done|].
  rewrite fmap_cons in Hnd. apply NoDup_cons in Hnd as [Hnotin Hnd].
  cbn [List.filter numberLevel0]. destruct (level t =? 0).
  - rewrite fmap_cons, length_cons, (seqZ_cons c) by lia. rewrite fmap_cons. f_equal.
    + rewrite numberLevel0_other; [by rewrite lookup_insert_eq|].
      intros t' Ht' Heq. apply Hnotin. apply list_elem_of_fmap. exists t'.
      split; [done | by apply list_elem_of_In].
    + rewrite IH by done. f_equal. f_equal. lia.
  - by apply IH.
Qed.

(** X21: on a task list with distinct ids, [updateWbsNumbers]
    labels the tasks of level 0 that are not deleted 1, 2, 3, ... in list
    order. *)
Theorem updateWbsNumbers_top_level (tasks : list Task) :
  NoDup (id <$> tasks) ->
  wbsNo <$> List.filter topLevel (updateWbsNumbers tasks)
  = JS.String_ <$> seqZ 1 (Z.of_nat (length (List.filter topLevel tasks))).
Proof.
  intros Hnd. unfold updateWbsNumbers.
  set (active := List.filter (fun t => negb (isDeleted t)) tasks).
  assert (Hnda : NoDup (id <$> active)) by by apply NoDup_ids_filter.
  set (wbsMap := labelChildren active (numberLevel0 active 1 ∅)).
  set (g := fun task : Task =>
              if isDeleted task then task
              else match wbsMap !! id task with
                   | Some w => if JS.truthy w then set_wbsNo w task else task
                   | None => task
                   end).
  assert (Hg : forall t, topLevel (g t) = topLevel t).
  { intros t. unfold g. destruct (isDeleted t) eqn:Hd; [simpl; by rewrite Hd|].
    destruct (wbsMap !! id t) as [w|]; [destruct (JS.truthy w)|]; simpl; by rewrite ?Hd. }
  change (wbsNo <$> List.filter topLevel (g <$> tasks)
          = JS.String_ <$> seqZ 1 (Z.of_nat (length (List.filter topLevel tasks)))).
  rewrite (filter_fmap_comm topLevel g tasks Hg), <- list_fmap_compose.
  assert (Htop : List.filter topLevel tasks = List.filter (fun t => level t =? 0) active).
  { unfold active. clear. induction tasks as [|t tasks IH]; [done|]. simpl.
    destruct (isDeleted t); simpl; [done|]. destruct (level t =? 0); by rewrite IH. }
  rewrite Htop.
  pose proof (numberLevel0_top active 1 ∅ Hnda) as Hnum.
  set (top := List.filter (fun t => level t =? 0) active) in *.
  assert (Hlabel : forall t, In t top -> wbsMap !! id t = numberLevel0 active 1 ∅ !! id t).
  { intros t Ht. unfold wbsMap. apply labelChildren_other.
    intros t' Ht' Hid. apply filter_In in Ht as [Ht Hl].
    apply list_elem_of_In, list_elem_of_lookup in Ht as [i Hi].
    apply list_elem_of_In, list_elem_of_lookup in Ht' as [i' Hi'].
    assert (i' = i) as -> by by apply (NoDup_ids_lookup active i' i t' t).
    apply Z.eqb_eq in Hl. congruence. }
  assert (Hlive : forall t, In t top -> isDeleted t = false).
  { intros t Ht. apply filter_In in Ht as [Ht _]. apply filter_In in Ht as [_ Ht].
    by apply negb_true_iff in Ht. }
  clearbody top. clear Htop.
  set (numbered := numberLevel0 active 1 ∅) in *. clearbody numbered.
  revert Hnum Hlabel Hlive. generalize 1.
  induction top as [|t top IH]; intros c Hnum Hlabel Hlive; [done|].
  rewrite length_cons, (seqZ_cons c) in Hnum by lia.
  rewrite length_cons, (seqZ_cons c) by lia.
  rewrite !fmap_cons in Hnum. rewrite !fmap_cons. injection Hnum as Hfirst Hrest.
  f_equal.
  - simpl. unfold g. rewrite (Hlive t) by by left.
    rewrite (Hlabel t) by by left. rewrite Hfirst, String_truthy. done.
  - replace (Z.pred (Z.of_nat (S (length top)))) with (Z.of_nat (length top)) in * by lia.
    apply IH; [done | |]; intros t' Ht'; [apply Hlabel | apply Hlive]; by right.
Qed.

Lemma updateWbsNumbers_top_level_witness :
  let tasks := [sampleTask "a" 7 None 0; sampleTask "b" 8 None 1;
                set_isDeleted true (sampleTask "c" 9 None 0); sampleTask "d" 10 None 0] in
  wbsNo <$> List.filter topLevel (updateWbsNumbers tasks)
  = JS.String_ <$> seqZ 1 (Z.of_nat (length (List.filter topLevel tasks))).
Proof.
  apply updateWbsNumbers_top_level.
  apply (bool_decide_unpack _). vm_compute. reflexivity.
Defined.

(** ** Parent flags *)

Lemma hasDirectChildren_spec (taskLevel : Z) (rest : list Task) :
  hasDirectChildren taskLevel rest = true
  <-> exists k c, rest !! k = Some c /\ level c = taskLevel + 1 /\ isDeleted c = false
                  /\ forall k' x, (k' < k)%nat -> rest !! k' = Some x -> taskLevel < level x.
Proof.
  induction rest as [|a rest IH]; simpl.
  { split; [done|]. by intros (k & c & Hk & _). }
  destruct (Z.leb_spec (level a) taskLevel) as [Hle|Hgt].
  { split; [done|]. intros ([|k] & c & Hk & Hlevel & _ & Hbefore).
    - injection Hk as <-. lia.
    - specialize (Hbefore O a ltac:(lia) eq_refl). lia. }
  destruct ((level a =? taskLevel + 1) && negb (isDeleted a)) eqn:Hchild.
  { split; [|done]. intros _. exists O, a.
    apply andb_true_iff in Hchild as [Hl Hd]. apply Z.eqb_eq in Hl.
    apply negb_true_iff in Hd. split; [done|]. split; [done|]. split; [done|]. lia. }
  rewrite IH. split.
  - intros (k & c & Hk & Hlevel & Hlive & Hbefore). exists (S k), c.
    split; [done|]. split; [done|]. split; [done|].
    intros [|k'] x Hlt; simpl; [intros [= <-]; lia|]. apply Hbefore. lia.
  - intros ([|k] & c & Hk & Hlevel & Hlive & Hbefore).
    + injection Hk as <-. apply andb_false_iff in Hchild as [Hl|Hd].
      * apply Z.eqb_neq in Hl. done.
      * by rewrite Hlive in Hd.
    + exists k, c. split; [done|]. split; [done|]. split; [done|].
      intros k' x Hlt Hx. apply (Hbefore (S k')); [lia | done].
Qed.

(** X22: on a task list with distinct ids, [updateParentStatus]
    changes nothing but the parent flag, and flags a task exactly when,
    among the tasks behind it and before the next task that is not
    deeper than it, there is one exactly one level deeper that is not
    deleted. *)
Theorem updateParentStatus_flags (tasks : list Task) (j : nat) (t : Task) :
  NoDup (id <$> tasks) -> tasks !! j = Some t ->
  exists flag,
    updateParentStatus tasks !! j = Some (set_isParent flag t)
    /\ (flag = true
        <-> exists k c, (j < k)%nat /\ tasks !! k = Some c
                        /\ level c = level t + 1 /\ isDeleted c = false
                        /\ forall k' x, (j < k' < k)%nat -> tasks !! k' = Some x ->
                                        level t < level x).
Proof.
  intros Hnd Ht. exists (hasDirectChildren (level t) (drop (S j) tasks)).
  split; [by apply updateParentStatus_lookup|].
  rewrite hasDirectChildren_spec. split.
  - intros (k & c & Hk & Hlevel & Hlive & Hbefore). rewrite lookup_drop in Hk.
    exists (S j + k)%nat, c. split; [lia|]. split; [done|]. split; [done|]. split; [done|].
    intros k' x Hk' Hx. apply (Hbefore (k' - S j)%nat); [lia|].
    rewrite lookup_drop. rewrite <- Hx. f_equal. lia.
  - intros (k & c & Hjk & Hk & Hlevel & Hlive & Hbefore).
    exists (k - S j)%nat, c. rewrite lookup_drop.
    split; [rewrite <- Hk; f_equal; lia|]. split; [done|]. split; [done|].
    intros k' x Hk' Hx. rewrite lookup_drop in Hx. apply (Hbefore (S j + k')%nat); [lia|done].
Qed.

Lemma updateParentStatus_flags_witness :
  let tasks := [sampleTask "a" 1 None 0; set_isDeleted true (sampleTask "b" 2 None 1);
                sampleTask "c" 3 None 1; sampleTask "d" 4 None 0] in
  exists flag,
    updateParentStatus tasks !! 0%nat = Some (set_isParent flag (sampleTask "a" 1 None 0))
    /\ (flag = true
        <-> exists k c, (0 < k)%nat /\ tasks !! k = Some c
                        /\ level c = level (sampleTask "a" 1 None 0) + 1
                        /\ isDeleted c = false
                        /\ forall k' x, (0 < k' < k)%nat -> tasks !! k' = Some x ->
                                        level (sampleTask "a" 1 None 0) < level x).
Proof.
  apply (updateParentStatus_flags
           [sampleTask "a" 1 None 0; set_isDeleted true (sampleTask "b" 2 None 1);
            sampleTask "c" 3 None 1; sampleTask "d" 4 None 0] 0%nat);
    [|reflexivity].
  apply (bool_decide_unpack _). vm_compute. reflexivity.
Defined.

(** ** Indent and outdent: the levels *)

(** Changing the level of the tasks with one of the ids. *)
Local Abbreviation releveled :=
  (fun (f : Z -> Z) (ids : list string) (t : Task) =>
     if bool_decide (id t ∈ ids) then set_level (f (level t)) t else t).

Lemma releveled_cons (f : Z -> Z) (c : string) (ids : list string) (t : Task) :
  c ∉ ids ->
  releveled f ids (if hasId c t then set_level (f (level t)) t else t)
  = releveled f (c :: ids) t.
Proof.
  intros Hc. unfold hasId.
  destruct (String.eqb_spec (id t) c) as [Heq|Hne]; cbn [id set_level].
  - rewrite (bool_decide_eq_true_2 (id t ∈ c :: ids)) by (rewrite Heq; set_solver).
    rewrite bool_decide_eq_false_2; [done | by rewrite Heq].
  - repeat case_bool_decide; (done || set_solver).
Qed.

Lemma foldl_relevel (f : Z -> Z) (selectedTasks : list Task) : forall l,
  NoDup (id <$> l) -> NoDup (id <$> selectedTasks) ->
  foldl (relevel f) l selectedTasks = releveled f (id <$> selectedTasks) <$> l.
Proof.
  induction selectedTasks as [|c selectedTasks IH]; intros l Hnd Hsel.
  - cbn [foldl]. rewrite <- (list_fmap_id l) at 1. apply list_fmap_ext. intros _ t _.
    rewrite fmap_nil. by rewrite bool_decide_eq_false_2 by set_solver.
  - rewrite fmap_cons in Hsel. apply NoDup_cons in Hsel as [Hnotin Hsel].
    cbn [foldl].
    change (relevel f l c) with (updateById (id c) (fun t => set_level (f (level t)) t) l).
    rewrite updateById_fmap by done.
    rewrite IH; [|rewrite <- list_fmap_compose|done].
    2: { erewrite list_fmap_ext; [exact Hnd|].
         intros _ t _. simpl. by destruct (hasId (id c) t). }
    rewrite <- list_fmap_compose, fmap_cons. apply list_fmap_ext. intros _ t _.
    by apply releveled_cons.
Qed.

Lemma updateWbsNumbers_frame (l : list Task) (j : nat) (t : Task) :
  l !! j = Some t ->
  exists t', updateWbsNumbers l !! j = Some t'
             /\ id t' = id t /\ level t' = level t /\ isDeleted t' = isDeleted t.
Proof.
  intros Ht. unfold updateWbsNumbers. rewrite list_lookup_fmap, Ht. simpl.
  eexists. split; [done|].
  destruct (isDeleted t) eqn:Hd; [done|].
  destruct (_ !! id t) as [w|]; [destruct (JS.truthy w)|]; done.
Qed.

Section Releveling.

Variable tasks : list Task.
Variable selectedIds : gset string.
Hypothesis distinct : NoDup (id <$> tasks).

Local Abbreviation visibleTasks := (List.filter (fun t => negb (isDeleted t)) tasks).
Local Abbreviation selectedTasks :=
  (List.filter (fun t => bool_decide (id t ∈ selectedIds)) visibleTasks).

Lemma selected_ids (t : Task) :
  In t tasks ->
  id t ∈ (id <$> selectedTasks) <-> id t ∈ selectedIds /\ isDeleted t = false.
Proof.
  intros Ht. split.
  - intros Hin. apply list_elem_of_fmap in Hin as (s & Hid & Hs).
    apply list_elem_of_In, filter_In in Hs as [Hs Hsel].
    apply filter_In in Hs as [Hs Hlive].
    assert (s = t) as ->.
    { apply list_elem_of_In, list_elem_of_lookup in Hs as [i Hi].
      apply list_elem_of_In, list_elem_of_lookup in Ht as [i' Hi'].
      assert (i = i') as -> by by apply (NoDup_ids_lookup tasks i i' s t).
      congruence. }
    apply bool_decide_eq_true in Hsel. by apply negb_true_iff in Hlive.
  - intros [Hsel Hlive]. apply list_elem_of_fmap. exists t. split; [done|].
    apply list_elem_of_In, filter_In. split; [|by apply bool_decide_eq_true].
    apply filter_In. by rewrite Hlive.
Qed.

(** The list after the levels of the selected tasks have been changed
    and the labels recomputed. *)
Lemma releveled_tasks (f : Z -> Z) (j : nat) (t : Task) :
  tasks !! j = Some t ->
  exists t', updateWbsNumbers (foldl (relevel f) tasks selectedTasks) !! j = Some t'
    /\ id t' = id t /\ isDeleted t' = isDeleted t
    /\ level t' = if bool_decide (id t ∈ selectedIds) && negb (isDeleted t)
                  then f (level t) else level t.
Proof.
  intros Ht.
  rewrite foldl_relevel; [|done|by do 2 apply NoDup_ids_filter].
  destruct (updateWbsNumbers_frame
              (releveled f (id <$> selectedTasks) <$> tasks) j
              (releveled f (id <$> selectedTasks) t))
    as (t' & Ht' & Hid & Hlevel & Hdel).
  { by rewrite list_lookup_fmap, Ht. }
  exists t'. split; [done|]. rewrite Hid, Hlevel, Hdel.
  assert (In t tasks) as Hin by (apply list_elem_of_In; by eapply list_elem_of_lookup_2).
  pose proof (selected_ids t Hin) as Hsel.
  destruct (bool_decide (id t ∈ id <$> selectedTasks)) eqn:Hb.
  - apply bool_decide_eq_true, Hsel in Hb as [Hs Hl].
    rewrite (bool_decide_eq_true_2 _ Hs), Hl. done.
  - apply bool_decide_eq_false in Hb. split; [done|]. split; [done|].
    destruct (bool_decide (id t ∈ selectedIds)) eqn:Hs; [|done].
    destruct (isDeleted t) eqn:Hl; [done|]. exfalso. apply Hb, Hsel.
    by apply bool_decide_eq_true in Hs.
Qed.

End Releveling.

(** X23: on a task list with distinct ids, an indent that does not
    throw keeps the tasks in place with their ids and deletion marks,
    raises the level of each selected task that is not deleted by 1, but
    not above a common bound, and leaves every other level alone.  When
    such a selected task exists the bound is the level of a task that is
    not deleted, plus 1. *)
Theorem indent_levels (tasks : list Task) (selectedIds : gset string) (result : list Task) :
  NoDup (id <$> tasks) ->
  updateTaskLevelsForIndent tasks selectedIds = Return result ->
  exists maxAllowedLevel,
    (forall j t, tasks !! j = Some t ->
       exists t', result !! j = Some t'
         /\ id t' = id t /\ isDeleted t' = isDeleted t
         /\ level t' = if bool_decide (id t ∈ selectedIds) && negb (isDeleted t)
                       then Z.min (level t + 1) maxAllowedLevel else level t)
    /\ ((exists t, In t tasks /\ id t ∈ selectedIds /\ isDeleted t = false) ->
        exists parentTask, In parentTask tasks /\ isDeleted parentTask = false
                           /\ maxAllowedLevel = level parentTask + 1).
Proof.
  intros Hnd. unfold updateTaskLevelsForIndent.
  destruct (decide (size selectedIds = 0%nat)) as [Hempty|Hsome].
  { intros [= <-]. exists 0. apply size_empty_iff, leibniz_equiv in Hempty. subst. split.
    - intros j t Ht. exists t. split; [done|]. split; [done|]. split; [done|].
      by rewrite bool_decide_eq_false_2 by set_solver.
    - intros (t & _ & Hin & _). set_solver. }
  set (visibleTasks := List.filter (fun t => negb (isDeleted t)) tasks).
  set (selectedTasks := List.filter (fun t => bool_decide (id t ∈ selectedIds)) visibleTasks).
  destruct (JS.includes 0 _); [done|].
  destruct (negb (contiguous _)); [done|].
  set (parentTask := _ ≫= _).
  destruct selectedTasks as [|s selectedTasks'] eqn:Hsel.
  - intros [= <-]. exists 0. split.
    + intros j t Ht.
      destruct (updateWbsNumbers_frame tasks j t Ht) as (t' & Ht' & Hid & Hlevel & Hdel).
      exists t'. split; [done|]. split; [done|]. split; [done|]. rewrite Hlevel.
      destruct (bool_decide (id t ∈ selectedIds)) eqn:Hs; [|done].
      destruct (isDeleted t) eqn:Hl; [done|]. exfalso.
      assert (In t selectedTasks) as Hin.
      { apply filter_In. split; [|done]. apply filter_In. rewrite Hl.
        split; [|done]. apply list_elem_of_In. by eapply list_elem_of_lookup_2. }
      by rewrite Hsel in Hin.
    + intros (t & Hin & Hs & Hl). exfalso.
      assert (In t selectedTasks) as Hin'.
      { apply filter_In. split; [|by apply bool_decide_eq_true].
        apply filter_In. by rewrite Hl. }
      by rewrite Hsel in Hin'.
  - rewrite <- Hsel. destruct parentTask as [p|] eqn:Hp; [|done].
    intros [= <-]. exists (level p + 1). split.
    + intros j t Ht. by apply releveled_tasks.
    + intros _. exists p. split; [|split; [|done]].
      * unfold parentTask in Hp. destruct (head _) as [i|]; [|done]. simpl in Hp.
        unfold JS.at_ in Hp. destruct (i - 1 <? 0); [done|].
        apply list_elem_of_lookup_2, list_elem_of_In, filter_In in Hp. tauto.
      * unfold parentTask in Hp. destruct (head _) as [i|]; [|done]. simpl in Hp.
        unfold JS.at_ in Hp. destruct (i - 1 <? 0); [done|].
        apply list_elem_of_lookup_2, list_elem_of_In, filter_In in Hp as [_ Hp].
        by apply negb_true_iff in Hp.
Qed.

(** X24: on a task list with distinct ids, an outdent that does
    not throw keeps the tasks in place with their ids and deletion marks,
    lowers the level of each selected task that is not deleted by 1, but
    not below 0, and leaves every other level alone. *)
Theorem outdent_levels (tasks : list Task) (selectedIds : gset string) (result : list Task) :
  NoDup (id <$> tasks) ->
  updateTaskLevelsForOutdent tasks selectedIds = Return result ->
  forall j t, tasks !! j = Some t ->
    exists t', result !! j = Some t'
      /\ id t' = id t /\ isDeleted t' = isDeleted t
      /\ level t' = if bool_decide (id t ∈ selectedIds) && negb (isDeleted t)
                    then Z.max 0 (level t - 1) else level t.
Proof.
  intros Hnd. unfold updateTaskLevelsForOutdent.
  destruct (decide (size selectedIds = 0%nat)) as [Hempty|Hsome].
  { intros [= <-]. apply size_empty_iff, leibniz_equiv in Hempty. subst.
    intros j t Ht. exists t. split; [done|]. split; [done|]. split; [done|].
    by rewrite bool_decide_eq_false_2 by set_solver. }
  destruct (match level <$> _ with [] => false | l :: ls => minList l ls =? 0 end); [done|].
  destruct (negb (contiguous _)); [done|].
  intros [= <-] j t Ht. by apply releveled_tasks.
Qed.

Lemma indent_levels_witness :
  let tasks := [sampleTask "a" 1 None 0; sampleTask "b" 2 None 0; sampleTask "c" 3 None 0] in
  let selectedIds : gset string := {["b"]} in
  let result := match updateTaskLevelsForIndent tasks selectedIds with
                | Return newTasks => newTasks
                | Throw _ => []
                end in
  exists maxAllowedLevel,
    (forall j t, tasks !! j = Some t ->
       exists t', result !! j = Some t'
         /\ id t' = id t /\ isDeleted t' = isDeleted t
         /\ level t' = if bool_decide (id t ∈ selectedIds) && negb (isDeleted t)
                       then Z.min (level t + 1) maxAllowedLevel else level t)
    /\ ((exists t, In t tasks /\ id t ∈ selectedIds /\ isDeleted t = false) ->
        exists parentTask, In parentTask tasks /\ isDeleted parentTask = false
                           /\ maxAllowedLevel = level parentTask + 1).
Proof.
  apply (indent_levels
           [sampleTask "a" 1 None 0; sampleTask "b" 2 None 0; sampleTask "c" 3 None 0]
           {["b"]}).
  - apply (bool_decide_unpack _). vm_compute. reflexivity.
  - vm_compute. reflexivity.
Defined.

Lemma outdent_levels_witness :
  let tasks := [sampleTask "a" 1 None 0; sampleTask "b" 2 None 1; sampleTask "c" 3 None 0] in
  let selectedIds : gset string := {["b"]} in
  let result := match updateTaskLevelsForOutdent tasks selectedIds with
                | Return newTasks => newTasks
                | Throw _ => []
                end in
  updateTaskLevelsForOutdent tasks selectedIds = Return result
  /\ forall j t, tasks !! j = Some t ->
       exists t', result !! j = Some t'
         /\ id t' = id t /\ isDeleted t' = isDeleted t
         /\ level t' = if bool_decide (id t ∈ selectedIds) && negb (isDeleted t)
                       then Z.max 0 (level t - 1) else level t.
Proof.
  cbv zeta. split; [vm_compute; reflexivity |].
  apply (outdent_levels
           [sampleTask "a" 1 None 0; sampleTask "b" 2 None 1; sampleTask "c" 3 None 0]
           {["b"]}).
  - apply (bool_decide_unpack _). vm_compute. reflexivity.
  - vm_compute. reflexivity.
Defined.

(** ** Moving a task among its siblings *)

Lemma list_filter_sublist {A : Type} (p : A -> bool) (l : list A) :
  List.filter p l `sublist_of` l.
Proof.
  induction l as [|a l IH]; simpl; [constructor|].
  destruct (p a); by constructor.
Qed.

Lemma takeDeeper_sublist (taskLevel : Z) (l : list Task) :
  takeDeeper taskLevel l `sublist_of` l.
Proof.
  induction l as [|a l IH]; simpl; [constructor|].
  destruct (level a <=? taskLevel); [apply sublist_nil_l | by constructor].
Qed.

Lemma takeDeeper_stop (taskLevel : Z) (B C : list Task) (t : Task) :
  level t <= taskLevel -> takeDeeper taskLevel (B ++ t :: C) `sublist_of` B.
Proof.
  intros Ht. induction B as [|a B IH]; simpl.
  - destruct (Z.leb_spec (level t) taskLevel); [constructor | lia].
  - destruct (level a <=? taskLevel); [apply sublist_nil_l | by constructor].
Qed.

Lemma children_of_middle (tasks A R : list Task) (x : Task) :
  NoDup (id <$> tasks) -> tasks = A ++ x :: R ->
  findAllChildTasks tasks x
  = List.filter (fun t => negb (isDeleted t)) (takeDeeper (level x) R).
Proof.
  intros Hnd ->. unfold findAllChildTasks.
  rewrite (findIndex_hasId _ (length A) x Hnd).
  - replace (S (length A)) with (length (A ++ [x])) by (rewrite length_app; simpl; lia).
    by rewrite (cons_middle x A R), app_assoc, drop_app_length.
  - by rewrite list_lookup_middle.
Qed.

Lemma group_pair_sublist (tasks A B C : list Task) (a b : Task) :
  NoDup (id <$> tasks) -> tasks = A ++ a :: B ++ b :: C -> level b <= level a ->
  (a :: findAllChildTasks tasks a) ++ (b :: findAllChildTasks tasks b) `sublist_of` tasks.
Proof.
  intros Hnd Htasks Hlevel.
  rewrite (children_of_middle tasks A (B ++ b :: C) a Hnd Htasks).
  rewrite (children_of_middle tasks (A ++ a :: B) C b Hnd).
  2: { rewrite Htasks. by rewrite <- app_assoc. }
  rewrite Htasks. apply sublist_inserts_l. simpl. constructor.
  apply sublist_app.
  - etrans; [apply list_filter_sublist|]. by apply takeDeeper_stop.
  - constructor. etrans; [apply list_filter_sublist|]. apply takeDeeper_sublist.
Qed.

Lemma two_positions {A : Type} (l : list A) (i j : nat) (a b : A) :
  l !! i = Some a -> l !! j = Some b -> (i < j)%nat ->
  exists l1 l2 l3, l = l1 ++ a :: l2 ++ b :: l3.
Proof.
  intros Ha Hb Hlt.
  pose proof (take_drop_middle l i a Ha) as H1.
  assert (drop (S i) l !! (j - S i)%nat = Some b) as Hb'.
  { rewrite lookup_drop. rewrite <- Hb. f_equal. lia. }
  pose proof (take_drop_middle _ _ _ Hb') as H2.
  exists (take i l), (take (j - S i) (drop (S i) l)), (drop (S (j - S i)) (drop (S i) l)).
  by rewrite H2.
Qed.

(** The blocks of two tasks of one level do not meet. *)
Lemma groups_apart (tasks : list Task) (a b : Task) :
  NoDup (id <$> tasks) -> In a tasks -> In b tasks -> id a <> id b -> level a = level b ->
  let groups := (a :: findAllChildTasks tasks a) ++ (b :: findAllChildTasks tasks b) in
  NoDup (id <$> groups) /\ forall t, In t groups -> In t tasks.
Proof.
  intros Hnd Ha Hb Hne Hlevel groups.
  apply list_elem_of_In, list_elem_of_lookup in Ha as [i Hi].
  apply list_elem_of_In, list_elem_of_lookup in Hb as [j Hj].
  assert (i <> j) as Hij by (intros ->; congruence).
  destruct (decide (i < j)%nat) as [Hlt|Hge].
  - destruct (two_positions tasks i j a b Hi Hj Hlt) as (A & B & C & Htasks).
    pose proof (group_pair_sublist tasks A B C a b Hnd Htasks ltac:(lia)) as Hsub.
    fold groups in Hsub. split.
    + eapply sublist_NoDup; [exact Hnd | by apply fmap_sublist].
    + intros t Ht. apply list_elem_of_In. apply list_elem_of_In in Ht.
      by eapply sublist_subseteq.
  - destruct (two_positions tasks j i b a Hj Hi ltac:(lia)) as (A & B & C & Htasks).
    pose proof (group_pair_sublist tasks A B C b a Hnd Htasks ltac:(lia)) as Hsub.
    assert (groups ≡ₚ (b :: findAllChildTasks tasks b) ++ (a :: findAllChildTasks tasks a))
      as Hperm by apply Permutation_app_comm.
    split.
    + rewrite Hperm. eapply sublist_NoDup; [exact Hnd | by apply fmap_sublist].
    + intros t Ht. apply list_elem_of_In. apply list_elem_of_In in Ht.
      rewrite Hperm in Ht. by eapply sublist_subseteq.
Qed.

Lemma slice_split {A : Type} (l : list A) (i : Z) :
  JS.slice 0 i l ++ JS.sliceFrom i l = l.
Proof.
  unfold JS.sliceFrom, JS.slice.
  set (len := Z.of_nat (length l)).
  assert (JS.normIndex len 0 = 0) as ->.
  { unfold JS.normIndex. destruct (Z.ltb_spec 0 0); lia. }
  assert (JS.normIndex len len = len) as ->.
  { unfold JS.normIndex. destruct (Z.ltb_spec len 0); lia. }
  set (k := JS.normIndex len i).
  assert (0 <= k <= len) as Hk.
  { unfold k, JS.normIndex. destruct (Z.ltb_spec i 0); lia. }
  replace (Z.to_nat 0) with O by lia. rewrite drop_0, Z.sub_0_r.
  rewrite (take_ge (drop _ _)) by (rewrite length_drop; lia).
  apply take_drop.
Qed.

Lemma filter_split {A : Type} (p : A -> bool) (l : list A) :
  List.filter p l ++ List.filter (fun x => negb (p x)) l ≡ₚ l.
Proof.
  induction l as [|a l IH]; simpl; [done|].
  destruct (p a); simpl.
  - by rewrite IH.
  - rewrite <- Permutation_middle. by rewrite IH.
Qed.

Lemma notIn_false (group : list Task) (t : Task) :
  notIn group t = false <-> exists g, In g group /\ id g = id t.
Proof.
  unfold notIn. rewrite negb_false_iff, existsb_exists.
  split; intros (g & Hg & Heq); exists g; (split; [done|]).
  - by apply String.eqb_eq.
  - by apply String.eqb_eq.
Qed.

Lemma swapBlocks_keeps (tasks first second : list Task) (insertIndex : Z) :
  NoDup (id <$> tasks) -> NoDup (id <$> first ++ second) ->
  (forall t, In t (first ++ second) -> In t tasks) ->
  id <$> swapBlocks tasks first second insertIndex ≡ₚ id <$> tasks
  /\ siNo <$> swapBlocks tasks first second insertIndex
     = seqZ 1 (Z.of_nat (length tasks)).
Proof.
  intros Hnd Hgroups Hin. unfold swapBlocks.
  set (rest := List.filter (fun t => notIn first t && notIn second t) tasks).
  set (placed := JS.slice 0 insertIndex rest ++ first ++ second
                 ++ JS.sliceFrom insertIndex rest).
  assert (Hplaced : placed ≡ₚ tasks).
  { unfold placed.
    transitivity (JS.slice 0 insertIndex rest ++ JS.sliceFrom insertIndex rest
                  ++ (first ++ second)).
    { apply Permutation_app_head. rewrite (app_assoc first). apply Permutation_app_comm. }
    rewrite app_assoc, slice_split.
    etrans; [|apply (filter_split (fun t => notIn first t && notIn second t) tasks)].
    fold rest. apply Permutation_app_head.
    apply NoDup_Permutation.
    - by apply NoDup_ids_NoDup.
    - eapply sublist_NoDup; [apply (NoDup_ids_NoDup tasks Hnd) | apply list_filter_sublist].
    - intros t. rewrite !list_elem_of_In, filter_In. symmetry. split.
      + intros [Ht Hp]. apply negb_true_iff, andb_false_iff in Hp.
        assert (exists g, In g (first ++ second) /\ id g = id t) as (g & Hg & Heq).
        { destruct Hp as [Hp|Hp]; apply notIn_false in Hp as (g & Hg & Heq);
            exists g; (split; [apply in_or_app; tauto | done]). }
        assert (g = t) as <-; [|done].
        pose proof (Hin g Hg) as Hgt.
        apply list_elem_of_In, list_elem_of_lookup in Hgt as [i Hi].
        apply list_elem_of_In, list_elem_of_lookup in Ht as [j Hj].
        assert (i = j) as -> by by apply (NoDup_ids_lookup tasks i j g t).
        congruence.
      + intros Ht. split; [by apply Hin|].
        apply negb_true_iff, andb_false_iff.
        apply in_app_or in Ht as [Ht|Ht]; [left | right]; apply notIn_false; by exists t. }
  set (numbered := imap (fun i t => set_siNo (Z.of_nat i + 1) t) placed).
  assert (Hids : id <$> numbered = id <$> placed).
  { unfold numbered. rewrite fmap_imap.
    rewrite (imap_ext _ (const id)) by done. apply imap_const. }
  assert (Hsi : siNo <$> numbered = seqZ 1 (Z.of_nat (length placed))).
  { apply list_eq. intros i. unfold numbered.
    rewrite list_lookup_fmap, list_lookup_imap.
    destruct (placed !! i) as [t|] eqn:Ht; simpl.
    - symmetry. apply lookup_seqZ. split; [lia|].
      apply lookup_lt_Some in Ht. lia.
    - symmetry. apply lookup_seqZ_ge. apply lookup_ge_None in Ht. lia. }
  assert (Hmoved : ordinal <$> updatePredecessorsAfterMove numbered (originalSiMapOf tasks)
                   = ordinal <$> numbered).
  { unfold updatePredecessorsAfterMove. rewrite <- list_fmap_compose.
    apply list_fmap_ext. intros _ t _. simpl.
    destruct (predecessorIds t) as [ids|]; [destruct (JS.truthy ids)|]; done. }
  pose proof (updateWbsNumbers_ordinals
                (updatePredecessorsAfterMove numbered (originalSiMapOf tasks))) as Hwbs.
  rewrite Hmoved in Hwbs.
  split.
  - apply (f_equal (fmap (fun o : string * Z * bool => o.1.1))) in Hwbs.
    rewrite <- !list_fmap_compose in Hwbs.
    change (id <$> updateWbsNumbers
                     (updatePredecessorsAfterMove numbered (originalSiMapOf tasks))
            = id <$> numbered) in Hwbs.
    rewrite Hwbs, Hids. by rewrite Hplaced.
  - apply (f_equal (fmap (fun o : string * Z * bool => o.1.2))) in Hwbs.
    rewrite <- !list_fmap_compose in Hwbs.
    change (siNo <$> updateWbsNumbers
                       (updatePredecessorsAfterMove numbered (originalSiMapOf tasks))
            = siNo <$> numbered) in Hwbs.
    rewrite Hwbs, Hsi. by rewrite Hplaced.
Qed.

Lemma findSiblingTasks_spec (tasks : list Task) (task : Task) :
  NoDup (id <$> tasks) -> In task tasks ->
  NoDup (id <$> findSiblingTasks tasks task)
  /\ forall s, In s (findSiblingTasks tasks task) -> In s tasks /\ level s = level task.
Proof.
  intros Hnd Htask. unfold findSiblingTasks.
  destruct (Z.eqb_spec (level task) 0) as [H0|H0].
  { split.
    - eapply sublist_NoDup; [exact Hnd | apply fmap_sublist, list_filter_sublist].
    - intros s Hs. apply filter_In in Hs as [Hs Hp]. split; [done|].
      apply andb_true_iff in Hp as [Hl _]. apply Z.eqb_eq in Hl. lia. }
  destruct (find _ _) as [parentTask|].
  2: { split.
       - apply NoDup_singleton.
       - intros s [<-|[]]. done. }
  destruct (JS.findIndex (hasId (id parentTask)) tasks) as [start|].
  2: { split; [constructor | done]. }
  assert (Hsub : List.filter (fun t => negb (isDeleted t))
                   (List.filter (fun t => level t =? level task)
                      (takeDeeper (level parentTask) (drop (S start) tasks)))
                 `sublist_of` tasks).
  { etrans; [apply list_filter_sublist|]. etrans; [apply list_filter_sublist|].
    etrans; [apply takeDeeper_sublist|]. apply sublist_drop. }
  split.
  - eapply sublist_NoDup; [exact Hnd | by apply fmap_sublist].
  - intros s Hs. split.
    + apply list_elem_of_In. apply list_elem_of_In in Hs. by eapply sublist_subseteq.
    + apply filter_In in Hs as [Hs _]. apply filter_In in Hs as [_ Hs].
      by apply Z.eqb_eq in Hs.
Qed.

(** X25: on a task list with distinct ids, [moveTaskUp] keeps
    every task exactly once.  Either it returns the list unchanged, or
    the ordinals of the result are 1..length in list order, deleted tasks
    counted. *)
Theorem moveTaskUp_keeps (tasks : list Task) (taskId : string) :
  NoDup (id <$> tasks) ->
  let moved := moveTaskUp tasks taskId in
  id <$> moved ≡ₚ id <$> tasks
  /\ (moved = tasks \/ siNo <$> moved = seqZ 1 (Z.of_nat (length tasks))).
Proof.
  intros Hnd. unfold moveTaskUp.
  destruct (JS.findIndex _ tasks) as [[|n]|] eqn:Hidx; simpl; [by split; [|left] | | by split; [|left]].
  destruct (findIndex_Some _ _ _ Hidx) as (task & Htask & Hp & _).
  rewrite Htask. apply andb_true_iff in Hp as [Hid Hlive]. apply String.eqb_eq in Hid.
  assert (In task tasks) as Hin.
  { apply list_elem_of_In. by eapply list_elem_of_lookup_2. }
  destruct (findSiblingTasks_spec tasks task Hnd Hin) as [_ Hsiblings].
  set (siblings := findSiblingTasks tasks task) in *.
  destruct (JS.findIndex (hasId taskId) siblings) as [si|] eqn:Hsi; simpl;
    [|by split; [|left]].
  destruct (Z.leb_spec (Z.of_nat si) 0) as [|Hpos]; [by split; [|left]|].
  unfold JS.at_. destruct (Z.ltb_spec (Z.of_nat si - 1) 0) as [|_]; [lia|].
  destruct (siblings !! Z.to_nat (Z.of_nat si - 1)) as [previousSibling|] eqn:Hprev;
    [|by split; [|left]].
  destruct (findIndex_Some _ _ _ Hsi) as (_ & _ & _ & Hbefore).
  assert (hasId taskId previousSibling = false) as Hne.
  { apply (Hbefore (Z.to_nat (Z.of_nat si - 1))); [lia | done]. }
  apply String.eqb_neq in Hne.
  destruct (Hsiblings previousSibling) as [Hpin Hplevel].
  { apply list_elem_of_In. by eapply list_elem_of_lookup_2. }
  destruct (groups_apart tasks task previousSibling Hnd Hin Hpin) as [Hgnd Hgin];
    [congruence | done |].
  destruct (swapBlocks_keeps tasks (task :: findAllChildTasks tasks task)
              (previousSibling :: findAllChildTasks tasks previousSibling)
              (JS.indexZ (JS.findIndex (hasId (id previousSibling)) tasks)) Hnd Hgnd Hgin)
    as [Hperm Hsi'].
  split; [done | by right].
Qed.

Lemma moveTaskUp_keeps_witness :
  let tasks := [sampleTask "a" 1 None 0; set_isDeleted true (sampleTask "b" 2 None 1);
                sampleTask "c" 3 None 1; sampleTask "d" 4 (Some "1") 0] in
  let moved := moveTaskUp tasks "d" in
  id <$> moved ≡ₚ id <$> tasks
  /\ (moved = tasks \/ siNo <$> moved = seqZ 1 (Z.of_nat (length tasks))).
Proof.
  apply (moveTaskUp_keeps
           [sampleTask "a" 1 None 0; set_isDeleted true (sampleTask "b" 2 None 1);
            sampleTask "c" 3 None 1; sampleTask "d" 4 (Some "1") 0] "d").
  apply (bool_decide_unpack _). vm_compute. reflexivity.
Defined.

(** X26: on a task list with distinct ids, [moveTaskDown] keeps
    every task exactly once.  Either it returns the list unchanged, or
    the ordinals of the result are 1..length in list order, deleted tasks
    counted. *)
Theorem moveTaskDown_keeps (tasks : list Task) (taskId : string) :
  NoDup (id <$> tasks) ->
  let moved := moveTaskDown tasks taskId in
  id <$> moved ≡ₚ id <$> tasks
  /\ (moved = tasks \/ siNo <$> moved = seqZ 1 (Z.of_nat (length tasks))).
Proof.
  intros Hnd. unfold moveTaskDown.
  destruct (JS.findIndex _ tasks) as [taskIndex|] eqn:Hidx; simpl; [|by split; [|left]].
  destruct (_ >=? _); [by split; [|left]|].
  destruct (findIndex_Some _ _ _ Hidx) as (task & Htask & Hp & _).
  rewrite Htask. apply andb_true_iff in Hp as [Hid Hlive]. apply String.eqb_eq in Hid.
  assert (In task tasks) as Hin.
  { apply list_elem_of_In. by eapply list_elem_of_lookup_2. }
  destruct (findSiblingTasks_spec tasks task Hnd Hin) as [Hsnd Hsiblings].
  set (siblings := findSiblingTasks tasks task) in *.
  set (siblingIndex := JS.indexZ (JS.findIndex (hasId taskId) siblings)).
  destruct (siblingIndex >=? _); [by split; [|left]|].
  destruct (JS.at_ siblings (siblingIndex + 1)) as [nextSibling|] eqn:Hnext;
    [|by split; [|left]].
  unfold JS.at_ in Hnext. destruct (siblingIndex + 1 <? 0); [done|].
  assert (id nextSibling <> taskId) as Hne.
  { intros Heq. unfold siblingIndex in Hnext.
    destruct (JS.findIndex (hasId taskId) siblings) as [si|] eqn:Hsi.
    - destruct (findIndex_Some _ _ _ Hsi) as (x & Hx & Hxid & _).
      apply String.eqb_eq in Hxid. simpl in Hnext.
      assert (Z.to_nat (Z.of_nat si + 1) = si); [|lia].
      apply (NoDup_ids_lookup siblings _ _ nextSibling x Hsnd Hnext Hx). congruence.
    - pose proof (findIndex_None _ _ Hsi nextSibling) as Hnone.
      rewrite <- Heq in Hnone. unfold hasId in Hnone. rewrite String.eqb_refl in Hnone.
      discriminate Hnone. apply list_elem_of_In. by eapply list_elem_of_lookup_2. }
  destruct (Hsiblings nextSibling) as [Hnin Hnlevel].
  { apply list_elem_of_In. by eapply list_elem_of_lookup_2. }
  destruct (groups_apart tasks nextSibling task Hnd Hnin Hin) as [Hgnd Hgin];
    [congruence | done |].
  destruct (swapBlocks_keeps tasks (nextSibling :: findAllChildTasks tasks nextSibling)
              (task :: findAllChildTasks tasks task)
              (Z.of_nat taskIndex) Hnd Hgnd Hgin)
    as [Hperm Hsi'].
  split; [done | by right].
Qed.

Lemma moveTaskDown_keeps_witness :
  let tasks := [sampleTask "a" 1 None 0; set_isDeleted true (sampleTask "b" 2 None 1);
                sampleTask "c" 3 None 1; sampleTask "d" 4 (Some "1") 0] in
  let moved := moveTaskDown tasks "a" in
  id <$> moved ≡ₚ id <$> tasks
  /\ (moved = tasks \/ siNo <$> moved = seqZ 1 (Z.of_nat (length tasks))).
Proof.
  apply (moveTaskDown_keeps
           [sampleTask "a" 1 None 0; set_isDeleted true (sampleTask "b" 2 None 1);
            sampleTask "c" 3 None 1; sampleTask "d" 4 (Some "1") 0] "a").
  apply (bool_decide_unpack _). vm_compute. reflexivity.
Defined.

(** ** The critical path *)

Lemma foldl_laterOf_In (l : list Task) : forall first,
  foldl laterOf first l = first \/ In (foldl laterOf first l) l.
Proof.
  induction l as [|a l IH]; intros first; simpl; [by left|].
  destruct (IH (laterOf first a)) as [H|H]; [|by right; right].
  rewrite H. unfold laterOf. destruct (_ <? _); [right; by left | by left].
Qed.

Lemma filter_length_lt {A : Type} (p q : A -> bool) (l : list A) (x : A) :
  (forall y, p y = true -> q y = true) -> In x l -> p x = false -> q x = true ->
  (length (List.filter p l) < length (List.filter q l))%nat.
Proof.
  intros Hpq Hx Hp Hq.
  assert (Hle : forall l', (length (List.filter p l') <= length (List.filter q l'))%nat).
  { induction l' as [|a l' IH]; simpl; [done|].
    destruct (p a) eqn:Hpa; [rewrite (Hpq a Hpa); simpl; lia|].
    destruct (q a); simpl; lia. }
  induction l as [|a l IH]; simpl; [done|].
  destruct Hx as [->|Hx].
  - rewrite Hp, Hq. simpl. specialize (Hle l). lia.
  - specialize (IH Hx). destruct (p a) eqn:Hpa; [rewrite (Hpq a Hpa); simpl; lia|].
    destruct (q a); simpl; lia.
Qed.

Section CriticalPath.

Variable tasks : list Task.
Hypothesis ordered : endsAfterPredecessors tasks.

(** The number of tasks that end before the day [e]. *)
Local Abbreviation earlier :=
  (fun e : Z => length (List.filter (fun t => default e (endDate t) <? e) tasks)).

Lemma traceBack_returns (n : nat) : forall currentTask e criticalPath,
  In currentTask tasks -> endDate currentTask = Some e -> (earlier e <= n)%nat ->
  exists path,
    converges (fun fuel => traceBack fuel tasks currentTask criticalPath) path
    /\ (length path <= length criticalPath + earlier e)%nat.
Proof.
  induction n as [|n IH]; intros currentTask e criticalPath Hin He Hn.
  - (* no task ends earlier: the current task has no dated predecessor *)
    exists criticalPath. split; [|lia]. exists 1%nat. intros [|fuel] Hfuel; [lia|].
    cbn [traceBack]. destruct (negb _); [done|].
    destruct (JS.parseSiNos _) as [|r refs] eqn:Hrefs; [done|]. rewrite <- Hrefs.
    destruct (List.filter (fun t => JS.includes (siNo t) _ && _) tasks)
      as [|first preds] eqn:Hpreds; [done|]. exfalso.
    assert (In first (first :: preds)) as Hfirst by by left.
    rewrite <- Hpreds in Hfirst. apply filter_In in Hfirst as [Hfin Hp].
    apply andb_true_iff in Hp as [Href Hend]. apply includes_In in Href.
    apply bool_decide_eq_true in Hend as [e' He'].
    destruct (predecessorIds currentTask) as [ids|] eqn:Hids; [|by rewrite Hrefs in Href].
    pose proof (ordered currentTask first ids e e' Hin Hfin Hids Href He He') as Hlt.
    assert (In first (List.filter (fun t => default e (endDate t) <? e) tasks)) as Hcount.
    { apply filter_In. split; [done|]. rewrite He'. simpl. by apply Z.ltb_lt. }
    destruct (List.filter (fun t => default e (endDate t) <? e) tasks); [done|].
    simpl in Hn. lia.
  - destruct (negb (from_option JS.truthy false (predecessorIds currentTask))) eqn:Htext.
    { exists criticalPath. split; [|lia]. exists 1%nat. intros [|fuel] Hfuel; [lia|].
      cbn [traceBack]. by rewrite Htext. }
    destruct (JS.parseSiNos (default "" (predecessorIds currentTask))) as [|r refs] eqn:Hrefs.
    { exists criticalPath. split; [|lia]. exists 1%nat. intros [|fuel] Hfuel; [lia|].
      cbn [traceBack]. by rewrite Htext, Hrefs. }
    destruct (List.filter (fun t => JS.includes (siNo t) (r :: refs)
                                    && bool_decide (is_Some (endDate t))) tasks)
      as [|first preds] eqn:Hpreds.
    { exists criticalPath. split; [|lia]. exists 1%nat. intros [|fuel] Hfuel; [lia|].
      cbn [traceBack]. by rewrite Htext, Hrefs, Hpreds. }
    set (latest := foldl laterOf first (first :: preds)).
    assert (In latest (first :: preds)) as Hlatest.
    { destruct (foldl_laterOf_In (first :: preds) first) as [H|H]; [|done].
      unfold latest. rewrite H. by left. }
    rewrite <- Hpreds in Hlatest. apply filter_In in Hlatest as [Hlin Hp].
    apply andb_true_iff in Hp as [Href Hend]. apply includes_In in Href.
    apply bool_decide_eq_true in Hend as [e' He'].
    destruct (predecessorIds currentTask) as [ids|] eqn:Hids; [|done].
    simpl in Hrefs. rewrite <- Hrefs in Href.
    pose proof (ordered currentTask latest ids e e' Hin Hlin Hids Href He He') as Hlt.
    assert (Hless : (earlier e' < earlier e)%nat).
    { apply (filter_length_lt _ _ tasks latest).
      - intros y Hy. destruct (endDate y) as [ey|]; simpl in *; [|lia].
        apply Z.ltb_lt in Hy. apply Z.ltb_lt. lia.
      - done.
      - rewrite He'. simpl. apply Z.ltb_ge. lia.
      - rewrite He'. simpl. by apply Z.ltb_lt. }
    destruct (IH latest e' (criticalPath ++ [id latest]) Hlin He' ltac:(lia))
      as (path & [N HN] & Hlen).
    exists path. split.
    + exists (S N). intros [|fuel] Hfuel; [lia|].
      cbn [traceBack]. rewrite Hids, Htext. simpl default. rewrite Hrefs, Hpreds.
      apply HN. lia.
    + rewrite length_app in Hlen. simpl in Hlen. lia.
Qed.

End CriticalPath.

(** X27: when every task with an end date ends after each task
    with an end date that its predecessor text names,
    [calculateCriticalPath] returns.  The path has at most as many
    entries as there are tasks, and it is empty exactly when no task has
    an end date. *)
Theorem calculateCriticalPath_returns (now : Z) (tasks : list Task) :
  endsAfterPredecessors tasks ->
  exists path,
    converges (fun fuel => calculateCriticalPath now fuel tasks) path
    /\ (length path <= length tasks)%nat
    /\ (path = [] <-> forall t, In t tasks -> endDate t = None).
Proof.
  intros Hordered. unfold calculateCriticalPath.
  set (dated := List.filter (fun t => bool_decide (is_Some (endDate t))) tasks).
  destruct (JS.sort _ dated) as [|first rest] eqn:Hsorted.
  - exists []. split; [apply converges_ret|]. split; [simpl; lia|]. split; [|done].
    intros _ t Ht. destruct (endDate t) as [e|] eqn:He; [|done]. exfalso.
    assert (In t dated) as Hin.
    { apply filter_In. split; [done|]. rewrite He. by apply bool_decide_eq_true. }
    apply (In_sort (fun a b => default now (endDate b) - default now (endDate a))) in Hin.
    by rewrite Hsorted in Hin.
  - assert (In first dated) as Hfirst.
    { apply (In_sort (fun a b => default now (endDate b) - default now (endDate a))).
      rewrite Hsorted. by left. }
    apply filter_In in Hfirst as [Hin Hend].
    apply bool_decide_eq_true in Hend as [e He].
    destruct (traceBack_returns tasks Hordered
                (length (List.filter (fun t => default e (endDate t) <? e) tasks))
                first e [id first] Hin He (Nat.le_refl _)) as (path & Hconv & Hlen).
    exists path. split; [done|]. split; [|split].
    + assert ((length (List.filter (fun t => (default e (endDate t) <? e)%Z) tasks)
               < length (List.filter (fun _ => true) tasks))%nat) as Hlt.
      { apply (filter_length_lt _ _ tasks first); [done | done | | done].
        rewrite He. simpl. apply Z.ltb_irrefl. }
      assert (List.filter (fun _ : Task => true) tasks = tasks) as Hall.
      { clear. induction tasks as [|a l IH]; simpl; [done | by rewrite IH]. }
      rewrite Hall in Hlt. simpl in Hlen. lia.
    + intros ->. exfalso. destruct Hconv as [N HN]. specialize (HN (S N) ltac:(lia)).
      (* the path starts with the id of the first task and only grows *)
      assert (Hgrow : forall fuel current acc result,
                traceBack fuel tasks current acc = Some result ->
                (length acc <= length result)%nat).
      { clear. induction fuel as [|fuel IH]; intros current acc result; [done|].
        cbn [traceBack]. destruct (negb _); [by intros [= <-]|].
        destruct (JS.parseSiNos _); [by intros [= <-]|].
        destruct (List.filter _ tasks); [by intros [= <-]|].
        intros H. apply IH in H. rewrite length_app in H. simpl in H. lia. }
      apply Hgrow in HN. simpl in HN. lia.
    + intros Hnone. rewrite (Hnone first Hin) in He. done.
Qed.

Lemma calculateCriticalPath_returns_witness :
  let tasks := [set_endDate (Some 20094) (sampleTask "a" 1 (Some "0") 0);
                set_endDate (Some 20098) (sampleTask "b" 2 (Some "1") 0);
                set_endDate (Some 20100) (sampleTask "c" 3 (Some "1,2") 0)] in
  exists path,
    converges (fun fuel => calculateCriticalPath 20200 fuel tasks) path
    /\ (length path <= length tasks)%nat
    /\ (path = [] <-> forall t, In t tasks -> endDate t = None).
Proof.
  apply calculateCriticalPath_returns.
  intros t p ids e e' Ht Hp Hids Href He He'.
  simpl in Ht, Hp.
  destruct Ht as [<-|[<-|[<-|[]]]]; injection Hids as <-; injection He as <-;
    destruct Hp as [<-|[<-|[<-|[]]]]; injection He' as <-;
    vm_compute in Href; vm_compute; intuition discriminate.
Defined.
